(** * WhatsApp session lifecycle and batched bulk dispatch

    A shallow embedding of the session state machine ([startClient] and the
    handlers it registers on the messaging client), of the QR expiry logic,
    and of the bulk senders ([sendEmails], [sendEmailsInBatches] and the
    per-contact loop of [POST /api/whatsapp/send]) of the server entry point.

    Module-level variables of the server become the fields of one record;
    the timers of the event loop, the number of [Client] objects built and
    the [destroy] calls are kept next to them so that scheduling and
    construction can be stated.  Every handler is a function on that record:
    Node runs a handler to completion before the next callback. *)

From Stdlib Require Import List String Ascii ZArith Bool Arith Lia.
Import ListNotations.

Local Open Scope string_scope.
Local Open Scope list_scope.

(** ** Constants of the server *)

Definition MAX_RECONNECT_ATTEMPTS : nat := 5.
Definition QR_TIMEOUT : Z := 60000.
Definition INITIALIZATION_TIMEOUT : Z := 30000.
(** Delay of the restart after a watchdog fire and of a reconnection. *)
Definition RETRY_DELAY : Z := 5000.
(** Period of the [setInterval] that sweeps expired QR codes. *)
Definition QR_SWEEP_INTERVAL : Z := 10000.

(** ** Data model *)

(** The values the variable [clientState] takes. *)
Inductive ClientState : Type :=
  | Initializing | Qr | Authenticated | Ready
  | Disconnected | AuthFailure | Error.

Definition state_label (c : ClientState) : string :=
  match c with
  | Initializing => "initializing"
  | Qr => "qr"
  | Authenticated => "authenticated"
  | Ready => "ready"
  | Disconnected => "disconnected"
  | AuthFailure => "auth_failure"
  | Error => "error"
  end.

Definition ClientState_eq_dec (a b : ClientState) : {a = b} + {a <> b}.
Proof. decide equality. Defined.

Definition state_is (a b : ClientState) : bool :=
  if ClientState_eq_dec a b then true else false.

(** [client.info]: only [info.wid.user] is read. *)
Record Info : Type := mkInfo { wid_user : string }.

(** What a pending [setTimeout] will run. *)
Inductive Callback : Type :=
  | CbWatchdog      (* the initializationTimeout callback *)
  | CbStartClient.  (* () => startClient() *)

Record Timer : Type := mkTimer {
  handle : nat;
  callback : Callback;
  delay : Z
}.

(** Module-level variables, followed by the part of the runtime the handlers
    act on. *)
Record Session : Type := mkSession {
  client : option nat;
  qrCodeData : option string;
  sessionPhone : option string;
  sessionInfo : option Info;
  isInitializing : bool;
  reconnectAttempts : nat;
  qrGeneratedTime : option Z;
  clientState : ClientState;
  initializationTimeout : option nat;
  sessionRestoredOnce : bool;
  (* runtime *)
  timers : list Timer;      (* pending timeouts, oldest first *)
  nextHandle : nat;         (* next timeout handle *)
  constructed : nat;        (* Client objects built so far *)
  destroyed : list nat      (* clients on which destroy() was called *)
}.

(** Values at module load. *)
Definition initial : Session :=
  {| client := None; qrCodeData := None; sessionPhone := None;
     sessionInfo := None; isInitializing := false; reconnectAttempts := 0;
     qrGeneratedTime := None; clientState := Initializing;
     initializationTimeout := None; sessionRestoredOnce := false;
     timers := []; nextHandle := 0; constructed := 0; destroyed := [] |}.

(** *** Field updates *)

Definition set_client v s :=
  mkSession v (qrCodeData s) (sessionPhone s) (sessionInfo s)
    (isInitializing s) (reconnectAttempts s) (qrGeneratedTime s)
    (clientState s) (initializationTimeout s) (sessionRestoredOnce s)
    (timers s) (nextHandle s) (constructed s) (destroyed s).
Definition set_qrCodeData v s :=
  mkSession (client s) v (sessionPhone s) (sessionInfo s)
    (isInitializing s) (reconnectAttempts s) (qrGeneratedTime s)
    (clientState s) (initializationTimeout s) (sessionRestoredOnce s)
    (timers s) (nextHandle s) (constructed s) (destroyed s).
Definition set_sessionPhone v s :=
  mkSession (client s) (qrCodeData s) v (sessionInfo s)
    (isInitializing s) (reconnectAttempts s) (qrGeneratedTime s)
    (clientState s) (initializationTimeout s) (sessionRestoredOnce s)
    (timers s) (nextHandle s) (constructed s) (destroyed s).
Definition set_sessionInfo v s :=
  mkSession (client s) (qrCodeData s) (sessionPhone s) v
    (isInitializing s) (reconnectAttempts s) (qrGeneratedTime s)
    (clientState s) (initializationTimeout s) (sessionRestoredOnce s)
    (timers s) (nextHandle s) (constructed s) (destroyed s).
Definition set_isInitializing v s :=
  mkSession (client s) (qrCodeData s) (sessionPhone s) (sessionInfo s)
    v (reconnectAttempts s) (qrGeneratedTime s)
    (clientState s) (initializationTimeout s) (sessionRestoredOnce s)
    (timers s) (nextHandle s) (constructed s) (destroyed s).
Definition set_reconnectAttempts v s :=
  mkSession (client s) (qrCodeData s) (sessionPhone s) (sessionInfo s)
    (isInitializing s) v (qrGeneratedTime s)
    (clientState s) (initializationTimeout s) (sessionRestoredOnce s)
    (timers s) (nextHandle s) (constructed s) (destroyed s).
Definition set_qrGeneratedTime v s :=
  mkSession (client s) (qrCodeData s) (sessionPhone s) (sessionInfo s)
    (isInitializing s) (reconnectAttempts s) v
    (clientState s) (initializationTimeout s) (sessionRestoredOnce s)
    (timers s) (nextHandle s) (constructed s) (destroyed s).
Definition set_clientState v s :=
  mkSession (client s) (qrCodeData s) (sessionPhone s) (sessionInfo s)
    (isInitializing s) (reconnectAttempts s) (qrGeneratedTime s)
    v (initializationTimeout s) (sessionRestoredOnce s)
    (timers s) (nextHandle s) (constructed s) (destroyed s).
Definition set_initializationTimeout v s :=
  mkSession (client s) (qrCodeData s) (sessionPhone s) (sessionInfo s)
    (isInitializing s) (reconnectAttempts s) (qrGeneratedTime s)
    (clientState s) v (sessionRestoredOnce s)
    (timers s) (nextHandle s) (constructed s) (destroyed s).
Definition set_sessionRestoredOnce v s :=
  mkSession (client s) (qrCodeData s) (sessionPhone s) (sessionInfo s)
    (isInitializing s) (reconnectAttempts s) (qrGeneratedTime s)
    (clientState s) (initializationTimeout s) v
    (timers s) (nextHandle s) (constructed s) (destroyed s).
Definition set_timers v s :=
  mkSession (client s) (qrCodeData s) (sessionPhone s) (sessionInfo s)
    (isInitializing s) (reconnectAttempts s) (qrGeneratedTime s)
    (clientState s) (initializationTimeout s) (sessionRestoredOnce s)
    v (nextHandle s) (constructed s) (destroyed s).
Definition set_nextHandle v s :=
  mkSession (client s) (qrCodeData s) (sessionPhone s) (sessionInfo s)
    (isInitializing s) (reconnectAttempts s) (qrGeneratedTime s)
    (clientState s) (initializationTimeout s) (sessionRestoredOnce s)
    (timers s) v (constructed s) (destroyed s).
Definition set_constructed v s :=
  mkSession (client s) (qrCodeData s) (sessionPhone s) (sessionInfo s)
    (isInitializing s) (reconnectAttempts s) (qrGeneratedTime s)
    (clientState s) (initializationTimeout s) (sessionRestoredOnce s)
    (timers s) (nextHandle s) v (destroyed s).
Definition set_destroyed v s :=
  mkSession (client s) (qrCodeData s) (sessionPhone s) (sessionInfo s)
    (isInitializing s) (reconnectAttempts s) (qrGeneratedTime s)
    (clientState s) (initializationTimeout s) (sessionRestoredOnce s)
    (timers s) (nextHandle s) (constructed s) v.

(** *** JavaScript truthiness of the values tested in conditions *)

(** A string or [null]: the empty string is falsy. *)
Definition truthy_string (v : option string) : bool :=
  match v with
  | Some EmptyString => false
  | Some _ => true
  | None => false
  end.

(** A number or [null]: zero is falsy. *)
Definition truthy_number (v : option Z) : bool :=
  match v with
  | Some t => negb (Z.eqb t 0)
  | None => false
  end.

(** An object or [null]. *)
Definition truthy_object {A : Type} (v : option A) : bool :=
  match v with Some _ => true | None => false end.

(** ** Timers *)

(** [setTimeout(cb, ms)]: the new handle and the session with the timer
    pending. *)
Definition setTimeout (cb : Callback) (ms : Z) (s : Session) : nat * Session :=
  let h := nextHandle s in
  (h, set_nextHandle (S h) (set_timers (timers s ++ [mkTimer h cb ms]) s)).

Definition clearTimeout (h : nat) (s : Session) : Session :=
  set_timers (filter (fun t => negb (Nat.eqb (handle t) h)) (timers s)) s.

(** The block every handler starts with:
    [if (initializationTimeout) { clearTimeout(...); ... = null; }] *)
Definition clear_initializationTimeout (s : Session) : Session :=
  match initializationTimeout s with
  | Some h => set_initializationTimeout None (clearTimeout h s)
  | None => s
  end.

(** ** startClient *)

(** [ctor_ok] tells whether the [try] block (building the [Client] and
    registering its handlers) completes; a rejection of
    [client.initialize()] comes later, as [on_initialize_rejected]. *)
Definition startClient (ctor_ok : bool) (s : Session) : Session :=
  if isInitializing s then s
  else
    let s := if state_is (clientState s) Initializing && negb (isInitializing s)
             then set_clientState Disconnected s else s in
    let s := set_isInitializing true s in
    let s := set_clientState Initializing s in
    let '(h, s) := setTimeout CbWatchdog INITIALIZATION_TIMEOUT s in
    let s := set_initializationTimeout (Some h) s in
    if ctor_ok then
      set_constructed (S (constructed s)) (set_client (Some (constructed s)) s)
    else
      let s := clear_initializationTimeout s in
      let s := set_isInitializing false s in
      set_clientState Error s.

(** The callback of [initializationTimeout].  [destroy_throws] is the
    outcome of [client.destroy()], which sits in a [try] whose [catch] only
    logs. *)
Definition watchdog (destroy_throws : bool) (s : Session) : Session :=
  if state_is (clientState s) Initializing then
    let s := set_isInitializing false s in
    let s := set_clientState Error s in
    let s := match client s with
             | Some c => set_destroyed (destroyed s ++ [c]) s
             | None => s
             end in
    snd (setTimeout CbStartClient RETRY_DELAY s)
  else s.

(** ** Handlers registered on the client *)

Definition on_qr (payload : string) (now : Z) (s : Session) : Session :=
  let s := clear_initializationTimeout s in
  let s := set_qrCodeData (Some payload) s in
  let s := set_qrGeneratedTime (Some now) s in
  let s := set_sessionPhone None s in
  let s := set_sessionInfo None s in
  let s := set_reconnectAttempts 0 s in
  let s := set_clientState Qr s in
  set_isInitializing false s.

Definition on_authenticated (s : Session) : Session :=
  let s := clear_initializationTimeout s in
  set_clientState Authenticated s.

(** [info] is the value of [await client.info]; [None] stands for a value
    on which [info.wid.user] throws, which the [catch] turns into the
    error state. *)
Definition on_ready (info : option Info) (s : Session) : Session :=
  let s := clear_initializationTimeout s in
  match info with
  | Some i =>
      let s := set_sessionPhone (Some (wid_user i)) s in
      let s := set_sessionInfo (Some i) s in
      let s := set_reconnectAttempts 0 s in
      let s := set_isInitializing false s in
      let s := set_clientState Ready s in
      let s := set_qrCodeData None s in
      let s := set_qrGeneratedTime None s in
      set_sessionRestoredOnce false s
  | None =>
      let s := set_isInitializing false s in
      set_clientState Error s
  end.

Definition on_disconnected (reason : string) (s : Session) : Session :=
  let s := clear_initializationTimeout s in
  let s := set_qrCodeData None s in
  let s := set_qrGeneratedTime None s in
  let s := set_sessionPhone None s in
  let s := set_sessionInfo None s in
  let s := set_isInitializing false s in
  let s := set_clientState Disconnected s in
  if negb (String.eqb reason "NAVIGATION")
     && Nat.ltb (reconnectAttempts s) MAX_RECONNECT_ATTEMPTS
  then
    let s := set_reconnectAttempts (S (reconnectAttempts s)) s in
    snd (setTimeout CbStartClient RETRY_DELAY s)
  else s.

Definition on_auth_failure (s : Session) : Session :=
  let s := clear_initializationTimeout s in
  let s := set_isInitializing false s in
  let s := set_clientState AuthFailure s in
  let s := set_qrCodeData None s in
  let s := set_qrGeneratedTime None s in
  let s := set_sessionPhone None s in
  set_sessionInfo None s.

Definition on_error (s : Session) : Session :=
  let s := clear_initializationTimeout s in
  let s := set_isInitializing false s in
  set_clientState Error s.

(** [client.initialize().catch(...)] *)
Definition on_initialize_rejected (s : Session) : Session :=
  let s := clear_initializationTimeout s in
  let s := set_isInitializing false s in
  set_clientState Error s.

(** ** QR expiry *)

Definition qr_expired (now : Z) (s : Session) : bool :=
  match qrGeneratedTime s with
  | Some t => truthy_number (Some t) && Z.ltb QR_TIMEOUT (now - t)
  | None => false
  end.

(** The body of the [setInterval] callback. *)
Definition qr_sweep (now : Z) (s : Session) : Session :=
  if truthy_string (qrCodeData s) && qr_expired now s
  then set_qrGeneratedTime None (set_qrCodeData None s)
  else s.

(** ** HTTP operations on the session *)

(** Answers of [GET /api/whatsapp/qr]. *)
Inductive QrResponse : Type :=
  | QrImage (image : string)   (* 200, { qr: image } *)
  | QrExpired                  (* 404, 'QR code expired' *)
  | QrImageFailed              (* 500, 'Failed to generate QR image' *)
  | AlreadyReady               (* 200 *)
  | InitializingWait           (* 202, 'Client is initializing' *)
  | Reconnecting               (* 202, 'Client is reconnecting' *)
  | NoQrAvailable.             (* 404, 'No QR code available.' *)

(** [render] is [qrcode.toDataURL]; [None] when it rejects.  The handler
    hands it [qrCodeData] only on the branch that serves the QR code. *)
Definition get_whatsapp_qr (render : string -> option string) (now : Z)
    (ctor_ok : bool) (s : Session) : QrResponse * Session :=
  if state_is (clientState s) Qr && truthy_string (qrCodeData s) then
    if qr_expired now s then
      (QrExpired, set_qrGeneratedTime None (set_qrCodeData None s))
    else
      match qrCodeData s with
      | Some payload =>
          match render payload with
          | Some image => (QrImage image, s)
          | None => (QrImageFailed, s)
          end
      | None => (QrImageFailed, s)
      end
  else if state_is (clientState s) Ready then (AlreadyReady, s)
  else if state_is (clientState s) Initializing || isInitializing s
  then (InitializingWait, s)
  else if (state_is (clientState s) Disconnected
           || state_is (clientState s) AuthFailure
           || state_is (clientState s) Error)
          && negb (isInitializing s)
  then (Reconnecting, startClient ctor_ok s)
  else (NoQrAvailable, s).

(** [POST /api/whatsapp/qr], up to the end of the awaited [logout] and
    [destroy]; both sit in a [try] whose [catch] only logs. *)
Definition reset_teardown (s : Session) : Session :=
  match client s with
  | Some c => set_destroyed (destroyed s ++ [c]) s
  | None => s
  end.

(** [POST /api/whatsapp/qr], from "Clear session data" to [startClient()]. *)
Definition reset_restart (ctor_ok : bool) (s : Session) : Session :=
  let s := set_qrCodeData None s in
  let s := set_qrGeneratedTime None s in
  let s := set_sessionPhone None s in
  let s := set_sessionInfo None s in
  let s := set_isInitializing false s in
  let s := set_clientState Initializing s in
  let s := clear_initializationTimeout s in
  startClient ctor_ok s.

(** ** The state machine: one step per callback the event loop runs *)

Inductive Event : Type :=
  | EvQr (payload : string) (now : Z)
  | EvAuthenticated
  | EvReady (info : option Info)
  | EvDisconnected (reason : string)
  | EvAuthFailure
  | EvError
  | EvInitializeRejected
  | EvTimeout (h : nat) (ctor_ok destroy_throws : bool)
  | EvSweep (now : Z)
  | EvGetQr (now : Z) (ctor_ok : bool)
  | EvResetTeardown
  | EvResetRestart (ctor_ok : bool).

Definition find_timer (h : nat) (s : Session) : option Timer :=
  find (fun t => Nat.eqb (handle t) h) (timers s).

(** A pending timeout fires: it leaves the pending list and its callback
    runs.  A handle that is not pending (cleared or already fired) does
    nothing. *)
Definition fire (h : nat) (ctor_ok destroy_throws : bool) (s : Session)
    : Session :=
  match find_timer h s with
  | Some t =>
      let s := clearTimeout h s in
      match callback t with
      | CbWatchdog => watchdog destroy_throws s
      | CbStartClient => startClient ctor_ok s
      end
  | None => s
  end.

Definition step (e : Event) (s : Session) : Session :=
  match e with
  | EvQr payload now => on_qr payload now s
  | EvAuthenticated => on_authenticated s
  | EvReady info => on_ready info s
  | EvDisconnected reason => on_disconnected reason s
  | EvAuthFailure => on_auth_failure s
  | EvError => on_error s
  | EvInitializeRejected => on_initialize_rejected s
  | EvTimeout h ctor_ok destroy_throws => fire h ctor_ok destroy_throws s
  | EvSweep now => qr_sweep now s
  | EvGetQr now ctor_ok => snd (get_whatsapp_qr (fun _ => None) now ctor_ok s)
  | EvResetTeardown => reset_teardown s
  | EvResetRestart ctor_ok => reset_restart ctor_ok s
  end.

Definition run (tr : list Event) (s : Session) : Session :=
  fold_left (fun s e => step e s) tr s.

(** The session after module load: [startClient()] is called once. *)
Definition boot (ctor_ok : bool) : Session := startClient ctor_ok initial.

Definition reachable (s : Session) : Prop :=
  exists ctor_ok tr, s = run tr (boot ctor_ok).

(** ** Bulk dispatch *)

(** What a dispatch does besides computing its result list, in order. *)
Inductive Effect : Type :=
  | EBatch (batch : list string)            (* sendEmails called on these addresses *)
  | EMessage (address text : string)        (* client.sendMessage(address, text) *)
  | EDelay (ms : Z).                        (* an awaited setTimeout *)

(** An element of the [emails] array. *)
Record EmailData : Type := mkEmailData {
  email : string;
  row : nat;
  column : string
}.

(** An element of the array [sendEmails] returns:
    [{ email, status: 'success', messageId }] or
    [{ email, status: 'failed', error }]. *)
Inductive EmailResult : Type :=
  | MailSuccess (to messageId : string)
  | MailFailed (to error : string).

Definition result_email (r : EmailResult) : string :=
  match r with MailSuccess to _ => to | MailFailed to _ => to end.

(** A field of a parsed JSON body as the handlers use it: a string, or any
    other value (a number, a boolean, [null], an array, an object, or no
    value at all), of which the code reads only the truthiness and the text
    that [String] gives it. *)
Inductive JsValue : Type :=
  | JsString (s : string)
  | JsOther (truthy : bool) (text : string).

(** An absent field. *)
Definition js_undefined : JsValue := JsOther false "undefined".

(** [!!v] *)
Definition js_truthy (v : JsValue) : bool :=
  match v with
  | JsString s => truthy_string (Some s)
  | JsOther t _ => t
  end.

(** [String(v)], the text a regular expression tests. *)
Definition js_text (v : JsValue) : string :=
  match v with
  | JsString s => s
  | JsOther _ text => text
  end.

(** An element of the [contacts] array that is an object; an absent or
    empty [name] is [None] or the empty string, both falsy. *)
Record Contact : Type := mkContact {
  name : option string;
  phone : JsValue
}.

(** An element of the [results] array of [POST /api/whatsapp/send]:
    [{ contact, success, error? }]. *)
Record ContactResult : Type := mkContactResult {
  contact : Contact;
  success : bool;
  error : option string
}.

(** Answers of [POST /api/whatsapp/send]. *)
Inductive SendResponse : Type :=
  | NoSession                                  (* 400, 'No WhatsApp session' *)
  | NoContacts                                 (* 400, 'No contacts provided' *)
  | EmptyMessage                               (* 400, 'Message cannot be empty' *)
  | SendComplete (results : list ContactResult).  (* 200 *)

Definition is_digit (c : ascii) : bool :=
  let n := nat_of_ascii c in Nat.leb 48 n && Nat.leb n 57.

Fixpoint all_digits (s : string) : bool :=
  match s with
  | EmptyString => true
  | String c rest => is_digit c && all_digits rest
  end.

(** [/^\d{10,15}$/.test(phone)] *)
Definition phone_regex (p : string) : bool :=
  Nat.leb 10 (String.length p) && Nat.leb (String.length p) 15 && all_digits p.

(** [!contact.phone || !/^\d{10,15}$/.test(contact.phone)]: [test] converts
    its argument to a string first. *)
Definition invalid_phone (c : Contact) : bool :=
  negb (js_truthy (phone c)) || negb (phone_regex (js_text (phone c))).

(** The message of the [TypeError] that [contact.phone.startsWith('91')]
    throws in Node when the phone is not a string: only strings have the
    method. *)
Definition STARTSWITH_TYPE_ERROR : string :=
  "contact.phone.startsWith is not a function".

(** The address a message is sent to. *)
Definition chat_address (p : string) : string :=
  if negb (String.prefix "91" p)
  then ("91" ++ p ++ "@c.us")%string
  else (p ++ "@c.us")%string.

(** Delay after each contact a send was tried for. *)
Definition CONTACT_DELAY : Z := 10000.
(** Batch parameters of [POST /api/send-emails]. *)
Definition BATCH_SIZE : nat := 20.
Definition BATCH_DELAY_MS : Z := 30000.

Section Dispatch.

(** The outside world the transports act on. *)
Variable World : Type.

(** [transporter.sendMail({ to, subject, html })]: the message id, or the
    message of the error it throws. *)
Variable sendMail : World -> string -> string -> string -> (string + string) * World.

(** [client.sendMessage(address, text)]: [Some m] when it throws an error
    with message [m]. *)
Variable sendMessage : World -> string -> string -> option string * World.

(** [String.prototype.trim]. *)
Variable trim : string -> string.

(** [sendEmails]: one result per element, pushed in order; the [catch]
    pushes the failure and the loop goes on. *)
Fixpoint sendEmails (w : World) (emails : list EmailData) (subject body : string)
    : list EmailResult * World :=
  match emails with
  | [] => ([], w)
  | emailData :: rest =>
      let '(outcome, w1) := sendMail w (email emailData) subject body in
      let r := match outcome with
               | inl messageId => MailSuccess (email emailData) messageId
               | inr message => MailFailed (email emailData) message
               end in
      let '(results, w2) := sendEmails w1 rest subject body in
      (r :: results, w2)
  end.

(** [emails.slice(i, j)] for [i <= j]. *)
Definition slice {A : Type} (i j : nat) (l : list A) : list A :=
  firstn (j - i) (skipn i l).

(** The loop of [sendEmailsInBatches], from index [i] with the results
    and effects accumulated so far.  One unit of fuel per iteration;
    [None] when the fuel runs out. *)
Fixpoint batches_loop (fuel : nat) (emails : list EmailData)
    (subject body : string) (batchSize : nat) (delayMs : Z)
    (i : nat) (allResults : list EmailResult) (log : list Effect) (w : World)
    : option (list EmailResult * list Effect * World) :=
  match fuel with
  | O => None
  | S fuel' =>
      if Nat.ltb i (List.length emails) then
        let batch := slice i (i + batchSize) emails in
        let '(batchResults, w1) := sendEmails w batch subject body in
        let allResults := allResults ++ batchResults in
        let log := log ++ [EBatch (map email batch)] in
        let log := if Nat.ltb (i + batchSize) (List.length emails)
                   then log ++ [EDelay delayMs] else log in
        batches_loop fuel' emails subject body batchSize delayMs
          (i + batchSize) allResults log w1
      else Some (allResults, log, w)
  end.

(** [sendEmailsInBatches]: with a batch size of at least one the loop
    makes at most [emails.length] iterations and one more test. *)
Definition sendEmailsInBatches (w : World) (emails : list EmailData)
    (subject body : string) (batchSize : nat) (delayMs : Z)
    : option (list EmailResult * list Effect * World) :=
  batches_loop (S (List.length emails)) emails subject body batchSize delayMs
    0 [] [] w.

(** The per-contact loop of [POST /api/whatsapp/send].  A contact the
    guard rejects is recorded and skipped ([continue]).  For the others the
    [try] block computes the address and sends; its [catch] records the
    message of whatever was thrown, be it by [sendMessage] or, for a phone
    that is not a string, by [startsWith] before anything is sent.  The
    wait after the [try] is paid in both cases. *)
Fixpoint send_contacts (w : World) (contacts : list Contact) (message : string)
    : list ContactResult * list Effect * World :=
  match contacts with
  | [] => ([], [], w)
  | c :: rest =>
      if invalid_phone c then
        let '(results, log, w1) := send_contacts w rest message in
        (mkContactResult c false (Some "Invalid phone number format") :: results,
         log, w1)
      else
        match phone c with
        | JsString p =>
            let number := chat_address p in
            let '(thrown, w1) := sendMessage w number message in
            let r := match thrown with
                     | None => mkContactResult c true None
                     | Some m => mkContactResult c false (Some m)
                     end in
            let '(results, log, w2) := send_contacts w1 rest message in
            (r :: results,
             EMessage number message :: EDelay CONTACT_DELAY :: log, w2)
        | JsOther _ _ =>
            let '(results, log, w1) := send_contacts w rest message in
            (mkContactResult c false (Some STARTSWITH_TYPE_ERROR) :: results,
             EDelay CONTACT_DELAY :: log, w1)
        end
  end.

(** [POST /api/whatsapp/send].  [contacts] is [None] when the body holds
    no array under that key, [message] when it holds no string. *)
Definition post_whatsapp_send (s : Session) (w : World)
    (contacts : option (list Contact)) (message : option string)
    : SendResponse * list Effect * World :=
  if negb (truthy_object (client s)) || negb (truthy_object (sessionInfo s))
  then (NoSession, [], w)
  else
    match contacts with
    | None | Some [] => (NoContacts, [], w)
    | Some cs =>
        match message with
        | None => (EmptyMessage, [], w)
        | Some m =>
            if negb (truthy_string (Some m)) || String.eqb (trim m) ""
            then (EmptyMessage, [], w)
            else
              let '(results, log, w1) := send_contacts w cs m in
              (SendComplete results, log, w1)
        end
    end.

End Dispatch.

(** ** Vocabulary of the statements about the session *)

(** Calls of [startClient] one after the other, with the outcome of each
    construction. *)
Definition start_calls (outcomes : list bool) (s : Session) : Session :=
  fold_left (fun s ctor_ok => startClient ctor_ok s) outcomes s.


Definition fresh_list (n : nat) (l : list Timer) : bool :=
  forallb (fun t => Nat.ltb (handle t) n) l.

(** Every pending handle is below the next handle to be given out. *)
Definition fresh_handles (s : Session) : bool :=
  fresh_list (nextHandle s) (timers s).

(** A disconnection that is not a manual logout. *)
Definition is_retry (e : Event) : bool :=
  match e with
  | EvDisconnected reason => negb (String.eqb reason "NAVIGATION")
  | _ => false
  end.

Definition retries (tr : list Event) : nat := List.length (filter is_retry tr).

(** The session reaches [Ready]. *)
Definition reaches_ready (e : Event) : bool :=
  match e with EvReady (Some _) => true | _ => false end.

(** Neither a [ready] event that succeeds nor a [qr] event. *)
Definition keeps_counter (e : Event) : bool :=
  match e with
  | EvReady (Some _) | EvQr _ _ => false
  | _ => true
  end.

(** Five disconnections, each followed by the retry it scheduled, and then
    a QR code issued by the sixth client. *)
Definition five_disconnects_then_qr : list Event :=
  [ EvDisconnected "CONFLICT"; EvTimeout 1 true false;
    EvDisconnected "CONFLICT"; EvTimeout 3 true false;
    EvDisconnected "CONFLICT"; EvTimeout 5 true false;
    EvDisconnected "CONFLICT"; EvTimeout 7 true false;
    EvDisconnected "CONFLICT"; EvTimeout 9 true false;
    EvQr "2@k3Tq" 1700000000000 ].

(** The payload and its timestamp are set together and cleared together. *)
Definition qr_paired (s : Session) : Prop :=
  qrCodeData s = None <-> qrGeneratedTime s = None.

(** A retry scheduled by a disconnection fires after the session has been
    restarted through [GET /api/whatsapp/qr] and has become ready again. *)
Definition stale_retry_trace : list Event :=
  [ EvReady (Some (mkInfo "919876543210"));
    EvDisconnected "CONFLICT";
    EvGetQr 1700000001000 true;
    EvReady (Some (mkInfo "919876543210"));
    EvTimeout 1 true false ].

(** ** Vocabulary of the statements about the senders *)

(** The list cut into consecutive pieces of [size] elements, the last one
    possibly shorter; [fuel] bounds the number of pieces. *)
Fixpoint chunks_aux {A : Type} (fuel size : nat) (l : list A) : list (list A) :=
  match fuel with
  | O => []
  | S fuel' =>
      match l with
      | [] => []
      | _ :: _ => firstn size l :: chunks_aux fuel' size (skipn size l)
      end
  end.

Definition chunks {A : Type} (size : nat) (l : list A) : list (list A) :=
  chunks_aux (List.length l) size l.

(** [sep] between any two consecutive elements, and nowhere else. *)
Fixpoint intersperse {A : Type} (sep : A) (l : list A) : list A :=
  match l with
  | [] => []
  | x :: rest =>
      match rest with
      | [] => [x]
      | _ :: _ => x :: sep :: intersperse sep rest
      end
  end.

(** The sizes of the pieces of a list of [n] elements. *)
Fixpoint chunk_sizes (fuel size n : nat) : list nat :=
  match fuel with
  | O => []
  | S fuel' =>
      if Nat.eqb n 0 then []
      else Nat.min size n :: chunk_sizes fuel' size (n - size)
  end.

(** What the log holds for a batch. *)
Definition batch_effect (batch : list EmailData) : Effect :=
  EBatch (map email batch).

Definition is_delay (e : Effect) : bool :=
  match e with EDelay _ => true | _ => false end.

Definition count_delays (log : list Effect) : nat :=
  List.length (filter is_delay log).

(** Batch sizes and delays of a log, in order. *)
Definition effect_shape (e : Effect) : nat + Z :=
  match e with
  | EBatch b => inl (List.length b)
  | EMessage _ _ => inl 1
  | EDelay ms => inr ms
  end.

(** A string of 10 to 15 characters, each one of ['0'] to ['9']. *)
Definition digits_10_15 (p : string) : Prop :=
  10 <= String.length p <= 15 /\
  forall ch, In ch (list_ascii_of_string p) -> 48 <= nat_of_ascii ch <= 57.

Definition starts_with_91 (p : string) : Prop :=
  exists rest, p = ("91" ++ rest)%string.

(** The phones of the contacts a message is sent for, in order: those that
    pass the validation and are strings. *)
Definition accepted_phones (contacts : list Contact) : list string :=
  flat_map (fun c => if invalid_phone c then []
                     else match phone c with
                          | JsString p => [p]
                          | JsOther _ _ => []
                          end)
           contacts.

(** The contacts that pass the validation, in order. *)
Definition attempted (contacts : list Contact) : list Contact :=
  filter (fun c => negb (invalid_phone c)) contacts.

Definition is_string (v : JsValue) : bool :=
  match v with JsString _ => true | JsOther _ _ => false end.

(** The calls of [client.sendMessage] in a log, in order. *)
Definition sent_messages (log : list Effect) : list (string * string) :=
  flat_map (fun e => match e with EMessage a t => [(a, t)] | _ => [] end) log.

(** A transport that refuses one address. *)
Definition refuse (bad : string) (w : nat) (to _ _ : string)
    : (string + string) * nat :=
  if String.eqb to bad then (inr "Mailbox unavailable", S w)
  else (inl ("id-" ++ to)%string, S w).

(** ** Vocabulary of further statements about the session *)

Definition is_watchdog (t : Timer) : bool :=
  match callback t with CbWatchdog => true | CbStartClient => false end.

(** The pending watchdog timers. *)
Definition watchdogs (s : Session) : list Timer :=
  filter is_watchdog (timers s).

(** No watchdog is pending, or exactly one is, it is the one
    [initializationTimeout] holds, and the session is initializing. *)
Definition watchdog_live (s : Session) : Prop :=
  watchdogs s = [] \/
  (clientState s = Initializing /\ isInitializing s = true /\
   exists h, initializationTimeout s = Some h /\
             watchdogs s = [mkTimer h CbWatchdog INITIALIZATION_TIMEOUT]).

(** What holds whenever the state is [Ready]. *)
Definition ready_complete (s : Session) : Prop :=
  clientState s = Ready ->
  (exists i, sessionInfo s = Some i /\ sessionPhone s = Some (wid_user i)) /\
  qrCodeData s = None /\ qrGeneratedTime s = None /\
  isInitializing s = false /\ reconnectAttempts s = 0.

(** The states from which [GET /api/whatsapp/qr] restarts the client. *)
Definition failure_state (c : ClientState) : bool :=
  state_is c Disconnected || state_is c AuthFailure || state_is c Error.

(** A failure state has no initialization in flight. *)
Definition failure_idle (s : Session) : Prop :=
  failure_state (clientState s) = true -> isInitializing s = false.

(** Answers of [POST /api/whatsapp/qr]. *)
Inductive ResetResponse : Type :=
  | QrGenerated          (* 200, { success: true, message: 'QR code generated' } *)
  | QrGenerationFailed.  (* 500, 'Failed to generate QR code' *)

(** Interval between two runs of [checkQR], and its [maxAttempts]. *)
Definition CHECK_QR_INTERVAL : Z := 2000.
Definition CHECK_QR_MAX_ATTEMPTS : nat := 15.

(** The polling of [POST /api/whatsapp/qr]: [checkQR] runs after each
    interval, on the session as the events of that interval ([between])
    left it.  The result carries the number of runs of [checkQR] and the
    session at the answer; [None] when the intervals given run out before
    an answer. *)
Fixpoint checkQR (attempts checks : nat) (between : list (list Event))
    (s : Session) : option (ResetResponse * nat * Session) :=
  match between with
  | [] => None
  | tr :: rest =>
      let s := run tr s in
      if state_is (clientState s) Qr && truthy_string (qrCodeData s)
      then Some (QrGenerated, S checks, s)
      else if Nat.ltb attempts CHECK_QR_MAX_ATTEMPTS
      then checkQR (S attempts) (S checks) rest s
      else Some (QrGenerationFailed, S checks, s)
  end.

(** [POST /api/whatsapp/qr]: teardown, reset and restart, then the
    polling.  [during] are the events that run while [logout] and
    [destroy] are awaited. *)
Definition post_whatsapp_qr (ctor_ok : bool) (during : list Event)
    (between : list (list Event)) (s : Session)
    : option (ResetResponse * nat * Session) :=
  checkQR 0 0 between (reset_restart ctor_ok (run during (reset_teardown s))).

(** The session is in state [Qr] with a payload, as [checkQR] tests it. *)
Definition qr_ready (s : Session) : bool :=
  state_is (clientState s) Qr && truthy_string (qrCodeData s).

(** The sessions the successive runs of [checkQR] would see. *)
Fixpoint sessions_seen (between : list (list Event)) (s : Session)
    : list Session :=
  match between with
  | [] => []
  | tr :: rest => run tr s :: sessions_seen rest (run tr s)
  end.

(** ** The email endpoint *)

(** Answers of [POST /api/send-emails].  The message of the 200 answer is
    built from the two counts. *)
Inductive SendEmailsResponse : Type :=
  | NoAddresses            (* 400, 'No email addresses provided' *)
  | SubjectBodyRequired    (* 400, 'Subject and body are required' *)
  | EmailsCompleted (successCount failedCount : nat)
      (results : list EmailResult).   (* 200 *)

Definition is_success (r : EmailResult) : bool :=
  match r with MailSuccess _ _ => true | MailFailed _ _ => false end.

Definition is_failed (r : EmailResult) : bool :=
  match r with MailSuccess _ _ => false | MailFailed _ _ => true end.

(** [POST /api/send-emails].  [emails] is [None] when the body holds no
    array under that key; [subject] and [body] are [None] when absent.
    The result is [None] when the batch loop does not return. *)
Definition post_send_emails (World : Type)
    (sendMail : World -> string -> string -> string -> (string + string) * World)
    (w : World) (emails : option (list EmailData))
    (subject body : option string)
    : option (SendEmailsResponse * list Effect * World) :=
  match emails with
  | None | Some [] => Some (NoAddresses, [], w)
  | Some es =>
      if negb (truthy_string subject) || negb (truthy_string body)
      then Some (SubjectBodyRequired, [], w)
      else
        match subject, body with
        | Some sj, Some bd =>
            match sendEmailsInBatches World sendMail w es sj bd
                    BATCH_SIZE BATCH_DELAY_MS with
            | Some (results, log, w1) =>
                Some (EmailsCompleted
                        (List.length (filter is_success results))
                        (List.length (filter is_failed results))
                        results, log, w1)
            | None => None
            end
        | _, _ => Some (SubjectBodyRequired, [], w)
        end
  end.

(** A transport that records its calls and answers by the address. *)
Definition recording (answer : string -> string + string)
    (w : list (string * string * string)) (to subject body : string)
    : (string + string) * list (string * string * string) :=
  (answer to, w ++ [(to, subject, body)]).

(** What the contact loop does for one contact: nothing when the guard
    rejects it, a send and a wait for a string, a wait alone otherwise. *)
Definition contact_effects (message : string) (c : Contact) : list Effect :=
  if invalid_phone c then []
  else match phone c with
       | JsString p => [EMessage (chat_address p) message; EDelay CONTACT_DELAY]
       | JsOther _ _ => [EDelay CONTACT_DELAY]
       end.

(** A transport that records the address and the text of each call and
    answers by the address. *)
Definition recording_chat (answer : string -> option string)
    (w : list (string * string)) (address text : string)
    : option string * list (string * string) :=
  (answer address, w ++ [(address, text)]).

(** ** Regular expressions of the spreadsheet helpers *)

(** A character of a [string] is read as a UTF-16 code unit below 256.
    [\s] on such characters: tab, line feed, vertical tab, form feed,
    carriage return, space and no-break space. *)
Definition is_space (c : ascii) : bool :=
  let n := nat_of_ascii c in
  (Nat.leb 9 n && Nat.leb n 13) || Nat.eqb n 32 || Nat.eqb n 160.

Definition is_char (a c : ascii) : bool := Ascii.eqb a c.

(** [[^\s@]] *)
Definition not_space_at (c : ascii) : bool :=
  negb (is_space c) && negb (is_char "@" c).

Inductive regex : Type :=
  | Void                         (* matches nothing *)
  | Eps                          (* the empty string *)
  | Class (p : ascii -> bool)    (* one character of a class *)
  | Cat (r1 r2 : regex)
  | Alt (r1 r2 : regex)
  | Star (r : regex).

(** [r+], [r?], [r{n}], [r{0,n}] and [r{min,max}]. *)
Definition Plus (r : regex) : regex := Cat r (Star r).
Definition Opt (r : regex) : regex := Alt Eps r.

Fixpoint Times (n : nat) (r : regex) : regex :=
  match n with
  | O => Eps
  | S k => Cat r (Times k r)
  end.

Fixpoint UpTo (n : nat) (r : regex) : regex :=
  match n with
  | O => Eps
  | S k => Opt (Cat r (UpTo k r))
  end.

Definition Between (min max : nat) (r : regex) : regex :=
  Cat (Times min r) (UpTo (max - min) r).

Fixpoint nullable (r : regex) : bool :=
  match r with
  | Void => false
  | Eps => true
  | Class _ => false
  | Cat r1 r2 => nullable r1 && nullable r2
  | Alt r1 r2 => nullable r1 || nullable r2
  | Star _ => true
  end.

(** What is left of [r] after the character [c]. *)
Fixpoint deriv (c : ascii) (r : regex) : regex :=
  match r with
  | Void => Void
  | Eps => Void
  | Class p => if p c then Eps else Void
  | Cat r1 r2 =>
      if nullable r1 then Alt (Cat (deriv c r1) r2) (deriv c r2)
      else Cat (deriv c r1) r2
  | Alt r1 r2 => Alt (deriv c r1) (deriv c r2)
  | Star r1 => Cat (deriv c r1) (Star r1)
  end.

(** [/^r$/.test(s)] *)
Fixpoint test (r : regex) (s : string) : bool :=
  match s with
  | EmptyString => nullable r
  | String c rest => test (deriv c r) rest
  end.

(** The strings a regular expression stands for. *)
Inductive lang : regex -> string -> Prop :=
  | LEps : lang Eps ""
  | LClass p c : p c = true -> lang (Class p) (String c "")
  | LCat r1 r2 s1 s2 :
      lang r1 s1 -> lang r2 s2 -> lang (Cat r1 r2) (s1 ++ s2)%string
  | LAltL r1 r2 s : lang r1 s -> lang (Alt r1 r2) s
  | LAltR r1 r2 s : lang r2 s -> lang (Alt r1 r2) s
  | LStarNil r : lang (Star r) ""
  | LStarApp r s1 s2 :
      lang r s1 -> lang (Star r) s2 -> lang (Star r) (s1 ++ s2)%string.

(** [/^[^\s@]+@[^\s@]+\.[^\s@]+$/] *)
Definition emailRegex : regex :=
  Cat (Plus (Class not_space_at))
    (Cat (Class (is_char "@"))
       (Cat (Plus (Class not_space_at))
          (Cat (Class (is_char "."))
             (Plus (Class not_space_at))))).

Definition isValidEmail (email : string) : bool := test emailRegex email.

(** [/^\+?[0-9]{7,15}$/] *)
Definition phoneRegex : regex :=
  Cat (Opt (Class (is_char "+"))) (Between 7 15 (Class is_digit)).

(** [s.replace(/\s+/g, '')] *)
Fixpoint remove_spaces (s : string) : string :=
  match s with
  | EmptyString => EmptyString
  | String c rest =>
      if is_space c then remove_spaces rest else String c (remove_spaces rest)
  end.

Definition isValidPhoneNumber (number : string) : bool :=
  test phoneRegex (remove_spaces number).

(** [String.prototype.trim] *)
Fixpoint trim_start (s : string) : string :=
  match s with
  | EmptyString => EmptyString
  | String c rest => if is_space c then trim_start rest else s
  end.

Fixpoint trim_end (s : string) : string :=
  match s with
  | EmptyString => EmptyString
  | String c rest =>
      match trim_end rest with
      | EmptyString => if is_space c then EmptyString else String c EmptyString
      | kept => String c kept
      end
  end.

Definition js_trim (s : string) : string := trim_end (trim_start s).

(** ** Rows of a sheet *)

(** A cell of [sheet_to_json]: a string, or any other value (a number, a
    boolean, a date).  Of a value that is not a string the code reads only
    its truthiness and the text [String] gives it, so the cell holds these
    two as the runtime yields them: [CellOther true "9876543210"] for the
    number 9876543210, [CellOther false "0"] for zero,
    [CellOther true "12345678901234567000"] for the number nearest to
    12345678901234567168, [CellOther true "0.5"] for one half,
    [CellOther true "true"] for [true]. *)
Inductive Cell : Type :=
  | CellString (s : string)
  | CellOther (truthy : bool) (text : string).

(** A row object: its keys, in the order of [Object.keys], with their
    values. *)
Definition Row : Type := list (string * Cell).

Definition Object_keys (row : Row) : list string := map fst row.

(** [row[key]]; [None] is [undefined]. *)
Fixpoint get (row : Row) (key : string) : option Cell :=
  match row with
  | [] => None
  | (k, v) :: rest => if String.eqb k key then Some v else get rest key
  end.

Definition truthy_cell (v : option Cell) : bool :=
  match v with
  | Some (CellString s) => truthy_string (Some s)
  | Some (CellOther t _) => t
  | None => false
  end.

(** [String(v)] *)
Definition String_of (v : Cell) : string :=
  match v with
  | CellString s => s
  | CellOther _ text => text
  end.

(** The inner [forEach] of [extractEmailsFromExcel] on one row. *)
Definition row_emails (index : nat) (row : Row) : list EmailData :=
  flat_map
    (fun key =>
       match get row key with
       | Some (CellString value) =>
           if isValidEmail value
           then [mkEmailData (js_trim value) (index + 1) key]
           else []
       | _ => []
       end)
    (Object_keys row).

(** [data.forEach((row, index) => ...)] from the given index on. *)
Fixpoint rows_emails (index : nat) (data : list Row) : list EmailData :=
  match data with
  | [] => []
  | row :: rest => row_emails index row ++ rows_emails (S index) rest
  end.

(** [extractEmailsFromExcel]; [sheet] is the outcome of reading the first
    sheet: its rows, or the message of the error thrown, which is thrown
    again behind a prefix. *)
Definition extractEmailsFromExcel (sheet : list Row + string)
    : list EmailData + string :=
  match sheet with
  | inl data => inl (rows_emails 0 data)
  | inr message => inr ("Error reading Excel file: " ++ message)%string
  end.

(** An element of the array [extractCandidatesFromExcel] returns. *)
Record Candidate : Type := mkCandidate {
  cand_name : string;
  cand_phone : string;
  cand_row : nat
}.

(** [row[key] ? String(row[key]).trim() : null] *)
Definition trimmed_field (row : Row) (key : string) : option string :=
  match get row key with
  | Some v => if truthy_cell (Some v) then Some (js_trim (String_of v)) else None
  | None => None
  end.

Definition row_candidate (index : nat) (row : Row) : list Candidate :=
  match trimmed_field row "Candidate Name",
        trimmed_field row "Telephone Number" with
  | Some name, Some phone =>
      if truthy_string (Some name) && truthy_string (Some phone)
         && isValidPhoneNumber phone
      then [mkCandidate name phone (index + 2)]
      else []
  | _, _ => []
  end.

Fixpoint rows_candidates (index : nat) (rows : list Row) : list Candidate :=
  match rows with
  | [] => []
  | row :: rest => row_candidate index row ++ rows_candidates (S index) rest
  end.

Definition extractCandidatesFromExcel (sheet : list Row + string)
    : list Candidate + string :=
  match sheet with
  | inl rows => inl (rows_candidates 0 rows)
  | inr message => inr ("Error reading Excel file: " ++ message)%string
  end.

(** The contact the client sends back for a candidate. *)
Definition contact_of (c : Candidate) : Contact :=
  mkContact (Some (cand_name c)) (JsString (cand_phone c)).

(** Every character passes [p]. *)
Fixpoint all_chars (p : ascii -> bool) (s : string) : bool :=
  match s with
  | EmptyString => true
  | String c rest => p c && all_chars p rest
  end.

(** Number of characters that pass [p]. *)
Fixpoint count_chars (p : ascii -> bool) (s : string) : nat :=
  match s with
  | EmptyString => 0
  | String c rest => (if p c then 1 else 0) + count_chars p rest
  end.

(** A non-empty string without white space and without ['@']. *)
Definition word (u : string) : Prop :=
  u <> "" /\ all_chars not_space_at u = true.

(** No white space at either end. *)
Definition trimmed (s : string) : Prop := js_trim s = s.

(** ** The upload endpoint *)

(** Answers of [POST /api/upload].  The messages of the 200 answers are
    built from the number of items. *)
Inductive UploadResponse : Type :=
  | NoFileUploaded                           (* 400 *)
  | NoValidContacts                          (* 400 *)
  | NoValidEmails                            (* 400 *)
  | FoundContacts (count : nat) (contacts : list Candidate)   (* 200 *)
  | FoundEmails (count : nat) (emails : list EmailData)       (* 200 *)
  | UploadFailed (message : string).         (* 500, error.message *)

(** Calls of [fs.unlinkSync] on the uploaded file. *)
Inductive FsEffect : Type :=
  | Unlink (path : string).

(** [POST /api/upload].  [file] is the path of the upload, if any;
    [extractType] the field of the body, if any; [sheet] what reading the
    file gives; [unlink_error] the message of the error the first
    [unlinkSync] throws, if it throws.  The [unlinkSync] of the [catch]
    block runs when the path is truthy and sits in a [try] of its own. *)
Definition post_upload (file : option string) (extractType : option string)
    (sheet : list Row + string) (unlink_error : option string)
    : UploadResponse * list FsEffect :=
  match file with
  | None => (NoFileUploaded, [])
  | Some path =>
      let kind := match extractType with
                  | Some t => if truthy_string (Some t) then t else "emails"
                  | None => "emails"
                  end in
      let in_catch :=
        if truthy_string (Some path) then [Unlink path] else [] in
      let after_unlink (ok : UploadResponse) :=
        match unlink_error with
        | None => (ok, [Unlink path])
        | Some message => (UploadFailed message, Unlink path :: in_catch)
        end in
      if String.eqb kind "contacts" then
        match extractCandidatesFromExcel sheet with
        | inr message => (UploadFailed message, in_catch)
        | inl [] => after_unlink NoValidContacts
        | inl contacts =>
            after_unlink (FoundContacts (List.length contacts) contacts)
        end
      else
        match extractEmailsFromExcel sheet with
        | inr message => (UploadFailed message, in_catch)
        | inl [] => after_unlink NoValidEmails
        | inl emails => after_unlink (FoundEmails (List.length emails) emails)
        end
  end.

(** ** Vocabulary of the statements about cleared fields and starts *)

(** The states entered only through a handler that clears the identity. *)
Definition identity_free_state (c : ClientState) : bool :=
  match c with
  | Qr | Disconnected | AuthFailure => true
  | _ => false
  end.

(** The states entered only through a handler that clears the QR payload. *)
Definition payload_free_state (c : ClientState) : bool :=
  match c with
  | Ready | Disconnected | AuthFailure => true
  | _ => false
  end.

Definition cleared_states (s : Session) : Prop :=
  (identity_free_state (clientState s) = true ->
   sessionInfo s = None /\ sessionPhone s = None) /\
  (payload_free_state (clientState s) = true ->
   qrCodeData s = None /\ qrGeneratedTime s = None).





(** The clients built so far on which [destroy] was never called. *)
Definition alive (s : Session) : list nat :=
  filter (fun k => negb (existsb (Nat.eqb k) (destroyed s)))
         (seq 0 (constructed s)).


(** The watchdog gives up on the first client and destroys it; a status
    query starts a second client before the restart the watchdog scheduled
    is due; the second client issues its QR code; the restart fires. *)
Definition restart_after_qr_trace : list Event :=
  [ EvTimeout 0 true false;
    EvGetQr 1700000031000 true;
    EvQr "2@k3Tq" 1700000034000;
    EvTimeout 1 true false ].

(** * Properties of the session state machine *)

Lemma state_is_true (a b : ClientState) : state_is a b = true <-> a = b.
Proof.
  unfold state_is. destruct (ClientState_eq_dec a b); split; auto; discriminate.
Qed.

Lemma state_is_refl (a : ClientState) : state_is a a = true.
Proof. apply state_is_true. reflexivity. Qed.

Lemma state_is_false (a b : ClientState) : state_is a b = false <-> a <> b.
Proof.
  unfold state_is. destruct (ClientState_eq_dec a b); split; auto;
    try discriminate; contradiction.
Qed.

(** ** What each handler leaves in the fields *)

Lemma clear_initializationTimeout_fields (s : Session) :
  let s' := clear_initializationTimeout s in
  client s' = client s /\ qrCodeData s' = qrCodeData s /\
  sessionPhone s' = sessionPhone s /\ sessionInfo s' = sessionInfo s /\
  isInitializing s' = isInitializing s /\
  reconnectAttempts s' = reconnectAttempts s /\
  qrGeneratedTime s' = qrGeneratedTime s /\ clientState s' = clientState s /\
  constructed s' = constructed s /\ destroyed s' = destroyed s /\
  nextHandle s' = nextHandle s /\ initializationTimeout s' = None.
Proof.
  unfold clear_initializationTimeout.
  destruct (initializationTimeout s) eqn:E; cbn; auto 20.
Qed.

Ltac handler_fields :=
  intros;
  repeat match goal with
         | |- context [clear_initializationTimeout ?s] =>
             let H := fresh "H" in
             pose proof (clear_initializationTimeout_fields s) as H;
             cbv zeta in H;
             generalize dependent (clear_initializationTimeout s); intros
         end;
  cbn in *; intuition (try congruence).

Lemma on_ready_ok (i : Info) (s : Session) :
  let s' := on_ready (Some i) s in
  clientState s' = Ready /\ sessionInfo s' = Some i /\
  sessionPhone s' = Some (wid_user i) /\ qrCodeData s' = None /\
  qrGeneratedTime s' = None /\ reconnectAttempts s' = 0 /\
  isInitializing s' = false.
Proof. unfold on_ready. handler_fields. Qed.

Lemma on_qr_ok (payload : string) (now : Z) (s : Session) :
  let s' := on_qr payload now s in
  clientState s' = Qr /\ qrCodeData s' = Some payload /\
  qrGeneratedTime s' = Some now /\ sessionInfo s' = None /\
  sessionPhone s' = None /\ reconnectAttempts s' = 0 /\
  isInitializing s' = false.
Proof. unfold on_qr. handler_fields. Qed.

Lemma on_auth_failure_ok (s : Session) :
  let s' := on_auth_failure s in
  clientState s' = AuthFailure /\ qrCodeData s' = None /\
  qrGeneratedTime s' = None /\ sessionInfo s' = None /\
  sessionPhone s' = None /\ isInitializing s' = false /\
  reconnectAttempts s' = reconnectAttempts s.
Proof. unfold on_auth_failure. handler_fields. Qed.

Lemma on_authenticated_ok (s : Session) :
  let s' := on_authenticated s in
  clientState s' = Authenticated /\ qrCodeData s' = qrCodeData s /\
  qrGeneratedTime s' = qrGeneratedTime s /\ sessionInfo s' = sessionInfo s /\
  sessionPhone s' = sessionPhone s /\
  reconnectAttempts s' = reconnectAttempts s.
Proof. unfold on_authenticated. handler_fields. Qed.

Lemma on_error_ok (s : Session) :
  let s' := on_error s in
  clientState s' = Error /\ qrCodeData s' = qrCodeData s /\
  qrGeneratedTime s' = qrGeneratedTime s /\ sessionInfo s' = sessionInfo s /\
  sessionPhone s' = sessionPhone s /\ isInitializing s' = false /\
  reconnectAttempts s' = reconnectAttempts s.
Proof. unfold on_error. handler_fields. Qed.

Lemma on_disconnected_cleared (reason : string) (s : Session) :
  let s' := on_disconnected reason s in
  clientState s' = Disconnected /\ qrCodeData s' = None /\
  qrGeneratedTime s' = None /\ sessionInfo s' = None /\
  sessionPhone s' = None /\ isInitializing s' = false.
Proof.
  unfold on_disconnected.
  destruct (negb (reason =? "NAVIGATION")%string && _); handler_fields.
Qed.

Lemma startClient_keeps (ctor_ok : bool) (s : Session) :
  let s' := startClient ctor_ok s in
  qrCodeData s' = qrCodeData s /\ qrGeneratedTime s' = qrGeneratedTime s /\
  sessionInfo s' = sessionInfo s /\ sessionPhone s' = sessionPhone s /\
  reconnectAttempts s' = reconnectAttempts s /\ destroyed s' = destroyed s.
Proof.
  unfold startClient.
  destruct (isInitializing s) eqn:I; [cbn; auto 10|].
  destruct (state_is (clientState s) Initializing && negb false);
    destruct ctor_ok; cbn; auto 10.
Qed.

Lemma startClient_proceeds (s : Session) :
  isInitializing s = false ->
  let s' := startClient true s in
  clientState s' = Initializing /\ isInitializing s' = true /\
  client s' = Some (constructed s) /\ constructed s' = S (constructed s) /\
  initializationTimeout s' = Some (nextHandle s) /\
  timers s' = timers s ++ [mkTimer (nextHandle s) CbWatchdog INITIALIZATION_TIMEOUT].
Proof.
  intros I. unfold startClient. rewrite I.
  destruct (state_is (clientState s) Initializing && negb false); cbn; auto 10.
Qed.

(** ** Session identity (C1) *)

(** C1.  The claim asks that every transition away from [Ready], the error
    event included, clears the session identity.  The [error] handler sets
    the state and nothing else: after a successful [ready] event followed
    by an [error] event the state is [Error] while [sessionInfo] and
    [sessionPhone] still hold the identity stored by the [ready] handler.
    The sibling handlers [disconnected] and [auth_failure] clear both
    (see [on_disconnected_cleared] and [on_auth_failure_ok]). *)
Theorem error_event_keeps_identity (i : Info) :
  let s := run [EvReady (Some i); EvError] (boot true) in
  clientState s = Error /\ sessionInfo s = Some i /\
  sessionPhone s = Some (wid_user i).
Proof. cbn. auto. Qed.

(** ** Fields that are null outside their states *)

Lemma startClient_cases (ctor_ok : bool) (s : Session) :
  startClient ctor_ok s = s \/
  clientState (startClient ctor_ok s) = Initializing \/
  clientState (startClient ctor_ok s) = Error.
Proof.
  unfold startClient. destruct (isInitializing s); [left; reflexivity|].
  right.
  destruct (state_is (clientState s) Initializing && negb false);
    destruct ctor_ok; cbn; auto.
Qed.

Lemma cleared_states_outside (s : Session) :
  identity_free_state (clientState s) = false ->
  payload_free_state (clientState s) = false ->
  cleared_states s.
Proof.
  intros A B. split; intros H; [rewrite A in H | rewrite B in H];
    discriminate H.
Qed.

Lemma startClient_cleared (ctor_ok : bool) (s : Session) :
  cleared_states s -> cleared_states (startClient ctor_ok s).
Proof.
  intros H.
  destruct (startClient_cases ctor_ok s) as [E|[E|E]];
    [rewrite E; exact H | |];
    apply cleared_states_outside; rewrite E; reflexivity.
Qed.

Lemma step_cleared (e : Event) (s : Session) :
  cleared_states s -> cleared_states (step e s).
Proof.
  intros H. destruct e; cbn [step].
  - pose proof (on_qr_ok payload now s) as P. cbv zeta in P.
    destruct P as [St [_ [_ [I [Ph _]]]]].
    unfold cleared_states. rewrite St. split; [auto | discriminate].
  - pose proof (on_authenticated_ok s) as P. cbv zeta in P.
    destruct P as [St _].
    apply cleared_states_outside; rewrite St; reflexivity.
  - destruct info as [i|].
    + pose proof (on_ready_ok i s) as P. cbv zeta in P.
      destruct P as [St [_ [_ [Q [T _]]]]].
      unfold cleared_states. rewrite St. split; [discriminate | auto].
    + apply cleared_states_outside; reflexivity.
  - pose proof (on_disconnected_cleared reason s) as P. cbv zeta in P.
    destruct P as [St [Q [T [I [Ph _]]]]].
    unfold cleared_states. rewrite St. split; auto.
  - pose proof (on_auth_failure_ok s) as P. cbv zeta in P.
    destruct P as [St [Q [T [I [Ph _]]]]].
    unfold cleared_states. rewrite St. split; auto.
  - apply cleared_states_outside; reflexivity.
  - apply cleared_states_outside; reflexivity.
  - unfold fire. destruct (find_timer h s) as [t|]; [|exact H].
    assert (Hc : cleared_states (clearTimeout h s)) by exact H.
    destruct (callback t); [|apply startClient_cleared; exact Hc].
    unfold watchdog.
    destruct (state_is (clientState (clearTimeout h s)) Initializing);
      [|exact Hc].
    apply cleared_states_outside; cbn; destruct (client s); reflexivity.
  - unfold qr_sweep. destruct (truthy_string (qrCodeData s) && _); [|exact H].
    destruct H as [H1 H2]. split; [exact H1 | intros _; split; reflexivity].
  - unfold get_whatsapp_qr.
    destruct (state_is (clientState s) Qr && _).
    + destruct (qr_expired now s).
      * destruct H as [H1 H2].
        split; [exact H1 | intros _; split; reflexivity].
      * destruct (qrCodeData s); exact H.
    + destruct (state_is (clientState s) Ready); [exact H|].
      destruct (state_is (clientState s) Initializing || _); [exact H|].
      destruct ((_ || _ || _) && _); [|exact H].
      cbn [snd]. apply startClient_cleared. exact H.
  - unfold reset_teardown. destruct (client s); exact H.
  - unfold reset_restart.
    match goal with
    | |- cleared_states (startClient _ ?x) =>
        destruct (startClient_cases ctor_ok x) as [E|[E|E]]
    end;
      [rewrite E | |];
      apply cleared_states_outside;
      try (rewrite E; reflexivity).
    + pose proof (clear_initializationTimeout_fields
                    (set_clientState Initializing
                       (set_isInitializing false
                          (set_sessionInfo None
                             (set_sessionPhone None
                                (set_qrGeneratedTime None
                                   (set_qrCodeData None s))))))) as P.
      cbv zeta in P. destruct P as [_ [_ [_ [_ [_ [_ [_ [P _]]]]]]]].
      rewrite P. reflexivity.
    + pose proof (clear_initializationTimeout_fields
                    (set_clientState Initializing
                       (set_isInitializing false
                          (set_sessionInfo None
                             (set_sessionPhone None
                                (set_qrGeneratedTime None
                                   (set_qrCodeData None s))))))) as P.
      cbv zeta in P. destruct P as [_ [_ [_ [_ [_ [_ [_ [P _]]]]]]]].
      rewrite P. reflexivity.
Qed.

(** In every reachable session the identity is null in the states [Qr],
    [Disconnected] and [AuthFailure], and the QR payload and its timestamp
    are null in the states [Ready], [Disconnected] and [AuthFailure]. *)
Lemma reachable_cleared (s : Session) : reachable s -> cleared_states s.
Proof.
  intros [c [tr ->]].
  assert (B : cleared_states (boot c))
    by (destruct c; apply cleared_states_outside; reflexivity).
  revert B. generalize (boot c). unfold run.
  induction tr as [|e tr IH]; intros s0 B; cbn [fold_left]; [exact B|].
  apply IH. apply step_cleared. exact B.
Qed.

(** ** QR payload and state (C3) *)

(** C3, as stated, fails: after a [qr] event and an [authenticated] event
    the state is [Authenticated] and the payload is still there. *)
Lemma qr_payload_outlives_QRPending :
  ~ (forall s, reachable s -> qrCodeData s <> None -> clientState s = Qr).
Proof.
  intros H.
  specialize (H (run [EvQr "2@k3Tq" 1700000000000; EvAuthenticated] (boot true))).
  assert (R : reachable
            (run [EvQr "2@k3Tq" 1700000000000; EvAuthenticated] (boot true)))
    by (exists true; eexists; reflexivity).
  specialize (H R). cbn in H.
  assert (E : Authenticated = Qr) by (apply H; discriminate).
  discriminate E.
Qed.

(** C3, amended.  In every reachable session whose state is [Ready],
    [Disconnected] or [AuthFailure] the QR payload and its timestamp are
    null.  The [qr] handler stores the payload and enters [Qr]; the
    [authenticated] handler enters [Authenticated] and leaves the payload
    and its timestamp as they are; a [ready] event whose identity is read,
    the [disconnected] and [auth_failure] handlers and the forced reset
    leave the payload null; and [GET /api/whatsapp/qr] serves an image
    only while the state is exactly [Qr]. *)
Theorem qr_payload_lifetime (s : Session) :
  reachable s ->
  (clientState s = Ready \/ clientState s = Disconnected
   \/ clientState s = AuthFailure ->
   qrCodeData s = None /\ qrGeneratedTime s = None) /\
  (forall payload now,
      qrCodeData (on_qr payload now s) = Some payload /\
      clientState (on_qr payload now s) = Qr) /\
  (clientState (on_authenticated s) = Authenticated /\
   qrCodeData (on_authenticated s) = qrCodeData s /\
   qrGeneratedTime (on_authenticated s) = qrGeneratedTime s) /\
  (forall i, clientState (on_ready (Some i) s) = Ready /\
             qrCodeData (on_ready (Some i) s) = None) /\
  (forall reason, qrCodeData (on_disconnected reason s) = None) /\
  qrCodeData (on_auth_failure s) = None /\
  (forall ctor_ok, qrCodeData (reset_restart ctor_ok s) = None) /\
  (forall render now ctor_ok image,
      fst (get_whatsapp_qr render now ctor_ok s) = QrImage image ->
      clientState s = Qr).
Proof.
  intros R. split.
  { intros St. apply (reachable_cleared s R).
    destruct St as [->|[->| ->]]; reflexivity. }
  split.
  { intros payload now.
    pose proof (on_qr_ok payload now s) as H; cbv zeta in H; tauto. }
  split.
  { pose proof (on_authenticated_ok s) as H; cbv zeta in H; tauto. }
  split.
  { intros i. pose proof (on_ready_ok i s) as H; cbv zeta in H; tauto. }
  split.
  { intros reason.
    pose proof (on_disconnected_cleared reason s) as H; cbv zeta in H; tauto. }
  split.
  { pose proof (on_auth_failure_ok s) as H; cbv zeta in H; tauto. }
  split.
  - intros ctor_ok. unfold reset_restart.
    match goal with
    | |- qrCodeData (startClient _ ?x) = _ =>
        pose proof (startClient_keeps ctor_ok x) as K; cbv zeta in K;
        destruct K as [K _]; rewrite K
    end.
    handler_fields.
  - intros render now ctor_ok image.
    unfold get_whatsapp_qr.
    destruct (state_is (clientState s) Qr) eqn:Q.
    + intros _. apply state_is_true. exact Q.
    + cbn [andb].
      destruct (state_is (clientState s) Ready); [discriminate|].
      destruct (state_is (clientState s) Initializing || isInitializing s);
        [discriminate|].
      destruct ((state_is (clientState s) Disconnected
                 || state_is (clientState s) AuthFailure
                 || state_is (clientState s) Error)
                && negb (isInitializing s)); discriminate.
Qed.

Lemma qr_payload_lifetime_witness :
  let s := run [ EvQr "2@k3Tq" 1700000000000; EvAuthenticated;
                 EvReady (Some (mkInfo "919876543210")) ] (boot true) in
  reachable s /\ clientState s = Ready /\
  qrCodeData s = None /\ qrGeneratedTime s = None.
Proof.
  intros s.
  assert (R : reachable s) by (exists true; eexists; reflexivity).
  split; [exact R|]. split; [reflexivity|].
  destruct (qr_payload_lifetime s R) as [H _].
  apply H. left. reflexivity.
Defined.

(** ** Re-entrant start (C4) *)


Lemma startClient_guard (ctor_ok : bool) (s : Session) :
  isInitializing s = true -> startClient ctor_ok s = s.
Proof. intros I. unfold startClient. rewrite I. reflexivity. Qed.

Lemma start_calls_guard (outcomes : list bool) (s : Session) :
  isInitializing s = true -> start_calls outcomes s = s.
Proof.
  intros I. induction outcomes as [|c cs IH]; [reflexivity|].
  unfold start_calls in *. cbn [fold_left].
  rewrite startClient_guard by exact I. exact IH.
Qed.









(** What the trace of the counterexample leaves. *)
Example restart_after_qr_run :
  let before := run (firstn 3 restart_after_qr_trace) (boot true) in
  let s := run restart_after_qr_trace (boot true) in
  clientState before = Qr /\ client before = Some 1 /\
  isInitializing before = false /\
  clientState s = Initializing /\ client s = Some 2 /\
  constructed s = 3 /\ destroyed s = [0] /\ alive s = [1; 2].
Proof. cbn. repeat split; reflexivity. Qed.



(** At module load the label is [Initializing] while nothing is in flight,
    and the first [startClient] goes through. *)
Example startClient_at_load :
  clientState initial = Initializing /\ isInitializing initial = false /\
  constructed (startClient true initial) = 1.
Proof. repeat split. Qed.

(** After a start that built its client, further calls build nothing:
    exactly one client per initialization in flight. *)
Lemma start_calls_build_one (s : Session) (outcomes : list bool) :
  isInitializing s = false ->
  constructed (start_calls (true :: outcomes) s) = S (constructed s).
Proof.
  intros I. unfold start_calls. cbn [fold_left].
  pose proof (startClient_proceeds s I) as P. cbv zeta in P.
  destruct P as [_ [I' [_ [C _]]]].
  pose proof (start_calls_guard outcomes (startClient true s) I') as M.
  unfold start_calls in M. rewrite M. exact C.
Qed.

(** ** Timer handles *)


Lemma fresh_list_filter (n : nat) (f : Timer -> bool) (l : list Timer) :
  fresh_list n l = true -> fresh_list n (filter f l) = true.
Proof.
  unfold fresh_list. induction l as [|t l IH]; cbn; [auto|].
  intros H. apply andb_true_iff in H as [Ht Hl].
  destruct (f t); cbn; [rewrite Ht|]; auto.
Qed.

Lemma fresh_list_push (n : nat) (cb : Callback) (d : Z) (l : list Timer) :
  fresh_list n l = true -> fresh_list (S n) (l ++ [mkTimer n cb d]) = true.
Proof.
  unfold fresh_list. rewrite forallb_app. intros H.
  apply andb_true_iff. split.
  - rewrite forallb_forall in *. intros t Ht. specialize (H t Ht).
    apply Nat.ltb_lt in H. apply Nat.ltb_lt. lia.
  - cbn [forallb handle]. rewrite andb_true_r. apply Nat.ltb_lt. lia.
Qed.

Lemma find_fresh (n : nat) (cb : Callback) (d : Z) (l : list Timer) :
  fresh_list n l = true ->
  find (fun t => Nat.eqb (handle t) n) (l ++ [mkTimer n cb d])
  = Some (mkTimer n cb d).
Proof.
  unfold fresh_list. induction l as [|t l IH]; cbn [forallb app find handle].
  - rewrite Nat.eqb_refl. reflexivity.
  - intros H. apply andb_true_iff in H as [Ht Hl].
    apply Nat.ltb_lt in Ht.
    destruct (Nat.eqb (handle t) n) eqn:E; [|auto].
    apply Nat.eqb_eq in E. lia.
Qed.

Lemma fresh_clearTimeout (h : nat) (s : Session) :
  fresh_handles s = true -> fresh_handles (clearTimeout h s) = true.
Proof. unfold fresh_handles, clearTimeout. cbn. apply fresh_list_filter. Qed.

Lemma fresh_clear_initializationTimeout (s : Session) :
  fresh_handles s = true ->
  fresh_handles (clear_initializationTimeout s) = true.
Proof.
  unfold clear_initializationTimeout.
  destruct (initializationTimeout s); [|auto].
  intros H. apply (fresh_clearTimeout n) in H. exact H.
Qed.

Lemma fresh_setTimeout (cb : Callback) (d : Z) (s : Session) :
  fresh_handles s = true -> fresh_handles (snd (setTimeout cb d s)) = true.
Proof. unfold fresh_handles, setTimeout. cbn. apply fresh_list_push. Qed.

Lemma fresh_startClient (ctor_ok : bool) (s : Session) :
  fresh_handles s = true -> fresh_handles (startClient ctor_ok s) = true.
Proof.
  intros H. unfold startClient.
  destruct (isInitializing s); [exact H|].
  assert (P : fresh_list (S (nextHandle s))
                (timers s ++ [mkTimer (nextHandle s) CbWatchdog INITIALIZATION_TIMEOUT])
              = true) by (apply fresh_list_push; exact H).
  destruct (state_is (clientState s) Initializing && negb false);
    destruct ctor_ok; unfold fresh_handles; cbn -[fresh_list];
    try exact P; apply fresh_list_filter; exact P.
Qed.

Lemma fresh_watchdog (destroy_throws : bool) (s : Session) :
  fresh_handles s = true -> fresh_handles (watchdog destroy_throws s) = true.
Proof.
  intros H. unfold watchdog.
  destruct (state_is (clientState s) Initializing); [|exact H].
  apply fresh_setTimeout. cbn [client set_clientState set_isInitializing].
  destruct (client s); exact H.
Qed.

Lemma fresh_step (e : Event) (s : Session) :
  fresh_handles s = true -> fresh_handles (step e s) = true.
Proof.
  intros H. pose proof (fresh_clear_initializationTimeout s H) as C.
  destruct e; cbn [step].
  - exact C.
  - exact C.
  - unfold on_ready. destruct info; exact C.
  - unfold on_disconnected.
    destruct (negb (reason =? "NAVIGATION")%string && _); [|exact C].
    apply fresh_setTimeout. exact C.
  - exact C.
  - exact C.
  - exact C.
  - unfold fire. destruct (find_timer h s) as [t|]; [|exact H].
    pose proof (fresh_clearTimeout h s H) as F.
    destruct (callback t); [apply fresh_watchdog | apply fresh_startClient];
      exact F.
  - unfold qr_sweep. destruct (truthy_string (qrCodeData s) && _); exact H.
  - unfold get_whatsapp_qr.
    destruct (state_is (clientState s) Qr && _).
    + destruct (qr_expired now s); [exact H|].
      destruct (qrCodeData s); exact H.
    + destruct (state_is (clientState s) Ready); [exact H|].
      destruct (state_is (clientState s) Initializing || _); [exact H|].
      destruct ((_ || _ || _) && _); [|exact H].
      cbn [snd]. apply fresh_startClient. exact H.
  - unfold reset_teardown. destruct (client s); exact H.
  - unfold reset_restart. apply fresh_startClient.
    match goal with
    | |- fresh_handles (clear_initializationTimeout ?x) = true =>
        apply (fresh_clear_initializationTimeout x)
    end.
    exact H.
Qed.

(** Handles stay fresh in every reachable session. *)
Lemma reachable_fresh (s : Session) : reachable s -> fresh_handles s = true.
Proof.
  intros [c [tr ->]].
  assert (B : fresh_handles (boot c) = true) by (destruct c; reflexivity).
  revert B. generalize (boot c). unfold run.
  induction tr as [|e tr IH]; intros s0 B; cbn [fold_left]; [exact B|].
  apply IH. apply fresh_step. exact B.
Qed.

(** ** Initialization watchdog (C9) *)

(** C9.  When the watchdog runs while the state is still [Initializing],
    the state becomes [Error], [destroy] is called on the client if there
    is one, with the same result whether or not that call throws, and
    exactly one timeout running [startClient] is added, with a delay of
    5000 ms, whatever [reconnectAttempts] holds; when that timeout fires
    the session is back in [Initializing] with one more client built.
    When the state is no longer [Initializing] the watchdog changes
    nothing. *)
Theorem watchdog_fires_once (s : Session) (destroy_throws : bool) :
  fresh_handles s = true ->
  (clientState s = Initializing ->
     let s' := watchdog destroy_throws s in
     clientState s' = Error /\ isInitializing s' = false /\
     destroyed s' =
       destroyed s ++ match client s with Some c => [c] | None => [] end /\
     watchdog (negb destroy_throws) s = s' /\
     timers s' = timers s ++ [mkTimer (nextHandle s) CbStartClient 5000] /\
     reconnectAttempts s' = reconnectAttempts s /\
     clientState (fire (nextHandle s) true false s') = Initializing /\
     constructed (fire (nextHandle s) true false s') = S (constructed s)) /\
  (clientState s <> Initializing -> watchdog destroy_throws s = s).
Proof.
  intros F. split.
  - intros I. cbv zeta. unfold watchdog. rewrite I, state_is_refl.
    cbn [client set_clientState set_isInitializing].
    assert (T : forall x, timers x = timers s -> nextHandle x = nextHandle s ->
                find_timer (nextHandle s) (snd (setTimeout CbStartClient RETRY_DELAY x))
                = Some (mkTimer (nextHandle s) CbStartClient RETRY_DELAY)).
    { intros x Tx Nx. unfold find_timer, setTimeout. cbn. rewrite Tx, Nx.
      apply find_fresh. exact F. }
    repeat split.
    + destruct (client s); reflexivity.
    + destruct (client s); reflexivity.
    + destruct (client s); cbn; rewrite ?app_nil_r; reflexivity.
    + destruct (client s); reflexivity.
    + destruct (client s); reflexivity.
    + unfold fire. rewrite T by (destruct (client s); reflexivity).
      cbn [callback].
      match goal with
      | |- clientState (startClient true ?x) = _ =>
          assert (Ix : isInitializing x = false)
            by (destruct (client s); reflexivity);
          pose proof (startClient_proceeds x Ix) as P; cbv zeta in P
      end.
      apply P.
    + unfold fire. rewrite T by (destruct (client s); reflexivity).
      cbn [callback].
      match goal with
      | |- constructed (startClient true ?x) = _ =>
          assert (Ix : isInitializing x = false)
            by (destruct (client s); reflexivity);
          pose proof (startClient_proceeds x Ix) as P; cbv zeta in P
      end.
      destruct P as [_ [_ [_ [P _]]]]. rewrite P.
      destruct (client s); reflexivity.
  - intros N. unfold watchdog. apply state_is_false in N. rewrite N.
    reflexivity.
Qed.

Lemma watchdog_fires_once_witness :
  fresh_handles (boot true) = true /\
  clientState (boot true) = Initializing /\
  clientState (watchdog false (boot true)) = Error /\
  timers (watchdog false (boot true))
  = timers (boot true) ++ [mkTimer 1 CbStartClient 5000] /\
  clientState (on_qr "2@k3Tq" 1700000000000 (boot true)) <> Initializing /\
  watchdog false (on_qr "2@k3Tq" 1700000000000 (boot true))
  = on_qr "2@k3Tq" 1700000000000 (boot true).
Proof.
  pose proof (watchdog_fires_once (boot true) false eq_refl) as [A _].
  specialize (A eq_refl). cbv zeta in A.
  destruct A as [A1 [_ [_ [_ [A5 _]]]]].
  pose proof (watchdog_fires_once (on_qr "2@k3Tq" 1700000000000 (boot true))
                false eq_refl) as [_ B].
  assert (N : clientState (on_qr "2@k3Tq" 1700000000000 (boot true))
              <> Initializing) by (cbn; discriminate).
  split; [reflexivity|]. split; [reflexivity|].
  split; [exact A1|]. split; [exact A5|]. split; [exact N | exact (B N)].
Defined.

(** ** Reconnection attempts (C5) *)


Lemma watchdog_counter (d : bool) (s : Session) :
  reconnectAttempts (watchdog d s) = reconnectAttempts s.
Proof.
  unfold watchdog. destruct (state_is (clientState s) Initializing); [|auto].
  cbn. destruct (client s); reflexivity.
Qed.

Lemma on_disconnected_counter (reason : string) (s : Session) :
  reconnectAttempts (on_disconnected reason s)
  = if negb (String.eqb reason "NAVIGATION") && Nat.ltb (reconnectAttempts s) 5
    then S (reconnectAttempts s) else reconnectAttempts s.
Proof.
  unfold on_disconnected.
  pose proof (clear_initializationTimeout_fields s) as H. cbv zeta in H.
  destruct H as [_ [_ [_ [_ [_ [H _]]]]]].
  cbn [reconnectAttempts set_clientState set_isInitializing set_sessionInfo
       set_sessionPhone set_qrGeneratedTime set_qrCodeData].
  rewrite H. change MAX_RECONNECT_ATTEMPTS with 5.
  destruct (negb (reason =? "NAVIGATION")%string && _); cbn; auto.
Qed.

Lemma step_counter (e : Event) (s : Session) :
  keeps_counter e = true ->
  reconnectAttempts (step e s)
  = if is_retry e && Nat.ltb (reconnectAttempts s) 5
    then S (reconnectAttempts s) else reconnectAttempts s.
Proof.
  intros K. destruct e; cbn [step is_retry andb]; try discriminate K.
  - apply on_authenticated_ok.
  - destruct info; [discriminate K|]. unfold on_ready. handler_fields.
  - apply on_disconnected_counter.
  - apply on_auth_failure_ok.
  - apply on_error_ok.
  - unfold on_initialize_rejected. handler_fields.
  - unfold fire. destruct (find_timer h s) as [t|]; [|reflexivity].
    destruct (callback t).
    + rewrite watchdog_counter. reflexivity.
    + pose proof (startClient_keeps ctor_ok (clearTimeout h s)) as P.
      cbv zeta in P. destruct P as [_ [_ [_ [_ [P _]]]]]. rewrite P. reflexivity.
  - unfold qr_sweep. destruct (truthy_string (qrCodeData s) && _); reflexivity.
  - unfold get_whatsapp_qr.
    destruct (state_is (clientState s) Qr && _).
    + destruct (qr_expired now s); [reflexivity|].
      destruct (qrCodeData s); reflexivity.
    + destruct (state_is (clientState s) Ready); [reflexivity|].
      destruct (state_is (clientState s) Initializing || _); [reflexivity|].
      destruct ((_ || _ || _) && _); [|reflexivity].
      cbn [snd]. apply startClient_keeps.
  - unfold reset_teardown. destruct (client s); reflexivity.
  - unfold reset_restart.
    match goal with
    | |- reconnectAttempts (startClient _ ?x) = _ =>
        pose proof (startClient_keeps ctor_ok x) as P; cbv zeta in P;
        destruct P as [_ [_ [_ [_ [P _]]]]]; rewrite P
    end.
    handler_fields.
Qed.

Lemma step_bounded (e : Event) (s : Session) :
  reconnectAttempts s <= 5 -> reconnectAttempts (step e s) <= 5.
Proof.
  intros B. destruct (keeps_counter e) eqn:K.
  - rewrite (step_counter e s K).
    destruct (is_retry e); cbn [andb]; [|exact B].
    destruct (Nat.ltb (reconnectAttempts s) 5) eqn:L; [|exact B].
    apply Nat.ltb_lt in L. lia.
  - destruct e; try discriminate K; cbn [step].
    + pose proof (on_qr_ok payload now s) as H. cbv zeta in H.
      destruct H as [_ [_ [_ [_ [_ [H _]]]]]]. rewrite H. lia.
    + destruct info as [i|]; [|discriminate K].
      pose proof (on_ready_ok i s) as H. cbv zeta in H.
      destruct H as [_ [_ [_ [_ [_ [H _]]]]]]. rewrite H. lia.
Qed.

Lemma run_bounded (tr : list Event) (s : Session) :
  reconnectAttempts s <= 5 -> reconnectAttempts (run tr s) <= 5.
Proof.
  revert s. unfold run.
  induction tr as [|e tr IH]; intros s B; cbn [fold_left]; [exact B|].
  apply IH. apply step_bounded. exact B.
Qed.

Lemma reachable_bounded (s : Session) :
  reachable s -> reconnectAttempts s <= 5.
Proof.
  intros [c [tr ->]]. apply run_bounded. destruct c; cbn; lia.
Qed.

Lemma run_counter (tr : list Event) (s : Session) :
  reconnectAttempts s <= 5 ->
  forallb keeps_counter tr = true ->
  reconnectAttempts (run tr s) = Nat.min 5 (reconnectAttempts s + retries tr).
Proof.
  revert s. unfold run, retries.
  induction tr as [|e tr IH]; intros s B K; cbn [fold_left filter forallb] in *.
  - cbn [List.length]. lia.
  - apply andb_true_iff in K as [Ke Ktr].
    rewrite (IH (step e s) (step_bounded e s B) Ktr).
    rewrite (step_counter e s Ke).
    destruct (is_retry e); cbn [andb List.length].
    + destruct (Nat.ltb (reconnectAttempts s) 5) eqn:L.
      * apply Nat.ltb_lt in L. lia.
      * apply Nat.ltb_ge in L. lia.
    + reflexivity.
Qed.


(** C5, as stated, fails: a [qr] event resets the counter as well, so a
    sixth disconnection with no [Ready] in between does schedule a retry
    when a QR code was issued after the fifth. *)
Lemma sixth_disconnect_retries_after_qr :
  ~ (forall tr reason,
        forallb (fun e => negb (reaches_ready e)) tr = true ->
        5 <= retries tr ->
        let s := run tr (boot true) in
        clientState (on_disconnected reason s) = Disconnected /\
        timers (on_disconnected reason s)
        = timers (clear_initializationTimeout s)).
Proof.
  intros H.
  specialize (H five_disconnects_then_qr "CONFLICT" eq_refl).
  assert (R : 5 <= retries five_disconnects_then_qr) by (cbn; lia).
  specialize (H R). cbv zeta in H. destruct H as [_ H].
  vm_compute in H. discriminate H.
Qed.

(** C5, amended.  In every reachable session [reconnectAttempts] is at
    most 5.  Along events among which there is neither a successful
    [ready] nor a [qr], the counter is the smaller of 5 and its old value
    plus the number of disconnections that were not manual logouts.  A
    disconnection that is not a manual logout, with the counter below 5,
    adds one to it and schedules one [startClient] after 5000 ms; once
    five such disconnections have been counted with no [ready] and no [qr]
    in between, a further one leaves the state [Disconnected], the counter
    at 5 and schedules nothing.  A successful [ready] and a [qr] event both
    reset the counter to 0. *)
Theorem reconnect_attempts_capped
    (s : Session) (tr : list Event) (reason : string)
    (i : Info) (payload : string) (now : Z) :
  reachable s ->
  forallb keeps_counter tr = true ->
  let s1 := run tr s in
  let s2 := on_disconnected reason s1 in
  reconnectAttempts s1 <= 5 /\
  reconnectAttempts s1 = Nat.min 5 (reconnectAttempts s + retries tr) /\
  clientState s2 = Disconnected /\
  (reason <> "NAVIGATION" -> reconnectAttempts s1 < 5 ->
     reconnectAttempts s2 = S (reconnectAttempts s1) /\
     timers s2 = timers (clear_initializationTimeout s1)
                 ++ [mkTimer (nextHandle s1) CbStartClient 5000]) /\
  (5 <= retries tr ->
     reconnectAttempts s2 = 5 /\
     timers s2 = timers (clear_initializationTimeout s1)) /\
  reconnectAttempts (on_ready (Some i) s1) = 0 /\
  reconnectAttempts (on_qr payload now s1) = 0.
Proof.
  intros R K s1 s2.
  pose proof (reachable_bounded s R) as B.
  pose proof (run_bounded tr s B) as B1. fold s1 in B1.
  pose proof (run_counter tr s B K) as C. fold s1 in C.
  pose proof (clear_initializationTimeout_fields s1) as F. cbv zeta in F.
  destruct F as [_ [_ [_ [_ [_ [Fa [_ [_ [_ [_ [Fn _]]]]]]]]]]].
  split; [exact B1|]. split; [exact C|].
  split; [apply on_disconnected_cleared|].
  split; [|split; [|split; [apply on_ready_ok | apply on_qr_ok]]].
  - intros NR L. subst s2. unfold on_disconnected.
    cbn [reconnectAttempts set_clientState set_isInitializing set_sessionInfo
         set_sessionPhone set_qrGeneratedTime set_qrCodeData].
    rewrite Fa.
    assert (E : (reason =? "NAVIGATION")%string = false)
      by (apply String.eqb_neq; exact NR).
    rewrite E. apply Nat.ltb_lt in L.
    change MAX_RECONNECT_ATTEMPTS with 5. rewrite L.
    cbn. rewrite Fn. auto.
  - intros L. assert (A : reconnectAttempts s1 = 5) by lia.
    subst s2. unfold on_disconnected.
    cbn [reconnectAttempts set_clientState set_isInitializing set_sessionInfo
         set_sessionPhone set_qrGeneratedTime set_qrCodeData].
    rewrite Fa, A. change MAX_RECONNECT_ATTEMPTS with 5.
    rewrite andb_false_r. cbn. split; [congruence | reflexivity].
Qed.

Lemma reconnect_attempts_capped_witness :
  let tr := [ EvDisconnected "CONFLICT"; EvTimeout 1 true false;
              EvDisconnected "CONFLICT"; EvTimeout 3 true false;
              EvDisconnected "CONFLICT"; EvTimeout 5 true false;
              EvDisconnected "CONFLICT"; EvTimeout 7 true false;
              EvDisconnected "CONFLICT"; EvTimeout 9 true false ] in
  let s1 := run tr (boot true) in
  reconnectAttempts s1 = 5 /\
  clientState (on_disconnected "CONFLICT" s1) = Disconnected /\
  timers (on_disconnected "CONFLICT" s1) = [].
Proof.
  intros tr s1.
  assert (R : reachable (boot true)) by (exists true, []; reflexivity).
  pose proof (reconnect_attempts_capped (boot true) tr "CONFLICT"
                (mkInfo "919876543210") "2@k3Tq" 1700000000000 R eq_refl) as H.
  cbv zeta in H. destruct H as [_ [C [D [_ [L _]]]]].
  assert (G : 5 <= retries tr) by (cbn; lia).
  destruct (L G) as [_ T].
  split; [exact C|]. split; [exact D|].
  subst s1. rewrite T. reflexivity.
Defined.

(** ** QR expiry (C6) *)


Lemma startClient_paired (ctor_ok : bool) (s : Session) :
  qr_paired s -> qr_paired (startClient ctor_ok s).
Proof.
  unfold qr_paired. pose proof (startClient_keeps ctor_ok s) as P.
  cbv zeta in P. destruct P as [P1 [P2 _]]. rewrite P1, P2. auto.
Qed.

Lemma step_paired (e : Event) (s : Session) :
  qr_paired s -> qr_paired (step e s).
Proof.
  intros H. destruct e; cbn [step].
  - unfold qr_paired, on_qr. cbn. split; discriminate.
  - unfold qr_paired in *. pose proof (on_authenticated_ok s) as P.
    cbv zeta in P. destruct P as [_ [P1 [P2 _]]]. rewrite P1, P2. exact H.
  - destruct info as [i|].
    + unfold qr_paired. pose proof (on_ready_ok i s) as P. cbv zeta in P.
      destruct P as [_ [_ [_ [P1 [P2 _]]]]]. rewrite P1, P2. tauto.
    + unfold qr_paired in *. unfold on_ready.
      pose proof (clear_initializationTimeout_fields s) as P. cbv zeta in P.
      destruct P as [_ [P1 [_ [_ [_ [_ [P2 _]]]]]]]. cbn. rewrite P1, P2.
      exact H.
  - unfold qr_paired. pose proof (on_disconnected_cleared reason s) as P.
    cbv zeta in P. destruct P as [_ [P1 [P2 _]]]. rewrite P1, P2. tauto.
  - unfold qr_paired. pose proof (on_auth_failure_ok s) as P.
    cbv zeta in P. destruct P as [_ [P1 [P2 _]]]. rewrite P1, P2. tauto.
  - unfold qr_paired in *. pose proof (on_error_ok s) as P.
    cbv zeta in P. destruct P as [_ [P1 [P2 _]]]. rewrite P1, P2. exact H.
  - unfold qr_paired in *. pose proof (on_error_ok s) as P.
    cbv zeta in P. destruct P as [_ [P1 [P2 _]]].
    unfold on_initialize_rejected. unfold on_error in P1, P2.
    rewrite P1, P2. exact H.
  - unfold fire. destruct (find_timer h s) as [t|]; [|exact H].
    assert (Hc : qr_paired (clearTimeout h s)) by exact H.
    destruct (callback t); [|apply startClient_paired; exact Hc].
    unfold watchdog.
    destruct (state_is (clientState (clearTimeout h s)) Initializing);
      [|exact Hc].
    unfold qr_paired in *. cbn in *. destruct (client s); exact Hc.
  - unfold qr_sweep. destruct (truthy_string (qrCodeData s) && _); [|exact H].
    unfold qr_paired. cbn. tauto.
  - unfold get_whatsapp_qr.
    destruct (state_is (clientState s) Qr && _).
    + destruct (qr_expired now s); [unfold qr_paired; cbn; tauto|].
      destruct (qrCodeData s); exact H.
    + destruct (state_is (clientState s) Ready); [exact H|].
      destruct (state_is (clientState s) Initializing || _); [exact H|].
      destruct ((_ || _ || _) && _); [|exact H].
      cbn [snd]. apply startClient_paired. exact H.
  - unfold reset_teardown. destruct (client s); exact H.
  - unfold reset_restart. apply startClient_paired.
    unfold qr_paired.
    match goal with
    | |- context [clear_initializationTimeout ?x] =>
        pose proof (clear_initializationTimeout_fields x) as P; cbv zeta in P;
        destruct P as [_ [P1 [_ [_ [_ [_ [P2 _]]]]]]]; rewrite P1, P2
    end.
    cbn. tauto.
Qed.

(** In every reachable session a stored payload has its timestamp. *)
Lemma reachable_paired (s : Session) : reachable s -> qr_paired s.
Proof.
  intros [c [tr ->]].
  assert (B : qr_paired (boot c)) by (destruct c; unfold qr_paired; cbn; tauto).
  revert B. generalize (boot c). unfold run.
  induction tr as [|e tr IH]; intros s0 B; cbn [fold_left]; [exact B|].
  apply IH. apply step_paired. exact B.
Qed.

(** C6.  Take a payload stamped at [t] (a reading of [Date.now()], hence
    not 0) and a time [now] more than 60000 ms later.  Then
    [GET /api/whatsapp/qr] never answers with the QR image: in state [Qr]
    with a payload it answers 'QR code expired' and clears the payload and
    its timestamp in place.  The sweep, which runs every 10000 ms without
    any request, clears that payload as well. *)
Theorem expired_qr_never_served
    (render : string -> option string) (now : Z) (ctor_ok : bool)
    (s : Session) (t : Z) :
  qrGeneratedTime s = Some t -> t <> 0%Z -> (60000 < now - t)%Z ->
  (forall image, fst (get_whatsapp_qr render now ctor_ok s) <> QrImage image) /\
  (clientState s = Qr -> truthy_string (qrCodeData s) = true ->
     fst (get_whatsapp_qr render now ctor_ok s) = QrExpired /\
     qrCodeData (snd (get_whatsapp_qr render now ctor_ok s)) = None /\
     qrGeneratedTime (snd (get_whatsapp_qr render now ctor_ok s)) = None) /\
  (truthy_string (qrCodeData s) = true ->
     qrCodeData (qr_sweep now s) = None /\
     qrGeneratedTime (qr_sweep now s) = None) /\
  QR_SWEEP_INTERVAL = 10000%Z.
Proof.
  intros T NZ Old.
  assert (X : qr_expired now s = true).
  { unfold qr_expired. rewrite T. cbn [truthy_number].
    apply Z.eqb_neq in NZ. rewrite NZ. cbn [negb andb].
    apply Z.ltb_lt. exact Old. }
  split; [|split; [|split; [|reflexivity]]].
  - intros image. unfold get_whatsapp_qr. rewrite X.
    destruct (state_is (clientState s) Qr && truthy_string (qrCodeData s));
      [discriminate|].
    destruct (state_is (clientState s) Ready); [discriminate|].
    destruct (state_is (clientState s) Initializing || isInitializing s);
      [discriminate|].
    destruct ((state_is (clientState s) Disconnected
               || state_is (clientState s) AuthFailure
               || state_is (clientState s) Error)
              && negb (isInitializing s)); discriminate.
  - intros Q P. unfold get_whatsapp_qr.
    rewrite Q, state_is_refl, P, X. cbn. auto.
  - intros P. unfold qr_sweep. rewrite P, X. cbn. auto.
Qed.

Lemma expired_qr_never_served_witness :
  let s := on_qr "2@k3Tq" 1700000000000 (boot true) in
  fst (get_whatsapp_qr (fun p => Some p) 1700000060001 true s) = QrExpired /\
  qrCodeData (qr_sweep 1700000060001 s) = None.
Proof.
  intros s.
  assert (T : qrGeneratedTime s = Some 1700000000000%Z) by reflexivity.
  assert (NZ : 1700000000000%Z <> 0%Z) by discriminate.
  assert (Old : (60000 < 1700000060001 - 1700000000000)%Z) by reflexivity.
  pose proof (expired_qr_never_served (fun p => Some p) 1700000060001 true
                s 1700000000000 T NZ Old) as [_ [A [B _]]].
  split; [apply A; reflexivity | apply B; reflexivity].
Defined.

(** At exactly 60000 ms the payload is still served; one millisecond later
    it is not. *)
Example qr_expiry_boundary :
  let s := on_qr "2@k3Tq" 1700000000000 (boot true) in
  fst (get_whatsapp_qr (fun p => Some p) 1700000060000 true s)
  = QrImage "2@k3Tq" /\
  fst (get_whatsapp_qr (fun p => Some p) 1700000060001 true s) = QrExpired.
Proof. split; reflexivity. Qed.

(** * Properties of the bulk senders *)

(** ** Session guard of the WhatsApp send (C2) *)


(** C2, as stated, fails: the guard reads [client] and [sessionInfo], not
    [clientState].  After [stale_retry_trace] the state is [Initializing]
    while the identity of the last [ready] event is still stored, and a
    send request is carried out. *)
Lemma send_accepted_outside_ready :
  ~ (forall s contacts message,
        reachable s -> clientState s <> Ready ->
        post_whatsapp_send unit (fun w _ _ => (None, w)) (fun m => m)
          s tt contacts message
        = (NoSession, [], tt)).
Proof.
  intros H.
  specialize (H (run stale_retry_trace (boot true))
                (Some [mkContact (Some "Asha") (JsString "9876543210")])
                (Some "Hello")).
  assert (R : reachable (run stale_retry_trace (boot true)))
    by (exists true, stale_retry_trace; reflexivity).
  assert (N : clientState (run stale_retry_trace (boot true)) <> Ready)
    by (cbn; discriminate).
  specialize (H R N). vm_compute in H. discriminate H.
Qed.

(** What the request of the counterexample does. *)
Example stale_retry_send_run :
  clientState (run stale_retry_trace (boot true)) = Initializing /\
  post_whatsapp_send unit (fun w _ _ => (None, w)) (fun m => m)
    (run stale_retry_trace (boot true)) tt
    (Some [mkContact (Some "Asha") (JsString "9876543210")]) (Some "Hello")
  = (SendComplete
       [mkContactResult (mkContact (Some "Asha") (JsString "9876543210")) true None],
     [EMessage "919876543210@c.us" "Hello"; EDelay 10000], tt).
Proof. split; reflexivity. Qed.

(** The same happens after a [ready] event followed by an [error] event:
    the state is [Error], the identity is still stored and the request is
    carried out. *)
Example error_after_ready_send_run :
  let s := run [EvReady (Some (mkInfo "919876543210")); EvError] (boot true) in
  clientState s = Error /\
  post_whatsapp_send unit (fun w _ _ => (None, w)) (fun m => m) s tt
    (Some [mkContact (Some "Asha") (JsString "9876543210")]) (Some "Hello")
  = (SendComplete
       [mkContactResult (mkContact (Some "Asha") (JsString "9876543210")) true None],
     [EMessage "919876543210@c.us" "Hello"; EDelay 10000], tt).
Proof. split; reflexivity. Qed.

Lemma post_whatsapp_send_no_identity
    (World : Type) (sendMessage : World -> string -> string -> option string * World)
    (trim : string -> string) (s : Session) (w : World)
    (contacts : option (list Contact)) (message : option string) :
  client s = None \/ sessionInfo s = None ->
  post_whatsapp_send World sendMessage trim s w contacts message
  = (NoSession, [], w).
Proof.
  intros [H|H]; unfold post_whatsapp_send; rewrite H; cbn.
  - reflexivity.
  - rewrite orb_true_r. reflexivity.
Qed.


(** The guard lets a request through exactly when both are present. *)
Lemma send_guard_iff
    (World : Type) (sendMessage : World -> string -> string -> option string * World)
    (trim : string -> string) (s : Session) (w : World)
    (contacts : option (list Contact)) (message : option string) :
  fst (fst (post_whatsapp_send World sendMessage trim s w contacts message))
  = NoSession
  <-> client s = None \/ sessionInfo s = None.
Proof.
  split.
  - unfold post_whatsapp_send.
    destruct (client s); [|auto]. destruct (sessionInfo s); [|auto].
    cbn [truthy_object negb orb].
    destruct contacts as [[|c cs]|]; try discriminate.
    destruct message as [m|]; try discriminate.
    destruct (send_contacts World sendMessage w (c :: cs) m) as [[r l] w1].
    destruct (negb (truthy_string (Some m)) || (trim m =? "")%string);
      discriminate.
  - intros H. rewrite post_whatsapp_send_no_identity by exact H. reflexivity.
Qed.

(** After a [qr], [disconnected] or [auth_failure] event, and after a
    forced reset, a send request is rejected. *)
Lemma send_rejected_after_clear
    (World : Type) (sendMessage : World -> string -> string -> option string * World)
    (trim : string -> string) (s : Session) (w : World)
    (contacts : option (list Contact)) (message : option string) :
  (forall payload now,
      post_whatsapp_send World sendMessage trim (on_qr payload now s) w
        contacts message = (NoSession, [], w)) /\
  (forall reason,
      post_whatsapp_send World sendMessage trim (on_disconnected reason s) w
        contacts message = (NoSession, [], w)) /\
  post_whatsapp_send World sendMessage trim (on_auth_failure s) w
    contacts message = (NoSession, [], w).
Proof.
  split; [|split]; intros; apply post_whatsapp_send_no_identity; right.
  - apply on_qr_ok.
  - apply on_disconnected_cleared.
  - apply on_auth_failure_ok.
Qed.

(** C2, amended.  In every reachable session whose state is [Qr],
    [Disconnected] or [AuthFailure] the send is rejected with 'No WhatsApp
    session' and no message is sent: these states are entered only
    through handlers that clear the identity, and nothing stores one
    without leaving them.  In whatever state, the request is rejected in
    this way exactly when there is no client object or no stored session
    identity, which is what the guard reads. *)
Theorem send_rejected_without_session
    (World : Type) (sendMessage : World -> string -> string -> option string * World)
    (trim : string -> string) (s : Session) (w : World)
    (contacts : option (list Contact)) (message : option string) :
  reachable s ->
  (clientState s = Qr \/ clientState s = Disconnected
   \/ clientState s = AuthFailure ->
   post_whatsapp_send World sendMessage trim s w contacts message
   = (NoSession, [], w)) /\
  (client s = None \/ sessionInfo s = None ->
   post_whatsapp_send World sendMessage trim s w contacts message
   = (NoSession, [], w)) /\
  (fst (fst (post_whatsapp_send World sendMessage trim s w contacts message))
   = NoSession ->
   client s = None \/ sessionInfo s = None).
Proof.
  intros R. split; [|split].
  - intros St. apply post_whatsapp_send_no_identity. right.
    apply (reachable_cleared s R).
    destruct St as [->|[->| ->]]; reflexivity.
  - apply post_whatsapp_send_no_identity.
  - apply send_guard_iff.
Qed.

Lemma send_rejected_without_session_witness :
  let s := run [ EvReady (Some (mkInfo "919876543210"));
                 EvDisconnected "CONFLICT" ] (boot true) in
  reachable s /\ clientState s = Disconnected /\
  post_whatsapp_send unit (fun w _ _ => (None, w)) (fun m => m) s tt
    (Some [mkContact (Some "Asha") (JsString "9876543210")]) (Some "Hello")
  = (NoSession, [], tt).
Proof.
  intros s.
  assert (R : reachable s) by (exists true; eexists; reflexivity).
  split; [exact R|]. split; [reflexivity|].
  destruct (send_rejected_without_session unit (fun w _ _ => (None, w))
              (fun m => m) s tt
              (Some [mkContact (Some "Asha") (JsString "9876543210")])
              (Some "Hello") R) as [H _].
  apply H. right. left. reflexivity.
Defined.

(** ** Contiguous batches *)

Section Chunks.

Context {A : Type}.


Lemma skipn_shorter (size : nat) (x : A) (l : list A) :
  1 <= size -> List.length (skipn size (x :: l)) <= List.length l.
Proof.
  intros H. rewrite length_skipn. cbn [List.length]. lia.
Qed.

Lemma chunks_aux_fuel (size : nat) :
  1 <= size ->
  forall f1 f2 (l : list A),
    List.length l <= f1 -> List.length l <= f2 ->
    chunks_aux f1 size l = chunks_aux f2 size l.
Proof.
  intros S1. induction f1 as [|f1 IH]; intros f2 l H1 H2.
  - destruct l; [|cbn in H1; lia]. destruct f2; reflexivity.
  - destruct l as [|x l]; [destruct f2; reflexivity|].
    destruct f2 as [|f2]; [cbn in H2; lia|].
    cbn [chunks_aux]. f_equal.
    pose proof (skipn_shorter size x l S1) as K.
    cbn [List.length] in H1, H2. apply IH; lia.
Qed.

Lemma chunks_cons (size : nat) (x : A) (l : list A) :
  1 <= size ->
  chunks size (x :: l)
  = firstn size (x :: l) :: chunks size (skipn size (x :: l)).
Proof.
  intros S1. unfold chunks. cbn [List.length chunks_aux]. f_equal.
  pose proof (skipn_shorter size x l S1) as K.
  apply chunks_aux_fuel; [exact S1 | exact K | lia].
Qed.

Lemma chunks_nil (size : nat) : chunks size (@nil A) = [].
Proof. reflexivity. Qed.

(** The pieces, put back together, are the list. *)
Lemma concat_chunks (size : nat) :
  1 <= size -> forall l : list A, List.concat (chunks size l) = l.
Proof.
  intros S1 l.
  remember (List.length l) as n eqn:N.
  revert l N. induction n as [n IH] using lt_wf_ind. intros l N.
  destruct l as [|x l]; [reflexivity|].
  rewrite chunks_cons by exact S1. cbn [List.concat].
  rewrite (IH (List.length (skipn size (x :: l)))).
  - apply firstn_skipn.
  - pose proof (skipn_shorter size x l S1). subst n. cbn [List.length]. lia.
  - reflexivity.
Qed.

End Chunks.


Lemma chunks_aux_sizes {A : Type} (size fuel : nat) (l : list A) :
  map (@List.length A) (chunks_aux fuel size l)
  = chunk_sizes fuel size (List.length l).
Proof.
  revert l. induction fuel as [|fuel IH]; intros l; [reflexivity|].
  destruct l as [|x l]; [reflexivity|].
  cbn [chunks_aux map chunk_sizes].
  replace (Nat.eqb (List.length (x :: l)) 0) with false by reflexivity.
  rewrite IH, length_firstn, length_skipn. reflexivity.
Qed.

Lemma chunks_sizes {A : Type} (size : nat) (l : list A) :
  map (@List.length A) (chunks size l)
  = chunk_sizes (List.length l) size (List.length l).
Proof. apply chunks_aux_sizes. Qed.

(** ** The batch loop *)

Section BatchLoop.

Variable World : Type.
Variable sendMail : World -> string -> string -> string -> (string + string) * World.
Variables subject body : string.

Let send := fun w l => sendEmails World sendMail w l subject body.


Lemma sendEmails_app (l1 l2 : list EmailData) (w : World) :
  send w (l1 ++ l2)
  = (fst (send w l1) ++ fst (send (snd (send w l1)) l2),
     snd (send (snd (send w l1)) l2)).
Proof.
  unfold send. revert w. induction l1 as [|e l1 IH]; intros w.
  - cbn. destruct (sendEmails World sendMail w l2 subject body); reflexivity.
  - cbn [app sendEmails].
    destruct (sendMail w (email e) subject body) as [outcome w1].
    rewrite IH.
    destruct (sendEmails World sendMail w1 l1 subject body) as [r1 w2].
    reflexivity.
Qed.

(** One result per recipient, for the same address, in the same order. *)
Lemma sendEmails_addresses (l : list EmailData) (w : World) :
  map result_email (fst (send w l)) = map email l.
Proof.
  unfold send. revert w. induction l as [|e l IH]; intros w; [reflexivity|].
  cbn [sendEmails].
  destruct (sendMail w (email e) subject body) as [outcome w1].
  specialize (IH w1).
  destruct (sendEmails World sendMail w1 l subject body) as [r w2].
  cbn [fst map] in *. rewrite IH. destruct outcome; reflexivity.
Qed.

Lemma batches_loop_spec (emails : list EmailData) (batchSize : nat) (delayMs : Z) :
  1 <= batchSize ->
  forall fuel i allResults log w,
    List.length emails - i < fuel ->
    batches_loop World sendMail fuel emails subject body batchSize delayMs
      i allResults log w
    = Some (allResults ++ fst (send w (skipn i emails)),
            log ++ intersperse (EDelay delayMs)
                     (map batch_effect (chunks batchSize (skipn i emails))),
            snd (send w (skipn i emails))).
Proof.
  intros S1. induction fuel as [|fuel IH]; intros i allResults log w F;
    [lia|].
  cbn [batches_loop].
  destruct (Nat.ltb i (List.length emails)) eqn:L.
  - apply Nat.ltb_lt in L.
    unfold slice. replace (i + batchSize - i) with batchSize by lia.
    assert (Sk : skipn (i + batchSize) emails
                 = skipn batchSize (skipn i emails))
      by (rewrite skipn_skipn; f_equal; lia).
    destruct (skipn i emails) as [|x rest] eqn:E.
    { apply (f_equal (@List.length EmailData)) in E.
      rewrite length_skipn in E. cbn in E. lia. }
    pose proof (sendEmails_app (firstn batchSize (x :: rest))
                  (skipn batchSize (x :: rest)) w) as App.
    rewrite firstn_skipn in App. rewrite App. clear App.
    fold (send w (firstn batchSize (x :: rest))).
    destruct (send w (firstn batchSize (x :: rest))) as [r1 w1].
    cbn [fst snd].
    rewrite IH by lia. rewrite Sk.
    rewrite chunks_cons by exact S1. cbn [map].
    rewrite <- (app_assoc allResults).
    fold (batch_effect (firstn batchSize (x :: rest))).
    destruct (Nat.ltb (i + batchSize) (List.length emails)) eqn:D.
    + apply Nat.ltb_lt in D.
      destruct (skipn batchSize (x :: rest)) as [|y rest'] eqn:E2.
      { apply (f_equal (@List.length EmailData)) in Sk.
        rewrite length_skipn in Sk. cbn in Sk. lia. }
      rewrite chunks_cons by exact S1. cbn [map intersperse].
      rewrite <- !app_assoc. reflexivity.
    + apply Nat.ltb_ge in D.
      assert (E2 : skipn batchSize (x :: rest) = []).
      { rewrite <- Sk. apply skipn_all2. exact D. }
      rewrite E2, chunks_nil. cbn [map intersperse].
      rewrite <- app_assoc. reflexivity.
  - apply Nat.ltb_ge in L.
    rewrite (skipn_all2 emails L), chunks_nil. cbn.
    rewrite !app_nil_r. reflexivity.
Qed.

(** With a batch size of at least one [sendEmailsInBatches] returns: the
    results are those of one [sendEmails] over the whole list, and the
    log is the batches with one delay between any two of them. *)
Lemma sendEmailsInBatches_spec (emails : list EmailData) (batchSize : nat)
    (delayMs : Z) (w : World) :
  1 <= batchSize ->
  sendEmailsInBatches World sendMail w emails subject body batchSize delayMs
  = Some (fst (send w emails),
          intersperse (EDelay delayMs)
            (map batch_effect (chunks batchSize emails)),
          snd (send w emails)).
Proof.
  intros S1. unfold sendEmailsInBatches.
  rewrite batches_loop_spec by (try exact S1; lia).
  reflexivity.
Qed.

End BatchLoop.

(** ** Shape of the batches (C7) *)

Lemma chunks_empty_inv {A : Type} (size : nat) (l : list A) :
  1 <= size -> chunks size l = [] -> l = [].
Proof.
  intros S1 H. destruct l as [|x l]; [reflexivity|].
  rewrite chunks_cons in H by exact S1. discriminate H.
Qed.

Lemma chunks_single {A : Type} (size : nat) (l : list A) :
  l <> [] -> List.length l <= size -> chunks size l = [l].
Proof.
  intros N L. destruct l as [|x l]; [contradiction|].
  assert (S1 : 1 <= size) by (cbn in L; lia).
  rewrite chunks_cons by exact S1.
  rewrite (firstn_all2 (x :: l)) by exact L.
  rewrite (skipn_all2 (x :: l)) by exact L.
  reflexivity.
Qed.

(** Every piece but the last is full; the last is not empty. *)
Lemma chunks_full {A : Type} (size : nat) :
  1 <= size ->
  forall (l : list A) (pre : list (list A)) (final : list A),
    chunks size l = pre ++ [final] ->
    Forall (fun b => List.length b = size) pre /\
    1 <= List.length final <= size.
Proof.
  intros S1 l.
  remember (List.length l) as n eqn:N.
  revert l N. induction n as [n IH] using lt_wf_ind. intros l N pre final H.
  destruct l as [|x l]; [destruct pre; discriminate H|].
  rewrite chunks_cons in H by exact S1.
  destruct pre as [|p pre]; cbn [app] in H; injection H as Hp Hrest.
  - split; [constructor|].
    apply chunks_empty_inv in Hrest; [|exact S1].
    apply (f_equal (@List.length A)) in Hrest.
    rewrite length_skipn in Hrest. subst final.
    rewrite length_firstn. cbn [List.length] in *. lia.
  - assert (NE : skipn size (x :: l) <> []).
    { intros E. rewrite E in Hrest. destruct pre; discriminate Hrest. }
    assert (Lg : size < List.length (x :: l)).
    { destruct (Nat.lt_ge_cases size (List.length (x :: l))) as [G|G];
        [exact G|].
      exfalso. apply NE. apply skipn_all2. exact G. }
    destruct (IH (List.length (skipn size (x :: l)))
                 ltac:(rewrite length_skipn; subst n; lia)
                 (skipn size (x :: l)) eq_refl pre final Hrest) as [Fp Fl].
    split; [|exact Fl]. constructor; [|exact Fp].
    subst p. rewrite length_firstn. lia.
Qed.


Lemma count_delays_intersperse (d : Z) (bs : list (list EmailData)) :
  count_delays (intersperse (EDelay d) (map batch_effect bs))
  = pred (List.length bs).
Proof.
  unfold count_delays. induction bs as [|b bs IH]; [reflexivity|].
  destruct bs as [|b' bs]; [reflexivity|].
  cbn [map intersperse] in *. cbn [filter is_delay batch_effect List.length].
  cbn [filter is_delay batch_effect List.length] in IH. rewrite IH.
  reflexivity.
Qed.

(** C7.  With a batch size of at least one, [sendEmailsInBatches] returns,
    and what it did is: [sendEmails] on each of the consecutive pieces of
    the recipient list, with one delay of [delayMs] between any two pieces
    and none after the last.  The pieces put together are the recipient
    list, every piece but the last has [batchSize] elements and the last
    has between one and [batchSize].  45 recipients with batch size 20 give
    pieces of 20, 20 and 5 with two delays; no recipient gives no result,
    no batch and no delay; a non-empty list no longer than the batch size
    gives one batch and no delay. *)
Theorem batches_and_delays
    (World : Type)
    (sendMail : World -> string -> string -> string -> (string + string) * World)
    (w : World) (emails : list EmailData) (subject body : string)
    (batchSize : nat) (delayMs : Z) :
  1 <= batchSize ->
  exists results log w',
    sendEmailsInBatches World sendMail w emails subject body batchSize delayMs
    = Some (results, log, w') /\
    log = intersperse (EDelay delayMs)
            (map batch_effect (chunks batchSize emails)) /\
    List.concat (chunks batchSize emails) = emails /\
    (forall pre final, chunks batchSize emails = pre ++ [final] ->
       Forall (fun b => List.length b = batchSize) pre /\
       1 <= List.length final <= batchSize) /\
    count_delays log = pred (List.length (chunks batchSize emails)) /\
    (emails = [] -> results = [] /\ log = []) /\
    (emails <> [] -> List.length emails <= batchSize ->
       log = [batch_effect emails]) /\
    (List.length emails = 45 -> batchSize = 20 ->
       map (@List.length EmailData) (chunks batchSize emails) = [20; 20; 5] /\
       count_delays log = 2).
Proof.
  intros S1.
  eexists _, _, _. split; [apply sendEmailsInBatches_spec; exact S1|].
  split; [reflexivity|].
  split; [apply concat_chunks; exact S1|].
  split; [apply chunks_full; exact S1|].
  split; [apply count_delays_intersperse|].
  split; [|split].
  - intros ->. split; reflexivity.
  - intros N L. rewrite chunks_single by assumption. reflexivity.
  - intros L B. subst batchSize.
    assert (Sz : map (@List.length EmailData) (chunks 20 emails) = [20; 20; 5])
      by (rewrite chunks_sizes, L; reflexivity).
    split; [exact Sz|].
    rewrite count_delays_intersperse.
    rewrite <- (length_map (@List.length EmailData)), Sz. reflexivity.
Qed.

Lemma batches_and_delays_witness :
  let emails :=
    map (fun k => mkEmailData (String (ascii_of_nat (48 + k)) "@example.org") k "Email")
        (seq 0 45) in
  exists results log w',
    sendEmailsInBatches nat (fun w _ _ _ => (inl "id", S w)) 0 emails
      "Subject" "Body" 20 30000
    = Some (results, log, w') /\
    map (@List.length EmailData) (chunks 20 emails) = [20; 20; 5] /\
    count_delays log = 2.
Proof.
  intros emails.
  assert (S1 : 1 <= 20) by lia.
  destruct (batches_and_delays nat (fun w _ _ _ => (inl "id", S w)) 0 emails
              "Subject" "Body" 20 30000 S1)
    as (results & log & w' & H & _ & _ & _ & _ & _ & _ & H45).
  exists results, log, w'. split; [exact H|].
  apply H45; reflexivity.
Defined.


Example batches_45_run :
  option_map (fun r => (List.length (fst (fst r)), map effect_shape (snd (fst r)), snd r))
    (sendEmailsInBatches nat (fun w _ _ _ => (inl "id", S w)) 0
       (map (fun k => mkEmailData (String (ascii_of_nat (48 + k)) "@example.org") k "Email")
            (seq 0 45))
       "Subject" "Body" BATCH_SIZE BATCH_DELAY_MS)
  = Some (45, [inl 20; inr 30000%Z; inl 20; inr 30000%Z; inl 5], 45).
Proof. vm_compute. reflexivity. Qed.

(** With a batch size of zero and a recipient the loop never ends: no
    amount of fuel is enough. *)
Lemma batches_loop_zero_size
    (World : Type)
    (sendMail : World -> string -> string -> string -> (string + string) * World)
    (emails : list EmailData) (subject body : string) (delayMs : Z) :
  emails <> [] ->
  forall fuel allResults log w,
    batches_loop World sendMail fuel emails subject body 0 delayMs
      0 allResults log w = None.
Proof.
  intros N. induction fuel as [|fuel IH]; intros allResults log w;
    [reflexivity|].
  cbn [batches_loop].
  destruct emails as [|e emails]; [contradiction|].
  cbn [List.length Nat.ltb Nat.leb Nat.add].
  destruct (sendEmails World sendMail w (slice 0 0 (e :: emails)) subject body).
  apply IH.
Qed.

(** ** Phone validation and addressing (C10) *)


Lemma all_digits_spec (p : string) :
  all_digits p = true
  <-> forall ch, In ch (list_ascii_of_string p) -> 48 <= nat_of_ascii ch <= 57.
Proof.
  induction p as [|c p IH]; cbn [all_digits list_ascii_of_string].
  - split; [intros _ ch []|reflexivity].
  - rewrite andb_true_iff, IH. unfold is_digit.
    rewrite andb_true_iff, !Nat.leb_le. split.
    + intros [Hc Hp] ch [<-|Hin]; [exact Hc | exact (Hp ch Hin)].
    + intros H. split; [apply H; left; reflexivity|].
      intros ch Hin. apply H. right. exact Hin.
Qed.

Lemma phone_regex_spec (p : string) :
  phone_regex p = true <-> digits_10_15 p.
Proof.
  unfold phone_regex, digits_10_15.
  rewrite !andb_true_iff, !Nat.leb_le, all_digits_spec. tauto.
Qed.

Lemma invalid_phone_spec (c : Contact) :
  invalid_phone c = false
  <-> js_truthy (phone c) = true /\ digits_10_15 (js_text (phone c)).
Proof.
  unfold invalid_phone.
  rewrite orb_false_iff, !negb_false_iff, phone_regex_spec. tauto.
Qed.

(** For a phone that is a string the validation is the shape alone: a
    string of at least ten characters is truthy. *)
Lemma invalid_phone_string (c : Contact) (p : string) :
  phone c = JsString p -> (invalid_phone c = false <-> digits_10_15 p).
Proof.
  intros P. rewrite invalid_phone_spec, P. cbn [js_truthy js_text]. split.
  - intros [_ D]. exact D.
  - intros D. split; [|exact D]. destruct D as [[L _] _].
    destruct p; [cbn in L; lia | reflexivity].
Qed.

Lemma prefix_91_spec (p : string) :
  String.prefix "91" p = true <-> starts_with_91 p.
Proof.
  unfold starts_with_91. split.
  - intros H.
    destruct p as [|a [|b rest]]; cbn [String.prefix] in H;
      try discriminate H.
    + destruct (ascii_dec "9" a); discriminate H.
    + destruct (ascii_dec "9" a) as [<-|]; [|discriminate H].
      destruct (ascii_dec "1" b) as [<-|]; [|discriminate H].
      exists rest. reflexivity.
  - intros [rest ->]. destruct rest; reflexivity.
Qed.

Lemma chat_address_cases (p : string) :
  (starts_with_91 p -> chat_address p = (p ++ "@c.us")%string) /\
  (~ starts_with_91 p -> chat_address p = ("91" ++ p ++ "@c.us")%string).
Proof.
  unfold chat_address. split; intros H.
  - apply prefix_91_spec in H. rewrite H. reflexivity.
  - destruct (String.prefix "91" p) eqn:E; [|reflexivity].
    exfalso. apply H. apply prefix_91_spec. exact E.
Qed.

Section ContactLoop.

Variable World : Type.
Variable sendMessage : World -> string -> string -> option string * World.
Variable message : string.

Let loop := fun w cs => send_contacts World sendMessage w cs message.

(** The loop on a contact the guard rejects, on one that is not a string
    and on one that is. *)
Lemma send_contacts_rejected (c : Contact) (rest : list Contact) (w : World) :
  invalid_phone c = true ->
  loop w (c :: rest)
  = (mkContactResult c false (Some "Invalid phone number format")
       :: fst (fst (loop w rest)),
     snd (fst (loop w rest)), snd (loop w rest)).
Proof.
  intros V. unfold loop. cbn [send_contacts]. rewrite V.
  destruct (send_contacts World sendMessage w rest message) as [[r l] w1].
  reflexivity.
Qed.

Lemma send_contacts_not_string (c : Contact) (rest : list Contact) (w : World)
    (truthy : bool) (text : string) :
  invalid_phone c = false -> phone c = JsOther truthy text ->
  loop w (c :: rest)
  = (mkContactResult c false (Some STARTSWITH_TYPE_ERROR)
       :: fst (fst (loop w rest)),
     EDelay CONTACT_DELAY :: snd (fst (loop w rest)), snd (loop w rest)).
Proof.
  intros V P. unfold loop. cbn [send_contacts]. rewrite V, P.
  destruct (send_contacts World sendMessage w rest message) as [[r l] w1].
  reflexivity.
Qed.

Lemma send_contacts_string (c : Contact) (rest : list Contact) (w : World)
    (p : string) :
  invalid_phone c = false -> phone c = JsString p ->
  loop w (c :: rest)
  = let w1 := snd (sendMessage w (chat_address p) message) in
    (match fst (sendMessage w (chat_address p) message) with
     | None => mkContactResult c true None
     | Some m => mkContactResult c false (Some m)
     end :: fst (fst (loop w1 rest)),
     EMessage (chat_address p) message :: EDelay CONTACT_DELAY
       :: snd (fst (loop w1 rest)),
     snd (loop w1 rest)).
Proof.
  intros V P. unfold loop. cbn [send_contacts]. rewrite V, P.
  destruct (sendMessage w (chat_address p) message) as [thrown w1].
  cbn [fst snd].
  destruct (send_contacts World sendMessage w1 rest message) as [[r l] w2].
  reflexivity.
Qed.

(** The three cases of one contact. *)
Lemma contact_cases (c : Contact) :
  invalid_phone c = true \/
  (invalid_phone c = false /\ exists p, phone c = JsString p) \/
  (invalid_phone c = false /\ exists t text, phone c = JsOther t text).
Proof.
  destruct (invalid_phone c); [left; reflexivity|right].
  destruct (phone c) as [p|t text];
    [left; split; [reflexivity | exists p; reflexivity]
    |right; split; [reflexivity | exists t, text; reflexivity]].
Qed.

(** One result per contact, carrying that contact, in the same order. *)
Lemma send_contacts_contacts (contacts : list Contact) (w : World) :
  map contact (fst (fst (loop w contacts))) = contacts.
Proof.
  revert w. induction contacts as [|c cs IH]; intros w; [reflexivity|].
  destruct (contact_cases c) as [V|[[V [p P]]|[V [t [text P]]]]].
  - rewrite (send_contacts_rejected c cs w V). cbn. rewrite IH. reflexivity.
  - rewrite (send_contacts_string c cs w p V P). cbn.
    rewrite IH. destruct (fst (sendMessage w (chat_address p) message));
      reflexivity.
  - rewrite (send_contacts_not_string c cs w t text V P). cbn.
    rewrite IH. reflexivity.
Qed.

(** The result recorded for a contact that fails the validation. *)
Lemma send_contacts_invalid (contacts : list Contact) (w : World) :
  Forall (fun r => invalid_phone (contact r) = true ->
                   r = mkContactResult (contact r) false
                         (Some "Invalid phone number format"))
         (fst (fst (loop w contacts))).
Proof.
  revert w. induction contacts as [|c cs IH]; intros w; [constructor|].
  destruct (contact_cases c) as [V|[[V [p P]]|[V [t [text P]]]]].
  - rewrite (send_contacts_rejected c cs w V). cbn.
    constructor; [reflexivity | apply IH].
  - rewrite (send_contacts_string c cs w p V P). cbn.
    constructor; [|apply IH].
    destruct (fst (sendMessage w (chat_address p) message));
      cbn; rewrite V; discriminate.
  - rewrite (send_contacts_not_string c cs w t text V P). cbn.
    constructor; [|apply IH]. cbn. rewrite V. discriminate.
Qed.

(** The result recorded for a contact that passes the validation with a
    phone that is not a string. *)
Lemma send_contacts_type_error (contacts : list Contact) (w : World) :
  Forall (fun r => invalid_phone (contact r) = false ->
                   is_string (phone (contact r)) = false ->
                   r = mkContactResult (contact r) false
                         (Some STARTSWITH_TYPE_ERROR))
         (fst (fst (loop w contacts))).
Proof.
  revert w. induction contacts as [|c cs IH]; intros w; [constructor|].
  destruct (contact_cases c) as [V|[[V [p P]]|[V [t [text P]]]]].
  - rewrite (send_contacts_rejected c cs w V). cbn.
    constructor; [|apply IH]. cbn. rewrite V. discriminate.
  - rewrite (send_contacts_string c cs w p V P). cbn.
    constructor; [|apply IH].
    destruct (fst (sendMessage w (chat_address p) message));
      cbn; rewrite P; discriminate.
  - rewrite (send_contacts_not_string c cs w t text V P). cbn.
    constructor; [reflexivity | apply IH].
Qed.

(** The effects of the loop, contact by contact. *)
Lemma send_contacts_log (contacts : list Contact) (w : World) :
  snd (fst (loop w contacts)) = flat_map (contact_effects message) contacts.
Proof.
  revert w. induction contacts as [|c cs IH]; intros w; [reflexivity|].
  cbn [flat_map]. unfold contact_effects at 1.
  destruct (contact_cases c) as [V|[[V [p P]]|[V [t [text P]]]]].
  - rewrite (send_contacts_rejected c cs w V), V. cbn. apply IH.
  - rewrite (send_contacts_string c cs w p V P), V, P. cbn.
    rewrite IH. reflexivity.
  - rewrite (send_contacts_not_string c cs w t text V P), V, P. cbn.
    rewrite IH. reflexivity.
Qed.

(** The messages sent: one per accepted contact, to its address. *)
Lemma send_contacts_messages (contacts : list Contact) (w : World) :
  sent_messages (snd (fst (loop w contacts)))
  = map (fun p => (chat_address p, message)) (accepted_phones contacts).
Proof.
  rewrite send_contacts_log. unfold sent_messages, accepted_phones.
  induction contacts as [|c cs IH]; [reflexivity|].
  cbn [flat_map]. rewrite flat_map_app, map_app, IH. f_equal.
  unfold contact_effects.
  destruct (invalid_phone c); [reflexivity|].
  destruct (phone c); reflexivity.
Qed.

End ContactLoop.

(** What the transport itself is called with: a transport that records its
    calls ends with one call per accepted contact, at its address and with
    the message. *)
Lemma send_contacts_calls (answer : string -> option string) (message : string)
    (contacts : list Contact) (w : list (string * string)) :
  snd (send_contacts (list (string * string)) (recording_chat answer)
         w contacts message)
  = w ++ map (fun p => (chat_address p, message)) (accepted_phones contacts).
Proof.
  revert w. induction contacts as [|c cs IH]; intros w;
    [cbn; rewrite app_nil_r; reflexivity|].
  unfold accepted_phones. cbn [flat_map]. fold (accepted_phones cs).
  destruct (contact_cases c) as [V|[[V [p P]]|[V [t [text P]]]]].
  - rewrite (send_contacts_rejected _ _ message c cs w V), V. cbn [snd app].
    apply IH.
  - rewrite (send_contacts_string _ _ message c cs w p V P), V, P.
    cbn [snd fst recording_chat]. rewrite IH, map_app, app_assoc.
    reflexivity.
  - rewrite (send_contacts_not_string _ _ message c cs w t text V P), V, P.
    cbn [snd app]. apply IH.
Qed.

(** C10.  The claim asks that every contact whose phone is not a string of
    10 to 15 digits be recorded with 'Invalid phone number format' and
    that nothing be tried for it.  The guard tests the text of the phone,
    not the phone: a phone that is not a string (the JSON number
    9876543210) and whose text is 10 to 15 digits passes it; computing the
    address then throws, the contact is recorded as failed with the
    message of that error, which is not 'Invalid phone number format', and
    the wait of 10000 ms is paid although nothing was sent.  The test of
    [message] in the same handler does check [typeof]. *)
Theorem number_phone_passes_validation
    (World : Type) (sendMessage : World -> string -> string -> option string * World)
    (w : World) (c : Contact) (rest : list Contact) (message : string)
    (text : string) :
  phone c = JsOther true text -> digits_10_15 text ->
  invalid_phone c = false /\
  send_contacts World sendMessage w (c :: rest) message
  = (mkContactResult c false (Some STARTSWITH_TYPE_ERROR)
       :: fst (fst (send_contacts World sendMessage w rest message)),
     EDelay 10000
       :: snd (fst (send_contacts World sendMessage w rest message)),
     snd (send_contacts World sendMessage w rest message)) /\
  STARTSWITH_TYPE_ERROR <> "Invalid phone number format".
Proof.
  intros P D.
  assert (V : invalid_phone c = false).
  { apply invalid_phone_spec. rewrite P. split; [reflexivity | exact D]. }
  split; [exact V|].
  split; [|discriminate].
  exact (send_contacts_not_string World sendMessage message c rest w true text
           V P).
Qed.

Lemma digits_10_15_9876543210 : digits_10_15 "9876543210".
Proof. apply phone_regex_spec. reflexivity. Qed.

Lemma number_phone_passes_validation_witness :
  send_contacts unit (fun w _ _ => (None, w)) tt
    [mkContact (Some "Asha") (JsOther true "9876543210")] "Hello"
  = ([mkContactResult (mkContact (Some "Asha") (JsOther true "9876543210"))
        false (Some "contact.phone.startsWith is not a function")],
     [EDelay 10000], tt).
Proof.
  destruct (number_phone_passes_validation unit (fun w _ _ => (None, w)) tt
              (mkContact (Some "Asha") (JsOther true "9876543210")) []
              "Hello" "9876543210" eq_refl digits_10_15_9876543210)
    as [_ [H _]].
  exact H.
Defined.

(** The same run with the phone as a string sends the message. *)
Example string_phone_run :
  send_contacts unit (fun w _ _ => (None, w)) tt
    [mkContact (Some "Asha") (JsString "9876543210")] "Hello"
  = ([mkContactResult (mkContact (Some "Asha") (JsString "9876543210"))
        true None],
     [EMessage "919876543210@c.us" "Hello"; EDelay 10000], tt).
Proof. reflexivity. Qed.

(** X22.  In the loop of [POST /api/whatsapp/send] a contact passes the
    validation exactly when its phone is truthy and its text is 10 to 15
    digits; for a phone that is a string this is the shape alone.  A
    contact that fails it gets the result
    [{ contact, success: false, error: 'Invalid phone number format' }] and
    no message is sent for it.  The messages sent are, in order, one per
    contact that passes with a string, addressed to
    ['91' + phone + '@c.us'] when the phone does not start with ['91'] and
    to [phone + '@c.us'] when it does; these are the very calls the
    transport receives. *)
Theorem string_phone_validation_and_address
    (World : Type) (sendMessage : World -> string -> string -> option string * World)
    (w : World) (contacts : list Contact) (message : string)
    (answer : string -> option string) (calls : list (string * string)) :
  (forall c, invalid_phone c = false
             <-> js_truthy (phone c) = true /\ digits_10_15 (js_text (phone c))) /\
  (forall c p, phone c = JsString p ->
               (invalid_phone c = false <-> digits_10_15 p)) /\
  map contact (fst (fst (send_contacts World sendMessage w contacts message)))
  = contacts /\
  Forall (fun r => invalid_phone (contact r) = true ->
                   r = mkContactResult (contact r) false
                         (Some "Invalid phone number format"))
         (fst (fst (send_contacts World sendMessage w contacts message))) /\
  sent_messages (snd (fst (send_contacts World sendMessage w contacts message)))
  = map (fun p => (chat_address p, message)) (accepted_phones contacts) /\
  snd (send_contacts (list (string * string)) (recording_chat answer)
         calls contacts message)
  = calls ++ map (fun p => (chat_address p, message)) (accepted_phones contacts) /\
  (forall p, starts_with_91 p -> chat_address p = (p ++ "@c.us")%string) /\
  (forall p, ~ starts_with_91 p ->
             chat_address p = ("91" ++ p ++ "@c.us")%string).
Proof.
  split; [exact invalid_phone_spec|].
  split; [exact invalid_phone_string|].
  split; [apply send_contacts_contacts|].
  split; [apply send_contacts_invalid|].
  split; [apply send_contacts_messages|].
  split; [apply send_contacts_calls|].
  split; intros p; apply chat_address_cases.
Qed.

Example send_contacts_run :
  send_contacts unit (fun w _ _ => (None, w)) tt
    [ mkContact (Some "Asha") (JsString "9876543210");
      mkContact (Some "Ravi") (JsString "98765-43210");
      mkContact (Some "Meera") (JsString "919812345678");
      mkContact (Some "Nobody") js_undefined ]
    "Hello"
  = ([ mkContactResult (mkContact (Some "Asha") (JsString "9876543210")) true None;
       mkContactResult (mkContact (Some "Ravi") (JsString "98765-43210")) false
         (Some "Invalid phone number format");
       mkContactResult (mkContact (Some "Meera") (JsString "919812345678")) true None;
       mkContactResult (mkContact (Some "Nobody") js_undefined) false
         (Some "Invalid phone number format") ],
     [ EMessage "919876543210@c.us" "Hello"; EDelay 10000;
       EMessage "919812345678@c.us" "Hello"; EDelay 10000 ],
     tt).
Proof. reflexivity. Qed.

(** ** Failures do not stop a dispatch (C8) *)

Lemma sendEmails_failed_head
    (World : Type)
    (sendMail : World -> string -> string -> string -> (string + string) * World)
    (w w1 : World) (e : EmailData) (rest : list EmailData)
    (subject body msg : string) :
  sendMail w (email e) subject body = (inr msg, w1) ->
  sendEmails World sendMail w (e :: rest) subject body
  = (MailFailed (email e) msg
       :: fst (sendEmails World sendMail w1 rest subject body),
     snd (sendEmails World sendMail w1 rest subject body)).
Proof.
  intros H. cbn [sendEmails]. rewrite H.
  destruct (sendEmails World sendMail w1 rest subject body). reflexivity.
Qed.

Lemma send_contacts_failed_head
    (World : Type) (sendMessage : World -> string -> string -> option string * World)
    (w w1 : World) (c : Contact) (rest : list Contact)
    (p message msg : string) :
  invalid_phone c = false -> phone c = JsString p ->
  sendMessage w (chat_address p) message = (Some msg, w1) ->
  send_contacts World sendMessage w (c :: rest) message
  = (mkContactResult c false (Some msg)
       :: fst (fst (send_contacts World sendMessage w1 rest message)),
     EMessage (chat_address p) message :: EDelay 10000
       :: snd (fst (send_contacts World sendMessage w1 rest message)),
     snd (send_contacts World sendMessage w1 rest message)).
Proof.
  intros V P H. cbn [send_contacts]. rewrite V, P, H.
  destruct (send_contacts World sendMessage w1 rest message) as [[r l] w2].
  reflexivity.
Qed.

(** C8.  [sendEmails] returns one result per recipient, for the same
    address and in the same order, whatever the transport answers; a send
    that throws is recorded as [failed] with the error message and the
    remaining recipients are processed from the world that send left.
    With a batch size of at least one, [sendEmailsInBatches] returns the
    very results of [sendEmails] on the whole list, so no batch is skipped
    after a failure.  The loop of [POST /api/whatsapp/send] likewise
    returns one result per contact, in order, and records a send that
    throws as a failure with its message before going on.  For three
    recipients of which the second fails the results are success, failed,
    success. *)
Theorem failures_do_not_stop_dispatch
    (World : Type)
    (sendMail : World -> string -> string -> string -> (string + string) * World)
    (sendMessage : World -> string -> string -> option string * World)
    (w : World) (emails : list EmailData) (subject body : string)
    (batchSize : nat) (delayMs : Z)
    (contacts : list Contact) (message : string) :
  1 <= batchSize ->
  map result_email (fst (sendEmails World sendMail w emails subject body))
  = map email emails /\
  List.length (fst (sendEmails World sendMail w emails subject body))
  = List.length emails /\
  (forall e rest msg w1,
      sendMail w (email e) subject body = (inr msg, w1) ->
      sendEmails World sendMail w (e :: rest) subject body
      = (MailFailed (email e) msg
           :: fst (sendEmails World sendMail w1 rest subject body),
         snd (sendEmails World sendMail w1 rest subject body))) /\
  (exists log,
      sendEmailsInBatches World sendMail w emails subject body batchSize delayMs
      = Some (fst (sendEmails World sendMail w emails subject body), log,
              snd (sendEmails World sendMail w emails subject body))) /\
  map contact (fst (fst (send_contacts World sendMessage w contacts message)))
  = contacts /\
  (forall c rest p msg w1,
      invalid_phone c = false -> phone c = JsString p ->
      sendMessage w (chat_address p) message = (Some msg, w1) ->
      send_contacts World sendMessage w (c :: rest) message
      = (mkContactResult c false (Some msg)
           :: fst (fst (send_contacts World sendMessage w1 rest message)),
         EMessage (chat_address p) message :: EDelay 10000
           :: snd (fst (send_contacts World sendMessage w1 rest message)),
         snd (send_contacts World sendMessage w1 rest message))) /\
  (forall a b c ida msg idc w1 w2 w3,
      sendMail w (email a) subject body = (inl ida, w1) ->
      sendMail w1 (email b) subject body = (inr msg, w2) ->
      sendMail w2 (email c) subject body = (inl idc, w3) ->
      sendEmails World sendMail w [a; b; c] subject body
      = ([MailSuccess (email a) ida; MailFailed (email b) msg;
          MailSuccess (email c) idc], w3)).
Proof.
  intros S1.
  pose proof (sendEmails_addresses World sendMail subject body emails w) as A.
  split; [exact A|].
  split.
  { rewrite <- (length_map result_email), A. apply length_map. }
  split; [intros e rest msg w1; apply sendEmails_failed_head|].
  split.
  { eexists. apply sendEmailsInBatches_spec. exact S1. }
  split; [apply send_contacts_contacts|].
  split; [intros c rest p msg w1; apply send_contacts_failed_head|].
  intros a b c ida msg idc w1 w2 w3 Ha Hb Hc.
  cbn [sendEmails]. rewrite Ha, Hb, Hc. reflexivity.
Qed.


Lemma failures_do_not_stop_dispatch_witness :
  let A := mkEmailData "a@example.org" 1 "Email" in
  let B := mkEmailData "b@example.org" 2 "Email" in
  let C := mkEmailData "c@example.org" 3 "Email" in
  exists log,
    sendEmailsInBatches nat (refuse "b@example.org") 0 [A; B; C]
      "Subject" "Body" 2 30000
    = Some ([ MailSuccess "a@example.org" "id-a@example.org";
              MailFailed "b@example.org" "Mailbox unavailable";
              MailSuccess "c@example.org" "id-c@example.org" ],
            log, 3).
Proof.
  intros A B C.
  assert (S1 : 1 <= 2) by lia.
  destruct (failures_do_not_stop_dispatch nat (refuse "b@example.org")
              (fun w _ _ => (None, w)) 0 [A; B; C] "Subject" "Body" 2 30000
              [] "Hello" S1)
    as (_ & _ & _ & [log H] & _).
  exists log. exact H.
Defined.

Example failing_recipient_run :
  sendEmailsInBatches nat (refuse "b@example.org") 0
    [ mkEmailData "a@example.org" 1 "Email";
      mkEmailData "b@example.org" 2 "Email";
      mkEmailData "c@example.org" 3 "Email" ]
    "Subject" "Body" 2 30000
  = Some ([ MailSuccess "a@example.org" "id-a@example.org";
            MailFailed "b@example.org" "Mailbox unavailable";
            MailSuccess "c@example.org" "id-c@example.org" ],
          [ EBatch ["a@example.org"; "b@example.org"]; EDelay 30000;
            EBatch ["c@example.org"] ],
          3).
Proof. reflexivity. Qed.

(** * Further properties of the session state machine *)

(** ** The watchdog is pending only during an initialization *)

Lemma filter_swap {A : Type} (f g : A -> bool) (l : list A) :
  filter f (filter g l) = filter g (filter f l).
Proof.
  induction l as [|x l IH]; [reflexivity|].
  cbn [filter]. destruct (f x) eqn:F; destruct (g x) eqn:G; cbn [filter];
    rewrite ?F, ?G, IH; reflexivity.
Qed.

Lemma watchdogs_clearTimeout (h : nat) (s : Session) :
  watchdogs (clearTimeout h s)
  = filter (fun t => negb (Nat.eqb (handle t) h)) (watchdogs s).
Proof.
  unfold watchdogs, clearTimeout. cbn [timers set_timers].
  induction (timers s) as [|t l IH]; [reflexivity|].
  cbn [filter]. destruct (negb (handle t =? h)%nat) eqn:E;
    destruct (is_watchdog t) eqn:W; cbn [filter]; rewrite ?E, ?W, IH;
    reflexivity.
Qed.

Lemma watchdogs_cleared (s : Session) :
  watchdog_live s -> watchdogs (clear_initializationTimeout s) = [].
Proof.
  intros [E|[_ [_ [h [T W]]]]]; unfold clear_initializationTimeout.
  - destruct (initializationTimeout s) as [h|]; [|exact E].
    change (watchdogs (clearTimeout h s) = []).
    rewrite watchdogs_clearTimeout, E. reflexivity.
  - rewrite T. change (watchdogs (clearTimeout h s) = []).
    rewrite watchdogs_clearTimeout, W. cbn. rewrite Nat.eqb_refl. reflexivity.
Qed.

Lemma watchdogs_push_start (d : Z) (s : Session) :
  watchdogs (snd (setTimeout CbStartClient d s)) = watchdogs s.
Proof.
  unfold watchdogs, setTimeout. cbn. rewrite filter_app. cbn.
  apply app_nil_r.
Qed.

Lemma startClient_watchdog_live (ctor_ok : bool) (s : Session) :
  watchdog_live s -> watchdog_live (startClient ctor_ok s).
Proof.
  intros L. unfold startClient.
  destruct (isInitializing s) eqn:I; [exact L|].
  assert (E : watchdogs s = []).
  { destruct L as [E|[_ [I' _]]]; [exact E | congruence]. }
  unfold watchdogs in E.
  assert (F : filter (fun t => negb (Nat.eqb (handle t) (nextHandle s)))
                (filter is_watchdog
                   (timers s ++
                    [mkTimer (nextHandle s) CbWatchdog INITIALIZATION_TIMEOUT]))
              = []).
  { rewrite filter_app, E. cbn. rewrite Nat.eqb_refl. reflexivity. }
  destruct (state_is (clientState s) Initializing && negb false);
    destruct ctor_ok.
  - right. unfold watchdogs. cbn. rewrite filter_app, E. cbn.
    repeat split. eexists. split; reflexivity.
  - left. cbn. rewrite filter_swap. exact F.
  - right. unfold watchdogs. cbn. rewrite filter_app, E. cbn.
    repeat split. eexists. split; reflexivity.
  - left. cbn. rewrite filter_swap. exact F.
Qed.

Lemma watchdog_live_fire (h : nat) (ctor_ok destroy_throws : bool) (s : Session) :
  watchdog_live s -> watchdog_live (fire h ctor_ok destroy_throws s).
Proof.
  intros L. unfold fire.
  destruct (find_timer h s) as [t|] eqn:Ft; [|exact L].
  apply find_some in Ft as [Tin Th]. apply Nat.eqb_eq in Th.
  destruct (callback t) eqn:Cb.
  - (* the watchdog itself *)
    assert (W : In t (watchdogs s)).
    { unfold watchdogs. apply filter_In. split; [exact Tin|].
      unfold is_watchdog. rewrite Cb. reflexivity. }
    destruct L as [E|[St [_ [h0 [_ W0]]]]]; [rewrite E in W; contradiction|].
    rewrite W0 in W. destruct W as [<-|[]]. cbn [handle] in Th. subst h0.
    left. unfold watchdog.
    change (clientState (clearTimeout h s)) with (clientState s).
    rewrite St, state_is_refl. rewrite watchdogs_push_start.
    cbn [client set_clientState set_isInitializing clearTimeout set_timers].
    destruct (client s);
      change (watchdogs (clearTimeout h s) = []);
      rewrite watchdogs_clearTimeout, W0; cbn; rewrite Nat.eqb_refl;
      reflexivity.
  - (* a delayed startClient *)
    apply startClient_watchdog_live.
    destruct L as [E|[St [I [h0 [T W0]]]]].
    + left. rewrite watchdogs_clearTimeout, E. reflexivity.
    + destruct (Nat.eqb h0 h) eqn:Eh.
      * left. rewrite watchdogs_clearTimeout, W0. cbn. rewrite Eh. reflexivity.
      * right. repeat split; try assumption. exists h0. split; [exact T|].
        rewrite watchdogs_clearTimeout, W0. cbn. rewrite Eh. reflexivity.
Qed.

Lemma watchdog_live_step (e : Event) (s : Session) :
  watchdog_live s -> watchdog_live (step e s).
Proof.
  intros L. pose proof (watchdogs_cleared s L) as C.
  destruct e; cbn [step].
  - left. exact C.
  - left. exact C.
  - left. unfold on_ready. destruct info; exact C.
  - left. unfold on_disconnected.
    destruct (negb (reason =? "NAVIGATION")%string && _); [|exact C].
    rewrite watchdogs_push_start. exact C.
  - left. exact C.
  - left. exact C.
  - left. exact C.
  - apply watchdog_live_fire. exact L.
  - unfold qr_sweep. destruct (truthy_string (qrCodeData s) && _); exact L.
  - unfold get_whatsapp_qr.
    destruct (state_is (clientState s) Qr && _).
    + destruct (qr_expired now s); [exact L|].
      destruct (qrCodeData s); exact L.
    + destruct (state_is (clientState s) Ready); [exact L|].
      destruct (state_is (clientState s) Initializing || _); [exact L|].
      destruct ((_ || _ || _) && _); [|exact L].
      cbn [snd]. apply startClient_watchdog_live. exact L.
  - unfold reset_teardown. destruct (client s); exact L.
  - unfold reset_restart. apply startClient_watchdog_live. left.
    revert C. unfold clear_initializationTimeout.
    cbn [initializationTimeout set_clientState set_isInitializing
         set_sessionInfo set_sessionPhone set_qrGeneratedTime set_qrCodeData].
    destruct (initializationTimeout s); intros C; exact C.
Qed.

Lemma reachable_watchdog_live (s : Session) : reachable s -> watchdog_live s.
Proof.
  intros [c [tr ->]].
  assert (B : watchdog_live (boot c)).
  { destruct c; [right|left]; cbn; [|reflexivity].
    repeat split. exists 0. split; reflexivity. }
  revert B. generalize (boot c). unfold run.
  induction tr as [|e tr IH]; intros s0 B; cbn [fold_left]; [exact B|].
  apply IH. apply watchdog_live_step. exact B.
Qed.

Lemma pending_watchdog_state (s : Session) (t : Timer) :
  watchdog_live s -> In t (timers s) -> callback t = CbWatchdog ->
  clientState s = Initializing /\ isInitializing s = true /\
  initializationTimeout s = Some (handle t) /\ delay t = 30000%Z.
Proof.
  intros L Tin Cb.
  assert (W : In t (watchdogs s)).
  { unfold watchdogs. apply filter_In. split; [exact Tin|].
    unfold is_watchdog. rewrite Cb. reflexivity. }
  destruct L as [E|[St [I [h [T W0]]]]]; [rewrite E in W; contradiction|].
  rewrite W0 in W. destruct W as [<-|[]]. cbn. auto.
Qed.

(** X1.  In every reachable session at most one watchdog timeout is
    pending; when one is, the state is [Initializing], an initialization is
    in flight, the timeout is the one [initializationTimeout] holds and its
    delay is 30000 ms.  So once the session has left [Initializing] no
    watchdog is left behind. *)
Theorem watchdog_only_while_initializing (s : Session) :
  reachable s ->
  List.length (watchdogs s) <= 1 /\
  (forall t, In t (timers s) -> callback t = CbWatchdog ->
     clientState s = Initializing /\ isInitializing s = true /\
     initializationTimeout s = Some (handle t) /\ delay t = 30000%Z) /\
  (clientState s <> Initializing -> watchdogs s = []).
Proof.
  intros R. pose proof (reachable_watchdog_live s R) as L.
  split; [|split].
  - destruct L as [E|[_ [_ [h [_ W]]]]]; [rewrite E | rewrite W]; cbn; lia.
  - intros t Tin Cb. apply pending_watchdog_state; assumption.
  - intros N. destruct L as [E|[St _]]; [exact E | contradiction].
Qed.

Lemma watchdog_only_while_initializing_witness :
  List.length (watchdogs (boot true)) <= 1 /\
  watchdogs (on_authenticated (boot true)) = [].
Proof.
  assert (R1 : reachable (boot true)) by (exists true, []; reflexivity).
  assert (R2 : reachable (on_authenticated (boot true)))
    by (exists true, [EvAuthenticated]; reflexivity).
  destruct (watchdog_only_while_initializing (boot true) R1) as [A _].
  destruct (watchdog_only_while_initializing (on_authenticated (boot true)) R2)
    as [_ [_ B]].
  split; [exact A|]. apply B. cbn. discriminate.
Defined.

(** X2.  In a reachable session a pending watchdog never fires in vain:
    when it fires the state is [Initializing], so the session goes to
    [Error], the flag is dropped, one [startClient] is scheduled 5000 ms
    later and no watchdog remains pending. *)
Theorem pending_watchdog_always_acts
    (s : Session) (h : nat) (t : Timer) (ctor_ok destroy_throws : bool) :
  reachable s -> find_timer h s = Some t -> callback t = CbWatchdog ->
  let s' := fire h ctor_ok destroy_throws s in
  clientState s = Initializing /\
  clientState s' = Error /\ isInitializing s' = false /\
  timers s' = timers (clearTimeout h s)
              ++ [mkTimer (nextHandle s) CbStartClient 5000] /\
  watchdogs s' = [].
Proof.
  intros R Ft Cb s'.
  pose proof (reachable_watchdog_live s R) as L.
  pose proof (watchdog_live_fire h ctor_ok destroy_throws s L) as L'.
  fold s' in L'.
  pose proof Ft as Ft'. apply find_some in Ft' as [Tin _].
  destruct (pending_watchdog_state s t L Tin Cb) as [St _].
  assert (E : s' = watchdog destroy_throws (clearTimeout h s)).
  { subst s'. unfold fire. rewrite Ft, Cb. reflexivity. }
  assert (F : clientState s' = Error /\ isInitializing s' = false /\
              timers s' = timers (clearTimeout h s)
                          ++ [mkTimer (nextHandle s) CbStartClient 5000]).
  { rewrite E. unfold watchdog.
    change (clientState (clearTimeout h s)) with (clientState s).
    rewrite St, state_is_refl.
    cbn [client set_clientState set_isInitializing clearTimeout set_timers].
    destruct (client s); cbn; auto. }
  destruct F as [F1 [F2 F3]].
  split; [exact St|]. split; [exact F1|]. split; [exact F2|].
  split; [exact F3|].
  destruct L' as [W|[St' _]]; [exact W | congruence].
Qed.

Lemma pending_watchdog_always_acts_witness :
  clientState (fire 0 true false (boot true)) = Error /\
  timers (fire 0 true false (boot true)) = [mkTimer 1 CbStartClient 5000].
Proof.
  assert (R : reachable (boot true)) by (exists true, []; reflexivity).
  pose proof (pending_watchdog_always_acts (boot true) 0
                (mkTimer 0 CbWatchdog INITIALIZATION_TIMEOUT) true false
                R eq_refl eq_refl) as H.
  cbv zeta in H. destruct H as [_ [A [_ [B _]]]].
  split; [exact A | exact B].
Defined.

(** ** Ready is never half set *)

Lemma startClient_not_ready (ctor_ok : bool) (s : Session) :
  isInitializing s = false -> clientState (startClient ctor_ok s) <> Ready.
Proof.
  intros I. unfold startClient. rewrite I.
  destruct (state_is (clientState s) Initializing && negb false);
    destruct ctor_ok; cbn; discriminate.
Qed.

Lemma startClient_ready_complete (ctor_ok : bool) (s : Session) :
  ready_complete s -> ready_complete (startClient ctor_ok s).
Proof.
  intros H. destruct (isInitializing s) eqn:I.
  - rewrite startClient_guard by exact I. exact H.
  - intros R. exfalso. exact (startClient_not_ready ctor_ok s I R).
Qed.

Lemma ready_complete_step (e : Event) (s : Session) :
  ready_complete s -> ready_complete (step e s).
Proof.
  intros H. destruct e; cbn [step].
  - intros R. pose proof (on_qr_ok payload now s) as P. cbv zeta in P.
    destruct P as [P _]. congruence.
  - intros R. pose proof (on_authenticated_ok s) as P. cbv zeta in P.
    destruct P as [P _]. congruence.
  - destruct info as [i|].
    + intros _. pose proof (on_ready_ok i s) as P. cbv zeta in P.
      destruct P as [_ [P1 [P2 [P3 [P4 [P5 P6]]]]]].
      split; [exists i; split; assumption|]. auto.
    + intros R. unfold on_ready in R. cbn in R. discriminate R.
  - intros R. pose proof (on_disconnected_cleared reason s) as P.
    cbv zeta in P. destruct P as [P _]. congruence.
  - intros R. pose proof (on_auth_failure_ok s) as P. cbv zeta in P.
    destruct P as [P _]. congruence.
  - intros R. pose proof (on_error_ok s) as P. cbv zeta in P.
    destruct P as [P _]. congruence.
  - intros R. unfold on_initialize_rejected in R. cbn in R. discriminate R.
  - unfold fire. destruct (find_timer h s) as [t|]; [|exact H].
    assert (Hc : ready_complete (clearTimeout h s)) by exact H.
    destruct (callback t); [|apply startClient_ready_complete; exact Hc].
    unfold watchdog.
    destruct (state_is (clientState (clearTimeout h s)) Initializing);
      [|exact Hc].
    intros R. cbn in R. destruct (client s); discriminate R.
  - unfold qr_sweep. destruct (truthy_string (qrCodeData s) && _); [|exact H].
    intros R. destruct (H R) as [A [_ [_ [B C]]]]. cbn. auto.
  - unfold get_whatsapp_qr.
    destruct (state_is (clientState s) Qr && _).
    + destruct (qr_expired now s).
      * intros R. destruct (H R) as [A [_ [_ [B C]]]]. cbn. auto.
      * destruct (qrCodeData s); exact H.
    + destruct (state_is (clientState s) Ready); [exact H|].
      destruct (state_is (clientState s) Initializing || _); [exact H|].
      destruct ((_ || _ || _) && _); [|exact H].
      cbn [snd]. apply startClient_ready_complete. exact H.
  - unfold reset_teardown. destruct (client s); exact H.
  - unfold reset_restart. intros R. exfalso. revert R.
    apply startClient_not_ready.
    match goal with
    | |- isInitializing (clear_initializationTimeout ?x) = false =>
        pose proof (clear_initializationTimeout_fields x) as P;
        cbv zeta in P; destruct P as [_ [_ [_ [_ [P _]]]]]; rewrite P
    end.
    reflexivity.
Qed.

Lemma reachable_ready_complete (s : Session) :
  reachable s -> ready_complete s.
Proof.
  intros [c [tr ->]].
  assert (B : ready_complete (boot c))
    by (destruct c; intros R; cbn in R; discriminate R).
  revert B. generalize (boot c). unfold run.
  induction tr as [|e tr IH]; intros s0 B; cbn [fold_left]; [exact B|].
  apply IH. apply ready_complete_step. exact B.
Qed.

(** X3.  In every reachable session whose state is [Ready] the identity
    is stored ([sessionInfo] and the phone taken from it), no QR payload
    or timestamp is left, no initialization is in flight and the
    reconnection counter is 0. *)
Theorem ready_state_is_complete (s : Session) :
  reachable s -> clientState s = Ready ->
  (exists i, sessionInfo s = Some i /\ sessionPhone s = Some (wid_user i)) /\
  qrCodeData s = None /\ qrGeneratedTime s = None /\
  isInitializing s = false /\ reconnectAttempts s = 0.
Proof. intros R. exact (reachable_ready_complete s R). Qed.

Lemma ready_state_is_complete_witness :
  reconnectAttempts
    (run [EvDisconnected "CONFLICT"; EvTimeout 1 true false;
          EvReady (Some (mkInfo "919876543210")); EvSweep 1700000000000]
       (boot true)) = 0.
Proof.
  apply ready_state_is_complete.
  - exists true. eexists. reflexivity.
  - reflexivity.
Defined.

(** ** What a served QR image is *)

(** X4.  In every reachable session, when [GET /api/whatsapp/qr] answers
    with an image, the state is [Qr], the image is the rendering of the
    stored payload, that payload has a timestamp, the payload is not older
    than 60000 ms (for a timestamp other than 0), and the query leaves the
    session as it was. *)
Theorem served_qr_is_fresh
    (render : string -> option string) (now : Z) (ctor_ok : bool)
    (s : Session) (image : string) :
  reachable s ->
  fst (get_whatsapp_qr render now ctor_ok s) = QrImage image ->
  clientState s = Qr /\
  (exists payload t,
      qrCodeData s = Some payload /\ render payload = Some image /\
      qrGeneratedTime s = Some t /\ (t <> 0%Z -> (now - t <= 60000)%Z)) /\
  snd (get_whatsapp_qr render now ctor_ok s) = s.
Proof.
  intros R. pose proof (reachable_paired s R) as P. unfold qr_paired in P.
  unfold get_whatsapp_qr.
  destruct (state_is (clientState s) Qr) eqn:Q; cbn [andb].
  - destruct (truthy_string (qrCodeData s)) eqn:T.
    + destruct (qr_expired now s) eqn:X; [discriminate|].
      destruct (qrCodeData s) as [payload|] eqn:D; [|discriminate].
      destruct (render payload) as [img|] eqn:Rd; [|discriminate].
      cbn [fst snd]. intros E. injection E as <-.
      split; [apply state_is_true; exact Q|]. split; [|reflexivity].
      destruct (qrGeneratedTime s) as [t|] eqn:G.
      * exists payload, t. repeat split; try assumption.
        intros NZ. unfold qr_expired in X. rewrite G in X.
        cbn [truthy_number] in X. apply Z.eqb_neq in NZ. rewrite NZ in X.
        cbn [negb andb] in X. apply Z.ltb_ge in X. exact X.
      * destruct P as [_ P]. specialize (P eq_refl). discriminate P.
    + destruct (state_is (clientState s) Ready).
      { apply state_is_true in Q. discriminate. }
      destruct (state_is (clientState s) Initializing || isInitializing s);
        [discriminate|].
      destruct ((state_is (clientState s) Disconnected
                 || state_is (clientState s) AuthFailure
                 || state_is (clientState s) Error)
                && negb (isInitializing s)); discriminate.
  - destruct (state_is (clientState s) Ready); [discriminate|].
    destruct (state_is (clientState s) Initializing || isInitializing s);
      [discriminate|].
    destruct ((state_is (clientState s) Disconnected
               || state_is (clientState s) AuthFailure
               || state_is (clientState s) Error)
              && negb (isInitializing s)); discriminate.
Qed.

Lemma served_qr_is_fresh_witness :
  clientState (on_qr "2@k3Tq" 1700000000000 (boot true)) = Qr /\
  snd (get_whatsapp_qr (fun p => Some p) 1700000030000 true
         (on_qr "2@k3Tq" 1700000000000 (boot true)))
  = on_qr "2@k3Tq" 1700000000000 (boot true).
Proof.
  assert (R : reachable (on_qr "2@k3Tq" 1700000000000 (boot true)))
    by (exists true, [EvQr "2@k3Tq" 1700000000000]; reflexivity).
  destruct (served_qr_is_fresh (fun p => Some p) 1700000030000 true
              (on_qr "2@k3Tq" 1700000000000 (boot true)) "2@k3Tq" R eq_refl)
    as [A [_ B]].
  split; [exact A | exact B].
Defined.

(** ** Recovery through the status query *)

Lemma failure_state_spec (c : ClientState) :
  failure_state c = true <-> c = Disconnected \/ c = AuthFailure \/ c = Error.
Proof. destruct c; cbn; intuition (try discriminate; try reflexivity). Qed.

Lemma startClient_failure_idle (ctor_ok : bool) (s : Session) :
  failure_idle s -> failure_idle (startClient ctor_ok s).
Proof.
  intros H. unfold startClient.
  destruct (isInitializing s) eqn:I; [exact H|].
  unfold failure_idle.
  destruct (state_is (clientState s) Initializing && negb false);
    destruct ctor_ok; cbn; auto; discriminate.
Qed.

Lemma failure_idle_step (e : Event) (s : Session) :
  failure_idle s -> failure_idle (step e s).
Proof.
  intros H. destruct e; cbn [step].
  - intros _. apply on_qr_ok.
  - unfold failure_idle, on_authenticated. cbn. discriminate.
  - intros _. unfold on_ready. destruct info; cbn; reflexivity.
  - intros _. apply on_disconnected_cleared.
  - intros _. apply on_auth_failure_ok.
  - intros _. apply on_error_ok.
  - intros _. unfold on_initialize_rejected. cbn. reflexivity.
  - unfold fire. destruct (find_timer h s) as [t|]; [|exact H].
    assert (Hc : failure_idle (clearTimeout h s)) by exact H.
    destruct (callback t); [|apply startClient_failure_idle; exact Hc].
    unfold watchdog.
    destruct (state_is (clientState (clearTimeout h s)) Initializing);
      [|exact Hc].
    intros _. cbn. destruct (client s); reflexivity.
  - unfold qr_sweep. destruct (truthy_string (qrCodeData s) && _); exact H.
  - unfold get_whatsapp_qr.
    destruct (state_is (clientState s) Qr && _).
    + destruct (qr_expired now s); [exact H|].
      destruct (qrCodeData s); exact H.
    + destruct (state_is (clientState s) Ready); [exact H|].
      destruct (state_is (clientState s) Initializing || _); [exact H|].
      destruct ((_ || _ || _) && _); [|exact H].
      cbn [snd]. apply startClient_failure_idle. exact H.
  - unfold reset_teardown. destruct (client s); exact H.
  - unfold reset_restart. apply startClient_failure_idle.
    unfold failure_idle. intros F. exfalso. revert F.
    match goal with
    | |- failure_state (clientState (clear_initializationTimeout ?x)) = true
         -> False =>
        pose proof (clear_initializationTimeout_fields x) as P;
        cbv zeta in P;
        destruct P as [_ [_ [_ [_ [_ [_ [_ [P _]]]]]]]]; rewrite P
    end.
    cbn. discriminate.
Qed.

Lemma reachable_failure_idle (s : Session) : reachable s -> failure_idle s.
Proof.
  intros [c [tr ->]].
  assert (B : failure_idle (boot c))
    by (destruct c; unfold failure_idle; cbn; auto; discriminate).
  revert B. generalize (boot c). unfold run.
  induction tr as [|e tr IH]; intros s0 B; cbn [fold_left]; [exact B|].
  apply IH. apply failure_idle_step. exact B.
Qed.

Lemma get_whatsapp_qr_failure
    (render : string -> option string) (now : Z) (ctor_ok : bool) (s : Session) :
  failure_state (clientState s) = true -> isInitializing s = false ->
  get_whatsapp_qr render now ctor_ok s = (Reconnecting, startClient ctor_ok s).
Proof.
  intros F I. unfold get_whatsapp_qr. unfold failure_state in F.
  rewrite F, I.
  apply failure_state_spec in F.
  assert (Q : state_is (clientState s) Qr = false)
    by (apply state_is_false; destruct F as [->|[->| ->]]; discriminate).
  assert (Rd : state_is (clientState s) Ready = false)
    by (apply state_is_false; destruct F as [->|[->| ->]]; discriminate).
  assert (In : state_is (clientState s) Initializing = false)
    by (apply state_is_false; destruct F as [->|[->| ->]]; discriminate).
  rewrite Q, Rd, In. reflexivity.
Qed.

(** X5.  In every reachable session in state [Disconnected],
    [AuthFailure] or [Error], a status query answers 'Client is
    reconnecting' and restarts the client.  When the construction succeeds
    exactly one client is built and the state is [Initializing]; any query
    that follows at once answers 'Client is initializing' and builds
    nothing more.  When the construction fails the state is [Error] again
    with nothing built. *)
Theorem status_query_recovers
    (render : string -> option string) (now : Z) (s : Session) :
  reachable s -> failure_state (clientState s) = true ->
  (forall ctor_ok,
      fst (get_whatsapp_qr render now ctor_ok s) = Reconnecting) /\
  (let s1 := snd (get_whatsapp_qr render now true s) in
   clientState s1 = Initializing /\ constructed s1 = S (constructed s) /\
   forall render' now' ctor_ok',
     get_whatsapp_qr render' now' ctor_ok' s1 = (InitializingWait, s1)) /\
  (let s1 := snd (get_whatsapp_qr render now false s) in
   clientState s1 = Error /\ constructed s1 = constructed s /\
   isInitializing s1 = false).
Proof.
  intros R F. pose proof (reachable_failure_idle s R F) as I.
  split; [|split].
  - intros ctor_ok. rewrite get_whatsapp_qr_failure by assumption. reflexivity.
  - rewrite get_whatsapp_qr_failure by assumption. cbn [snd].
    pose proof (startClient_proceeds s I) as P. cbv zeta in P.
    destruct P as [St [I1 [_ [C _]]]].
    split; [exact St|]. split; [exact C|].
    intros render' now' ctor_ok'. unfold get_whatsapp_qr.
    rewrite St. cbn. reflexivity.
  - rewrite get_whatsapp_qr_failure by assumption. cbn [snd].
    unfold startClient. rewrite I.
    destruct (state_is (clientState s) Initializing && negb false); cbn; auto.
Qed.

Lemma status_query_recovers_witness :
  let s := on_auth_failure (boot true) in
  fst (get_whatsapp_qr (fun p => Some p) 1700000000000 true s) = Reconnecting /\
  constructed (snd (get_whatsapp_qr (fun p => Some p) 1700000000000 true s)) = 2.
Proof.
  intros s.
  assert (R : reachable s) by (exists true, [EvAuthFailure]; reflexivity).
  destruct (status_query_recovers (fun p => Some p) 1700000000000 s R eq_refl)
    as [A [[_ [B _]] _]].
  split; [apply A | exact B].
Defined.

(** X6.  A status query builds a client and changes the state only from
    [Disconnected], [AuthFailure] or [Error] with no initialization in
    flight: in any other session the state, the in-flight flag, the client,
    the number of clients built, the identity, the reconnection counter and
    the pending timers are left as they are. *)
Theorem status_query_otherwise_inert
    (render : string -> option string) (now : Z) (ctor_ok : bool) (s : Session) :
  failure_state (clientState s) = false \/ isInitializing s = true ->
  let s' := snd (get_whatsapp_qr render now ctor_ok s) in
  fst (get_whatsapp_qr render now ctor_ok s) <> Reconnecting /\
  clientState s' = clientState s /\ isInitializing s' = isInitializing s /\
  client s' = client s /\ constructed s' = constructed s /\
  sessionInfo s' = sessionInfo s /\
  reconnectAttempts s' = reconnectAttempts s /\ timers s' = timers s.
Proof.
  intros H. cbv zeta. unfold get_whatsapp_qr.
  destruct (state_is (clientState s) Qr && truthy_string (qrCodeData s)).
  - destruct (qr_expired now s); [cbn; repeat split; discriminate|].
    destruct (qrCodeData s) as [p|]; [destruct (render p)|];
      cbn; repeat split; discriminate.
  - destruct (state_is (clientState s) Ready);
      [cbn; repeat split; discriminate|].
    destruct (state_is (clientState s) Initializing || isInitializing s) eqn:I;
      [cbn; repeat split; discriminate|].
    apply orb_false_iff in I as [_ I].
    fold (failure_state (clientState s)).
    destruct H as [F|I']; [|congruence].
    rewrite F. cbn. repeat split; discriminate.
Qed.

Lemma status_query_otherwise_inert_witness :
  let s' := snd (get_whatsapp_qr (fun p => Some p) 1700000000000 true
                   (boot true)) in
  clientState s' = Initializing /\ constructed s' = 1.
Proof.
  pose proof (status_query_otherwise_inert (fun p => Some p) 1700000000000
                true (boot true) (or_introl eq_refl)) as H.
  cbv zeta in H. destruct H as [_ [A [_ [_ [B _]]]]].
  split; [exact A | exact B].
Defined.

(** ** Forced reset and its polling *)

Lemma checkQR_answers (between : list (list Event)) :
  forall attempts checks s,
    attempts <= 15 -> 16 - attempts <= List.length between ->
    exists r n s',
      checkQR attempts checks between s = Some (r, checks + n, s') /\
      1 <= n <= 16 - attempts /\
      nth_error (sessions_seen between s) (n - 1) = Some s' /\
      (r = QrGenerated <-> qr_ready s' = true) /\
      (forall k sk, k < n - 1 ->
         nth_error (sessions_seen between s) k = Some sk ->
         qr_ready sk = false) /\
      (r = QrGenerationFailed -> n = 16 - attempts).
Proof.
  induction between as [|tr rest IH]; intros attempts checks s A L.
  - cbn [List.length] in L. lia.
  - cbn [checkQR sessions_seen]. fold (qr_ready (run tr s)).
    destruct (qr_ready (run tr s)) eqn:Q.
    + exists QrGenerated, 1, (run tr s).
      split; [f_equal; f_equal; f_equal; lia|].
      split; [lia|]. split; [reflexivity|].
      split; [tauto|]. split; [intros k sk K; lia | discriminate].
    + change CHECK_QR_MAX_ATTEMPTS with 15.
      destruct (Nat.ltb attempts 15) eqn:Lt.
      * apply Nat.ltb_lt in Lt. cbn [List.length] in L.
        destruct (IH (S attempts) (S checks) (run tr s)) as
          (r & n & s' & E & B & N & Iff & Before & Fail); [lia | lia |].
        exists r, (S n), s'.
        split; [rewrite E; f_equal; f_equal; f_equal; lia|].
        split; [lia|].
        split.
        { replace (S n - 1) with (S (n - 1)) by lia. exact N. }
        split; [exact Iff|].
        split.
        { intros k sk K Hk. destruct k as [|k].
          - cbn in Hk. injection Hk as <-. exact Q.
          - cbn [nth_error] in Hk. apply (Before k sk); [lia | exact Hk]. }
        intros F. specialize (Fail F). lia.
      * apply Nat.ltb_ge in Lt.
        exists QrGenerationFailed, 1, (run tr s).
        split; [f_equal; f_equal; f_equal; lia|].
        split; [lia|]. split; [reflexivity|].
        split; [split; [discriminate | congruence]|].
        split; [intros k sk K; lia | intros _; lia].
Qed.

(** X7.  The polling of the forced reset answers after at most 16 runs of
    [checkQR], that is within 32000 ms, whatever happens to the session
    meanwhile.  It answers 'QR code generated' at the first run that finds
    the state [Qr] with a payload, and 'Failed to generate QR code' only
    after 16 runs that all found none. *)
Theorem reset_polling_bounded
    (ctor_ok : bool) (during : list Event) (between : list (list Event))
    (s : Session) :
  16 <= List.length between ->
  let s0 := reset_restart ctor_ok (run during (reset_teardown s)) in
  exists r n s',
    post_whatsapp_qr ctor_ok during between s = Some (r, n, s') /\
    1 <= n <= 16 /\
    (CHECK_QR_INTERVAL * Z.of_nat n <= 32000)%Z /\
    nth_error (sessions_seen between s0) (n - 1) = Some s' /\
    (r = QrGenerated <-> qr_ready s' = true) /\
    (forall k sk, k < n - 1 ->
       nth_error (sessions_seen between s0) k = Some sk ->
       qr_ready sk = false) /\
    (r = QrGenerationFailed -> n = 16).
Proof.
  intros L s0. unfold post_whatsapp_qr. fold s0.
  destruct (checkQR_answers between 0 0 s0) as
    (r & n & s' & E & B & N & Iff & Before & Fail); [lia | lia |].
  exists r, n, s'. cbn [Nat.add] in E.
  split; [exact E|]. split; [lia|].
  split; [unfold CHECK_QR_INTERVAL; lia|].
  split; [exact N|]. split; [exact Iff|]. split; [exact Before|].
  intros F. specialize (Fail F). lia.
Qed.

Lemma reset_polling_bounded_witness :
  exists s',
    post_whatsapp_qr true []
      ([] :: [] :: [EvQr "2@k3Tq" 1700000000000] :: repeat [] 13)
      (boot true)
    = Some (QrGenerated, 3, s').
Proof.
  assert (L : 16 <= List.length
                      ([] :: [] :: [EvQr "2@k3Tq" 1700000000000]
                          :: repeat (@nil Event) 13))
    by (cbn; lia).
  destruct (reset_polling_bounded true []
              ([] :: [] :: [EvQr "2@k3Tq" 1700000000000] :: repeat [] 13)
              (boot true) L)
    as (r & n & s' & E & _).
  exists s'. rewrite E. vm_compute in E. injection E as <- <- <-.
  reflexivity.
Defined.

Lemma filter_fresh (n : nat) (l : list Timer) :
  fresh_list n l = true ->
  filter (fun t => negb (Nat.eqb (handle t) n)) l = l.
Proof.
  unfold fresh_list. induction l as [|t l IH]; [reflexivity|].
  cbn [forallb filter]. intros H. apply andb_true_iff in H as [Ht Hl].
  apply Nat.ltb_lt in Ht.
  destruct (Nat.eqb (handle t) n) eqn:E.
  - apply Nat.eqb_eq in E. lia.
  - cbn [negb]. rewrite IH by exact Hl. reflexivity.
Qed.

(** X8.  A forced reset rebuilds the client even while an initialization
    is in flight: after it the state is [Initializing], exactly one more
    client has been built, QR payload and identity are null, and in a
    reachable session exactly one watchdog is pending.  The reconnection
    counter is left as it was: a forced reset does not give the automatic
    retries back. *)
Theorem forced_reset_rebuilds (s : Session) :
  reachable s ->
  let s' := reset_restart true s in
  clientState s' = Initializing /\ isInitializing s' = true /\
  client s' = Some (constructed s) /\ constructed s' = S (constructed s) /\
  qrCodeData s' = None /\ qrGeneratedTime s' = None /\
  sessionInfo s' = None /\ sessionPhone s' = None /\
  watchdogs s' = [mkTimer (nextHandle s) CbWatchdog 30000] /\
  reconnectAttempts s' = reconnectAttempts s.
Proof.
  intros R s'. pose proof (reachable_watchdog_live s R) as L.
  pose proof (watchdogs_cleared s L) as C.
  subst s'. unfold reset_restart.
  match goal with
  | |- context [startClient true ?x] =>
      set (x0 := x);
      assert (I : isInitializing x0 = false);
      [ subst x0;
        match goal with
        | |- isInitializing (clear_initializationTimeout ?y) = false =>
            pose proof (clear_initializationTimeout_fields y) as P;
            cbv zeta in P; destruct P as [_ [_ [_ [_ [P _]]]]]; rewrite P;
            reflexivity
        end
      | ]
  end.
  pose proof (startClient_proceeds x0 I) as P. cbv zeta in P.
  destruct P as [P1 [P2 [P3 [P4 [_ P6]]]]].
  pose proof (startClient_keeps true x0) as K. cbv zeta in K.
  destruct K as [K1 [K2 [K3 [K4 [K5 _]]]]].
  assert (F : client x0 = client s /\ qrCodeData x0 = None /\
              sessionPhone x0 = None /\ sessionInfo x0 = None /\
              reconnectAttempts x0 = reconnectAttempts s /\
              qrGeneratedTime x0 = None /\ constructed x0 = constructed s /\
              nextHandle x0 = nextHandle s).
  { subst x0.
    match goal with
    | |- context [clear_initializationTimeout ?y] =>
        pose proof (clear_initializationTimeout_fields y) as Q;
        cbv zeta in Q; cbn in Q
    end.
    intuition congruence. }
  destruct F as [F1 [F2 [F3 [F4 [F5 [F6 [F7 F8]]]]]]].
  assert (W : watchdogs x0 = []).
  { subst x0. revert C. unfold clear_initializationTimeout.
    cbn [initializationTimeout set_clientState set_isInitializing
         set_sessionInfo set_sessionPhone set_qrGeneratedTime set_qrCodeData].
    destruct (initializationTimeout s); intros C; exact C. }
  split; [exact P1|]. split; [exact P2|].
  split; [rewrite P3, F7; reflexivity|].
  split; [rewrite P4, F7; reflexivity|].
  split; [congruence|]. split; [congruence|].
  split; [congruence|]. split; [congruence|].
  split; [|congruence].
  unfold watchdogs in *. rewrite P6, filter_app, W, F8. reflexivity.
Qed.

Lemma forced_reset_rebuilds_witness :
  isInitializing (boot true) = true /\
  constructed (reset_restart true (boot true)) = 2 /\
  watchdogs (reset_restart true (boot true)) = [mkTimer 1 CbWatchdog 30000].
Proof.
  assert (R : reachable (boot true)) by (exists true, []; reflexivity).
  pose proof (forced_reset_rebuilds (boot true) R) as H. cbv zeta in H.
  destruct H as [_ [_ [_ [A [_ [_ [_ [_ [B _]]]]]]]]].
  split; [reflexivity|]. split; [exact A | exact B].
Defined.

(** X9.  When building the client throws, [startClient] leaves no trace
    but the state: in a reachable session with no initialization in flight
    the state becomes [Error], the flag is dropped again, the watchdog it
    had just set is cleared, so the pending timers are those of before and
    no retry is scheduled, and no client is built. *)
Theorem failed_construction_leaves_no_timer (s : Session) :
  reachable s -> isInitializing s = false ->
  let s' := startClient false s in
  clientState s' = Error /\ isInitializing s' = false /\
  timers s' = timers s /\ initializationTimeout s' = None /\
  client s' = client s /\ constructed s' = constructed s.
Proof.
  intros R I s'. pose proof (reachable_fresh s R) as F.
  unfold fresh_handles in F.
  assert (T : filter (fun t => negb (Nat.eqb (handle t) (nextHandle s)))
                (timers s ++
                 [mkTimer (nextHandle s) CbWatchdog INITIALIZATION_TIMEOUT])
              = timers s).
  { rewrite filter_app, filter_fresh by exact F. cbn.
    rewrite Nat.eqb_refl. cbn. apply app_nil_r. }
  subst s'. unfold startClient. rewrite I.
  destruct (state_is (clientState s) Initializing && negb false); cbn;
    rewrite T; auto 10.
Qed.

Lemma failed_construction_leaves_no_timer_witness :
  let s := on_disconnected "NAVIGATION" (boot true) in
  clientState (startClient false s) = Error /\
  timers (startClient false s) = [].
Proof.
  intros s.
  assert (R : reachable s)
    by (exists true, [EvDisconnected "NAVIGATION"]; reflexivity).
  pose proof (failed_construction_leaves_no_timer s R eq_refl) as H.
  cbv zeta in H. destruct H as [A [_ [B _]]].
  split; [exact A | exact B].
Defined.

(** * Further properties of the bulk senders *)

(** ** Pacing of the WhatsApp loop *)

Lemma contact_effects_counts (message : string) (contacts : list Contact) :
  count_delays (flat_map (contact_effects message) contacts)
  = List.length (attempted contacts) /\
  List.length (sent_messages (flat_map (contact_effects message) contacts))
  = List.length (accepted_phones contacts) /\
  Forall (fun e => is_delay e = true -> e = EDelay 10000)
         (flat_map (contact_effects message) contacts).
Proof.
  unfold count_delays, attempted, accepted_phones, sent_messages.
  induction contacts as [|c cs [IH1 [IH2 IH3]]];
    [split; [|split]; [reflexivity | reflexivity | constructor]|].
  cbn [flat_map filter].
  rewrite filter_app, !length_app, flat_map_app, length_app, IH1, IH2.
  unfold contact_effects at 1 2 3.
  destruct (invalid_phone c); cbn [negb].
  - split; [|split]; [reflexivity | reflexivity | exact IH3].
  - destruct (phone c) as [p|t text].
    + split; [|split]; [reflexivity | reflexivity |].
      cbn [app]. constructor; [discriminate|].
      constructor; [reflexivity | exact IH3].
    + split; [|split]; [reflexivity | reflexivity |].
      cbn [app]. constructor; [reflexivity | exact IH3].
Qed.

Lemma accepted_le_attempted (contacts : list Contact) :
  List.length (accepted_phones contacts) <= List.length (attempted contacts)
  /\ List.length (attempted contacts) <= List.length contacts
  /\ (forallb (fun c => is_string (phone c)) contacts = true ->
      List.length (attempted contacts)
      = List.length (accepted_phones contacts)).
Proof.
  unfold accepted_phones, attempted.
  induction contacts as [|c cs [IH1 [IH2 IH3]]];
    [split; [|split]; [cbn; lia | cbn; lia | reflexivity]|].
  cbn [flat_map filter forallb]. rewrite length_app.
  destruct (invalid_phone c); cbn [negb List.length].
  - split; [|split]; [cbn; lia | lia |].
    intros H. apply andb_true_iff in H as [_ H]. cbn. exact (IH3 H).
  - destruct (phone c) as [p|t text]; cbn [List.length is_string].
    + split; [|split]; [lia | lia |].
      intros H. cbn in H. rewrite (IH3 H). reflexivity.
    + split; [|split]; [lia | lia |]. intros H. discriminate H.
Qed.

(** X10.  The WhatsApp loop does, contact by contact and in order: nothing
    for a contact that fails the validation; one [sendMessage] followed by
    one wait of 10000 ms for a contact that passes it with a string,
    whether the send succeeds or throws and also after the last contact;
    one wait of 10000 ms and no [sendMessage] for a contact that passes it
    with a phone that is not a string.  So the loop waits 10000 ms times
    the number of contacts that pass the validation, which is at least the
    number of messages and at most the number of contacts, and equals the
    number of messages when every phone is a string. *)
Theorem whatsapp_loop_pacing
    (World : Type) (sendMessage : World -> string -> string -> option string * World)
    (w : World) (contacts : list Contact) (message : string) :
  let log := snd (fst (send_contacts World sendMessage w contacts message)) in
  log = flat_map
          (fun c =>
             if invalid_phone c then []
             else match phone c with
                  | JsString p =>
                      [EMessage (chat_address p) message; EDelay 10000]
                  | JsOther _ _ => [EDelay 10000]
                  end)
          contacts /\
  Forall (fun e => is_delay e = true -> e = EDelay 10000) log /\
  count_delays log = List.length (attempted contacts) /\
  List.length (sent_messages log) = List.length (accepted_phones contacts) /\
  List.length (sent_messages log) <= count_delays log /\
  count_delays log <= List.length contacts /\
  (forallb (fun c => is_string (phone c)) contacts = true ->
   count_delays log = List.length (sent_messages log)).
Proof.
  cbv zeta. rewrite send_contacts_log.
  destruct (contact_effects_counts message contacts) as [D [M F]].
  destruct (accepted_le_attempted contacts) as [L1 [L2 L3]].
  split; [reflexivity|].
  split; [exact F|].
  split; [exact D|].
  split; [exact M|].
  rewrite D, M.
  split; [exact L1|].
  split; [exact L2 | exact L3].
Qed.

(** A number, a string and a rejected phone: two waits, one message. *)
Example loop_pacing_with_number_run :
  snd (fst (send_contacts unit (fun w _ _ => (None, w)) tt
              [ mkContact (Some "Asha") (JsOther true "9876543210");
                mkContact (Some "Meera") (JsString "919812345678");
                mkContact (Some "Ravi") (JsString "98765-43210") ]
              "Hello"))
  = [EDelay 10000; EMessage "919812345678@c.us" "Hello"; EDelay 10000].
Proof. reflexivity. Qed.

(** ** Requests that are turned down *)

(** X11.  A request to [POST /api/whatsapp/send] that is not answered
    with the result list (no session, no contacts, empty message) has no
    effect: nothing is sent, nothing is waited for, the world is as it
    was.  A request answered with results had a client and an identity, a
    non-empty contact list and a message that is not blank, and gets one
    result per contact. *)
Theorem rejected_send_has_no_effect
    (World : Type) (sendMessage : World -> string -> string -> option string * World)
    (trim : string -> string) (s : Session) (w : World)
    (contacts : option (list Contact)) (message : option string) :
  let r := post_whatsapp_send World sendMessage trim s w contacts message in
  ((forall results, fst (fst r) <> SendComplete results) ->
     snd (fst r) = [] /\ snd r = w) /\
  (forall results, fst (fst r) = SendComplete results ->
     client s <> None /\ sessionInfo s <> None /\
     exists cs m, contacts = Some cs /\ cs <> [] /\ message = Some m /\
                  m <> "" /\ trim m <> "" /\
                  map contact results = cs).
Proof.
  cbv zeta. unfold post_whatsapp_send.
  destruct (client s) as [c|]; [|cbn; split; [auto | discriminate]].
  destruct (sessionInfo s) as [i|]; [|cbn; split; [auto | discriminate]].
  cbn [truthy_object negb orb].
  destruct contacts as [[|c0 cs]|]; try (cbn; split; [auto | discriminate]).
  destruct message as [m|]; [|cbn; split; [auto | discriminate]].
  destruct (negb (truthy_string (Some m))) eqn:T;
    [cbn; split; [auto | discriminate]|].
  destruct (String.eqb (trim m) "") eqn:B;
    [cbn; split; [auto | discriminate]|].
  cbn [orb].
  pose proof (send_contacts_contacts World sendMessage m (c0 :: cs) w) as M.
  destruct (send_contacts World sendMessage w (c0 :: cs) m) as [[r l] w1].
  cbn [fst snd] in *. split.
  - intros H. exfalso. exact (H r eq_refl).
  - intros results E. injection E as <-.
    split; [discriminate|]. split; [discriminate|].
    exists (c0 :: cs), m. repeat split; try discriminate; try exact M.
    + intros ->. discriminate T.
    + apply String.eqb_neq. exact B.
Qed.

(** ** The email endpoint *)

Lemma chunk_sizes_length (size : nat) :
  1 <= size ->
  forall fuel n, n <= fuel ->
    List.length (chunk_sizes fuel size n) = (n + size - 1) / size.
Proof.
  intros S1. induction fuel as [|fuel IH]; intros n L.
  - replace n with 0 by lia. cbn [chunk_sizes List.length Nat.add].
    symmetry. apply Nat.div_small. lia.
  - cbn [chunk_sizes]. destruct (Nat.eqb n 0) eqn:E.
    + apply Nat.eqb_eq in E. subst n. cbn [List.length Nat.add].
      symmetry. apply Nat.div_small. lia.
    + apply Nat.eqb_neq in E. cbn [List.length]. rewrite IH by lia.
      destruct (Nat.le_gt_cases size n) as [G|G].
      * replace (n + size - 1) with ((n - size + size - 1) + 1 * size) by lia.
        rewrite Nat.div_add by lia. lia.
      * replace (n - size) with 0 by lia. cbn [Nat.add].
        rewrite (Nat.div_small (size - 1) size) by lia.
        apply (Nat.div_unique _ _ 1 (n - 1)); lia.
Qed.

Lemma chunks_count {A : Type} (size : nat) (l : list A) :
  1 <= size ->
  List.length (chunks size l) = (List.length l + size - 1) / size.
Proof.
  intros S1. rewrite <- (length_map (@List.length A)), chunks_sizes.
  apply chunk_sizes_length; [exact S1 | lia].
Qed.

Lemma delays_intersperse (d : Z) (bs : list (list EmailData)) (e : Effect) :
  In e (intersperse (EDelay d) (map batch_effect bs)) ->
  is_delay e = true -> e = EDelay d.
Proof.
  induction bs as [|b bs IH]; [intros []|].
  cbn [map intersperse]. destruct bs as [|b' bs].
  - intros [<-|[]]. discriminate.
  - cbn [map]. cbn [map] in IH.
    intros [<-|[<-|H]]; [discriminate | reflexivity | apply IH; exact H].
Qed.

Lemma success_failed_partition (results : list EmailResult) :
  List.length (filter is_success results)
  + List.length (filter is_failed results)
  = List.length results.
Proof.
  induction results as [|r rs IH]; [reflexivity|].
  destruct r; cbn [filter is_success is_failed List.length]; lia.
Qed.

(** X12.  [POST /api/send-emails] with at least one address and a
    non-empty subject and body always answers with the result list: the
    results are those of [sendEmails] over the whole list, the two counts
    of the message add up to the number of addresses, and the request
    waits 30000 ms once for every full batch of 20 that is followed by
    another address.  Without addresses, or without subject or body, it
    answers 400 and nothing is sent. *)
Theorem send_emails_endpoint
    (World : Type)
    (sendMail : World -> string -> string -> string -> (string + string) * World)
    (w : World) (emails : list EmailData) (subject body : string) :
  emails <> [] -> subject <> "" -> body <> "" ->
  exists successCount failedCount log,
    post_send_emails World sendMail w (Some emails) (Some subject) (Some body)
    = Some (EmailsCompleted successCount failedCount
              (fst (sendEmails World sendMail w emails subject body)),
            log,
            snd (sendEmails World sendMail w emails subject body)) /\
    successCount + failedCount = List.length emails /\
    count_delays log = (List.length emails - 1) / 20 /\
    (forall e, In e log -> is_delay e = true -> e = EDelay 30000) /\
    post_send_emails World sendMail w None (Some subject) (Some body)
    = Some (NoAddresses, [], w) /\
    post_send_emails World sendMail w (Some []) (Some subject) (Some body)
    = Some (NoAddresses, [], w) /\
    (forall sj bd, sj = None \/ sj = Some "" \/ bd = None \/ bd = Some "" ->
       post_send_emails World sendMail w (Some emails) sj bd
       = Some (SubjectBodyRequired, [], w)).
Proof.
  intros NE NS NB.
  assert (S1 : 1 <= BATCH_SIZE) by (unfold BATCH_SIZE; lia).
  pose proof (sendEmailsInBatches_spec World sendMail subject body emails
                BATCH_SIZE BATCH_DELAY_MS w S1) as Sp.
  pose proof (sendEmails_addresses World sendMail subject body emails w) as Ad.
  assert (Len : List.length (fst (sendEmails World sendMail w emails subject body))
                = List.length emails).
  { rewrite <- (length_map result_email), Ad. apply length_map. }
  eexists _, _, _. split.
  - unfold post_send_emails. destruct emails as [|e es]; [contradiction|].
    destruct subject; [contradiction|]. destruct body; [contradiction|].
    cbn [truthy_string negb orb]. rewrite Sp. reflexivity.
  - split; [rewrite success_failed_partition; exact Len|].
    split.
    { rewrite count_delays_intersperse, chunks_count by exact S1.
      unfold BATCH_SIZE.
      assert (P : 1 <= List.length emails)
        by (destruct emails; [contradiction | cbn; lia]).
      replace (List.length emails + 20 - 1)
        with ((List.length emails - 1) + 1 * 20) by lia.
      rewrite Nat.div_add by lia. lia. }
    split.
    { intros e. apply delays_intersperse. }
    split; [reflexivity|]. split; [reflexivity|].
    intros sj bd H. unfold post_send_emails.
    destruct emails as [|e es]; [contradiction|].
    destruct H as [->|[->|[->| ->]]]; cbn; try reflexivity;
      destruct sj as [[|? ?]|]; reflexivity.
Qed.

Lemma send_emails_endpoint_witness :
  exists log,
    post_send_emails nat (refuse "b@example.org") 0
      (Some [ mkEmailData "a@example.org" 1 "Email";
              mkEmailData "b@example.org" 2 "Email" ])
      (Some "Subject") (Some "Body")
    = Some (EmailsCompleted 1 1
              [ MailSuccess "a@example.org" "id-a@example.org";
                MailFailed "b@example.org" "Mailbox unavailable" ],
            log, 2).
Proof.
  destruct (send_emails_endpoint nat (refuse "b@example.org") 0
              [ mkEmailData "a@example.org" 1 "Email";
                mkEmailData "b@example.org" 2 "Email" ]
              "Subject" "Body")
    as (sc & fc & log & E & _); try discriminate.
  exists log. rewrite E. vm_compute in E. injection E as <- <- <-.
  reflexivity.
Defined.

(** ** One transport call per recipient *)

Lemma sendEmails_recording (answer : string -> string + string)
    (subject body : string) (emails : list EmailData)
    (w : list (string * string * string)) :
  snd (sendEmails _ (recording answer) w emails subject body)
  = w ++ map (fun e => (email e, subject, body)) emails /\
  fst (sendEmails _ (recording answer) w emails subject body)
  = map (fun e => match answer (email e) with
                  | inl messageId => MailSuccess (email e) messageId
                  | inr message => MailFailed (email e) message
                  end) emails.
Proof.
  revert w. induction emails as [|e es IH]; intros w.
  - cbn. rewrite app_nil_r. split; reflexivity.
  - cbn [sendEmails recording map].
    destruct (IH (w ++ [(email e, subject, body)])) as [IH1 IH2].
    destruct (sendEmails _ (recording answer)
                (w ++ [(email e, subject, body)]) es subject body)
      as [r w2].
    cbn [fst snd] in *. rewrite IH1, IH2, <- app_assoc. split; reflexivity.
Qed.

(** X13.  [sendEmails] calls the transport exactly once per recipient, in
    the order of the list, each time with the same subject and body, and
    never again after a failure; the result for a recipient is the answer
    of its own call.  [sendEmailsInBatches] makes the same calls. *)
Theorem one_call_per_recipient
    (answer : string -> string + string) (subject body : string)
    (emails : list EmailData) (batchSize : nat) (delayMs : Z) :
  1 <= batchSize ->
  snd (sendEmails _ (recording answer) [] emails subject body)
  = map (fun e => (email e, subject, body)) emails /\
  fst (sendEmails _ (recording answer) [] emails subject body)
  = map (fun e => match answer (email e) with
                  | inl messageId => MailSuccess (email e) messageId
                  | inr message => MailFailed (email e) message
                  end) emails /\
  option_map snd
    (sendEmailsInBatches _ (recording answer) [] emails subject body
       batchSize delayMs)
  = Some (map (fun e => (email e, subject, body)) emails).
Proof.
  intros S1.
  destruct (sendEmails_recording answer subject body emails []) as [A B].
  cbn [app] in A.
  split; [exact A|]. split; [exact B|].
  rewrite sendEmailsInBatches_spec by exact S1. cbn [option_map snd].
  rewrite A. reflexivity.
Qed.

Lemma one_call_per_recipient_witness :
  snd (sendEmails _
         (recording (fun to => if String.eqb to "b@example.org"
                               then inr "Mailbox unavailable" else inl "id"))
         [] [ mkEmailData "a@example.org" 1 "Email";
              mkEmailData "b@example.org" 2 "Email";
              mkEmailData "c@example.org" 3 "Email" ]
         "Subject" "Body")
  = [ ("a@example.org", "Subject", "Body");
      ("b@example.org", "Subject", "Body");
      ("c@example.org", "Subject", "Body") ].
Proof.
  assert (S1 : 1 <= 2) by lia.
  destruct (one_call_per_recipient
              (fun to => if String.eqb to "b@example.org"
                         then inr "Mailbox unavailable" else inl "id")
              "Subject" "Body"
              [ mkEmailData "a@example.org" 1 "Email";
                mkEmailData "b@example.org" 2 "Email";
                mkEmailData "c@example.org" 3 "Email" ] 2 30000 S1)
    as [A _].
  exact A.
Defined.

(** * Properties of the spreadsheet helpers *)

(** ** The matcher decides the language of the expression *)

Lemma append_nil_inv (s1 s2 : string) :
  (s1 ++ s2)%string = "" -> s1 = "" /\ s2 = "".
Proof. destruct s1; cbn; intros H; [auto | discriminate H]. Qed.

Lemma append_empty_r (s : string) : (s ++ "")%string = s.
Proof. induction s as [|c s IH]; cbn; [|rewrite IH]; reflexivity. Qed.

Lemma append_assoc (s1 s2 s3 : string) :
  ((s1 ++ s2) ++ s3)%string = (s1 ++ (s2 ++ s3))%string.
Proof. induction s1 as [|c s1 IH]; cbn; [|rewrite IH]; reflexivity. Qed.

Lemma nullable_spec (r : regex) : nullable r = true <-> lang r "".
Proof.
  split.
  - induction r; cbn [nullable]; intros H; try discriminate H.
    + constructor.
    + apply andb_true_iff in H as [H1 H2].
      change "" with ("" ++ "")%string. constructor; auto.
    + apply orb_true_iff in H as [H|H];
        [apply LAltL | apply LAltR]; auto.
    + constructor.
  - intros H. remember "" as e eqn:E.
    induction H; cbn [nullable]; try discriminate E; try reflexivity.
    + apply append_nil_inv in E as [E1 E2].
      rewrite IHlang1, IHlang2 by assumption. reflexivity.
    + rewrite IHlang by assumption. reflexivity.
    + rewrite IHlang by assumption. apply orb_true_r.
Qed.

Lemma lang_star_cons (r : regex) (c : ascii) (s : string) :
  lang (Star r) (String c s) ->
  exists s1 s2, s = (s1 ++ s2)%string /\ lang r (String c s1) /\
                lang (Star r) s2.
Proof.
  intros H. remember (Star r) as r0 eqn:R. remember (String c s) as s0 eqn:S.
  revert c s S. induction H; intros c0 s0 S; try discriminate R;
    try discriminate S.
  injection R as ->.
  destruct s1 as [|c1 s1].
  - cbn in S. apply IHlang2; [reflexivity | exact S].
  - cbn in S. injection S as -> <-.
    exists s1, s2. auto.
Qed.

Lemma deriv_spec (r : regex) :
  forall (c : ascii) (s : string), lang (deriv c r) s <-> lang r (String c s).
Proof.
  induction r as [| |p|r1 IH1 r2 IH2|r1 IH1 r2 IH2|r1 IH1]; intros c s;
    cbn [deriv].
  - split; intros H; inversion H.
  - split; intros H; inversion H.
  - destruct (p c) eqn:P; split; intros H.
    + inversion H; subst. constructor. exact P.
    + inversion H; subst. constructor.
    + inversion H.
    + inversion H; subst. congruence.
  - assert (Fwd : lang (Cat (deriv c r1) r2) s -> lang (Cat r1 r2) (String c s)).
    { intros H. inversion H as [| |? ? s1 s2 H1 H2| | | |]; subst.
      apply IH1 in H1. change (String c (s1 ++ s2))
        with ((String c s1) ++ s2)%string. constructor; assumption. }
    assert (Bwd : lang (Cat r1 r2) (String c s) ->
                  lang (Cat (deriv c r1) r2) s \/
                  (lang r1 "" /\ lang (deriv c r2) s)).
    { intros H. inversion H as [| |? ? s1 s2 H1 H2 E1 E2| | | |]; subst.
      destruct s1 as [|c1 s1].
      - cbn in E2. subst s2. right. split; [exact H1 | apply IH2; exact H2].
      - cbn in E2. injection E2 as -> <-. left.
        constructor; [apply IH1; exact H1 | exact H2]. }
    destruct (nullable r1) eqn:N; split; intros H.
    + inversion H; subst; [apply Fwd; assumption|].
      change (String c s) with ("" ++ String c s)%string.
      constructor; [apply nullable_spec; exact N | apply IH2; assumption].
    + destruct (Bwd H) as [L|[_ R]]; [apply LAltL | apply LAltR]; assumption.
    + apply Fwd. exact H.
    + destruct (Bwd H) as [L|[E _]]; [exact L|].
      apply nullable_spec in E. congruence.
  - split; intros H; inversion H; subst;
      try (apply LAltL; apply IH1; assumption);
      try (apply LAltR; apply IH2; assumption).
  - split; intros H.
    + inversion H as [| |? ? s1 s2 H1 H2| | | |]; subst.
      apply IH1 in H1.
      change (String c (s1 ++ s2)) with ((String c s1) ++ s2)%string.
      constructor; assumption.
    + apply lang_star_cons in H as [s1 [s2 [-> [H1 H2]]]].
      constructor; [apply IH1; exact H1 | exact H2].
Qed.

Lemma test_spec (r : regex) (s : string) : test r s = true <-> lang r s.
Proof.
  revert r. induction s as [|c s IH]; intros r; cbn [test].
  - apply nullable_spec.
  - rewrite IH. apply deriv_spec.
Qed.

(** ** Shapes of the two expressions *)

Lemma lang_cat (r1 r2 : regex) (s : string) :
  lang (Cat r1 r2) s
  <-> exists s1 s2, s = (s1 ++ s2)%string /\ lang r1 s1 /\ lang r2 s2.
Proof.
  split.
  - intros H. inversion H; subst. eauto.
  - intros [s1 [s2 [-> [H1 H2]]]]. constructor; assumption.
Qed.

Lemma lang_class (p : ascii -> bool) (s : string) :
  lang (Class p) s <-> exists c, s = String c "" /\ p c = true.
Proof.
  split.
  - intros H. inversion H; subst. eauto.
  - intros [c [-> P]]. constructor. exact P.
Qed.

Lemma lang_char (a : ascii) (s : string) :
  lang (Class (is_char a)) s <-> s = String a "".
Proof.
  rewrite lang_class. unfold is_char. split.
  - intros [c [-> E]]. apply Ascii.eqb_eq in E. subst c. reflexivity.
  - intros ->. exists a. split; [reflexivity | apply Ascii.eqb_refl].
Qed.

Lemma lang_eps (s : string) : lang Eps s <-> s = "".
Proof.
  split; [intros H; inversion H; reflexivity | intros ->; constructor].
Qed.

Lemma lang_star_class (p : ascii -> bool) (s : string) :
  lang (Star (Class p)) s <-> all_chars p s = true.
Proof.
  split.
  - intros H. remember (Star (Class p)) as r eqn:R.
    induction H; try discriminate R; [reflexivity|].
    injection R as ->. specialize (IHlang2 eq_refl).
    apply lang_class in H as [c [-> P]]. cbn. rewrite P, IHlang2. reflexivity.
  - induction s as [|c s IH]; cbn [all_chars]; intros H; [constructor|].
    apply andb_true_iff in H as [P H].
    change (String c s) with (String c "" ++ s)%string.
    constructor; [constructor; exact P | apply IH; exact H].
Qed.

Lemma lang_plus_class (p : ascii -> bool) (s : string) :
  lang (Plus (Class p)) s <-> s <> "" /\ all_chars p s = true.
Proof.
  unfold Plus. rewrite lang_cat. split.
  - intros [s1 [s2 [-> [H1 H2]]]].
    apply lang_class in H1 as [c [-> P]]. apply lang_star_class in H2.
    cbn. rewrite P, H2. split; [discriminate | reflexivity].
  - intros [N H]. destruct s as [|c s]; [contradiction|].
    cbn in H. apply andb_true_iff in H as [P H].
    exists (String c ""), s. split; [reflexivity|].
    split; [constructor; exact P | apply lang_star_class; exact H].
Qed.

Lemma lang_times_class (p : ascii -> bool) (n : nat) (s : string) :
  lang (Times n (Class p)) s <-> String.length s = n /\ all_chars p s = true.
Proof.
  revert s. induction n as [|n IH]; intros s; cbn [Times].
  - rewrite lang_eps. split.
    + intros ->. split; reflexivity.
    + intros [L _]. destruct s; [reflexivity | discriminate L].
  - rewrite lang_cat. split.
    + intros [s1 [s2 [-> [H1 H2]]]].
      apply lang_class in H1 as [c [-> P]]. apply IH in H2 as [L A].
      cbn. rewrite P, A, L. split; reflexivity.
    + intros [L A]. destruct s as [|c s]; [discriminate L|].
      cbn in L, A. apply andb_true_iff in A as [P A].
      exists (String c ""), s. split; [reflexivity|].
      split; [constructor; exact P | apply IH; split; [lia | exact A]].
Qed.

Lemma lang_upto_class (p : ascii -> bool) (n : nat) (s : string) :
  lang (UpTo n (Class p)) s <-> String.length s <= n /\ all_chars p s = true.
Proof.
  revert s. induction n as [|n IH]; intros s; cbn [UpTo].
  - rewrite lang_eps. split.
    + intros ->. split; [cbn; lia | reflexivity].
    + intros [L _]. destruct s; [reflexivity | cbn in L; lia].
  - unfold Opt. split.
    + intros H. inversion H as [| | |? ? ? H1|? ? ? H1| |]; subst.
      * apply lang_eps in H1. subst s. split; [cbn; lia | reflexivity].
      * apply lang_cat in H1 as [s1 [s2 [-> [H1 H2]]]].
        apply lang_class in H1 as [c [-> P]]. apply IH in H2 as [L A].
        cbn. rewrite P, A. split; [lia | reflexivity].
    + intros [L A]. destruct s as [|c s]; [apply LAltL; constructor|].
      cbn in L, A. apply andb_true_iff in A as [P A].
      apply LAltR. apply lang_cat.
      exists (String c ""), s. split; [reflexivity|].
      split; [constructor; exact P | apply IH; split; [lia | exact A]].
Qed.

Lemma all_chars_app (p : ascii -> bool) (s1 s2 : string) :
  all_chars p (s1 ++ s2) = all_chars p s1 && all_chars p s2.
Proof.
  induction s1 as [|c s1 IH]; cbn; [reflexivity|].
  rewrite IH. apply andb_assoc.
Qed.

Lemma length_append (s1 s2 : string) :
  String.length (s1 ++ s2) = String.length s1 + String.length s2.
Proof. induction s1 as [|c s1 IH]; cbn; [|rewrite IH]; reflexivity. Qed.

Lemma split_at (n : nat) (s : string) :
  n <= String.length s ->
  exists s1 s2, s = (s1 ++ s2)%string /\ String.length s1 = n.
Proof.
  revert s. induction n as [|n IH]; intros s L.
  - exists "", s. split; reflexivity.
  - destruct s as [|c s]; [cbn in L; lia|]. cbn in L.
    destruct (IH s) as [s1 [s2 [-> L1]]]; [lia|].
    exists (String c s1), s2. split; [reflexivity | cbn; lia].
Qed.

Lemma lang_between_class (p : ascii -> bool) (min max : nat) (s : string) :
  min <= max ->
  lang (Between min max (Class p)) s
  <-> min <= String.length s <= max /\ all_chars p s = true.
Proof.
  intros M. unfold Between. rewrite lang_cat. split.
  - intros [s1 [s2 [-> [H1 H2]]]].
    apply lang_times_class in H1 as [L1 A1].
    apply lang_upto_class in H2 as [L2 A2].
    rewrite length_append, all_chars_app, A1, A2. split; [lia | reflexivity].
  - intros [L A].
    destruct (split_at min s) as [s1 [s2 [-> L1]]]; [lia|].
    rewrite length_append in L. rewrite all_chars_app in A.
    apply andb_true_iff in A as [A1 A2].
    exists s1, s2. split; [reflexivity|].
    split; [apply lang_times_class | apply lang_upto_class];
      (split; [lia | assumption]).
Qed.

Lemma all_digits_all_chars (s : string) : all_digits s = all_chars is_digit s.
Proof. induction s as [|c s IH]; cbn; [|rewrite IH]; reflexivity. Qed.

Lemma isValidEmail_shape (s : string) :
  isValidEmail s = true
  <-> exists u v w,
        s = (u ++ "@" ++ v ++ "." ++ w)%string /\ word u /\ word v /\ word w.
Proof.
  unfold isValidEmail, emailRegex, word. rewrite test_spec.
  rewrite lang_cat. split.
  - intros [u [s1 [-> [Hu H1]]]]. apply lang_plus_class in Hu.
    apply lang_cat in H1 as [a [s2 [-> [Ha H2]]]]. apply lang_char in Ha.
    apply lang_cat in H2 as [v [s3 [-> [Hv H3]]]]. apply lang_plus_class in Hv.
    apply lang_cat in H3 as [d [w [-> [Hd Hw]]]]. apply lang_char in Hd.
    apply lang_plus_class in Hw. subst a d.
    exists u, v, w. auto.
  - intros [u [v [w [-> [Hu [Hv Hw]]]]]].
    exists u, ("@" ++ v ++ "." ++ w)%string. split; [reflexivity|].
    split; [apply lang_plus_class; exact Hu|].
    apply lang_cat. exists "@", (v ++ "." ++ w)%string.
    split; [reflexivity|]. split; [apply lang_char; reflexivity|].
    apply lang_cat. exists v, ("." ++ w)%string.
    split; [reflexivity|]. split; [apply lang_plus_class; exact Hv|].
    apply lang_cat. exists ".", w.
    split; [reflexivity|]. split; [apply lang_char; reflexivity|].
    apply lang_plus_class. exact Hw.
Qed.

Lemma phoneRegex_shape (s : string) :
  test phoneRegex s = true
  <-> exists sign d,
        s = (sign ++ d)%string /\ (sign = "" \/ sign = "+") /\
        7 <= String.length d <= 15 /\ all_digits d = true.
Proof.
  unfold phoneRegex. rewrite test_spec, lang_cat. split.
  - intros [sign [d [-> [Hs Hd]]]].
    apply lang_between_class in Hd; [|lia].
    exists sign, d. split; [reflexivity|].
    rewrite all_digits_all_chars. split; [|exact Hd].
    unfold Opt in Hs. inversion Hs as [| | |? ? ? H1|? ? ? H1| |]; subst.
    + apply lang_eps in H1. auto.
    + apply lang_char in H1. auto.
  - intros [sign [d [-> [Hs Hd]]]]. rewrite all_digits_all_chars in Hd.
    exists sign, d. split; [reflexivity|].
    split; [|apply lang_between_class; [lia | exact Hd]].
    unfold Opt. destruct Hs as [->| ->];
      [apply LAltL; constructor | apply LAltR; apply lang_char; reflexivity].
Qed.

(** ** Trimming *)

Lemma trim_end_idem (s : string) : trim_end (trim_end s) = trim_end s.
Proof.
  induction s as [|c s IH]; [reflexivity|].
  cbn [trim_end]. destruct (trim_end s) as [|d k] eqn:K.
  - destruct (is_space c) eqn:Sp; [reflexivity|].
    cbn [trim_end]. rewrite Sp. reflexivity.
  - cbn [trim_end]. cbn [trim_end] in IH. rewrite IH. reflexivity.
Qed.

Lemma trim_start_head (c : ascii) (s : string) :
  is_space c = false -> trim_start (String c s) = String c s.
Proof. intros H. cbn. rewrite H. reflexivity. Qed.

Lemma trim_end_head (c : ascii) (s : string) :
  is_space c = false -> exists k, trim_end (String c s) = String c k.
Proof.
  intros H. cbn [trim_end]. destruct (trim_end s) as [|d k].
  - rewrite H. eauto.
  - eauto.
Qed.

Lemma trim_start_no_lead (s : string) :
  trim_start s = "" \/
  exists c k, trim_start s = String c k /\ is_space c = false.
Proof.
  induction s as [|c s IH]; [left; reflexivity|].
  cbn [trim_start]. destruct (is_space c) eqn:Sp; [exact IH|].
  right. eauto.
Qed.

Lemma js_trim_idem (s : string) : js_trim (js_trim s) = js_trim s.
Proof.
  unfold js_trim.
  destruct (trim_start_no_lead s) as [E|[c [k [E Sp]]]]; rewrite E.
  - reflexivity.
  - destruct (trim_end_head c k Sp) as [k' E'].
    rewrite E', (trim_start_head c k' Sp), <- E'. apply trim_end_idem.
Qed.

Lemma trim_end_no_space (s : string) :
  all_chars (fun c => negb (is_space c)) s = true -> trim_end s = s.
Proof.
  induction s as [|c s IH]; [reflexivity|].
  cbn [all_chars trim_end]. intros H. apply andb_true_iff in H as [Sp H].
  apply negb_true_iff in Sp. rewrite (IH H).
  destruct s; [rewrite Sp|]; reflexivity.
Qed.

Lemma js_trim_no_space (s : string) :
  all_chars (fun c => negb (is_space c)) s = true -> js_trim s = s.
Proof.
  intros H. unfold js_trim.
  assert (E : trim_start s = s).
  { destruct s as [|c s]; [reflexivity|]. cbn in H.
    apply andb_true_iff in H as [Sp _]. apply negb_true_iff in Sp.
    apply trim_start_head. exact Sp. }
  rewrite E. apply trim_end_no_space. exact H.
Qed.

Lemma count_chars_app (p : ascii -> bool) (s1 s2 : string) :
  count_chars p (s1 ++ s2) = count_chars p s1 + count_chars p s2.
Proof.
  induction s1 as [|c s1 IH]; cbn; [reflexivity|]. rewrite IH. lia.
Qed.

Lemma word_facts (u : string) :
  word u ->
  1 <= String.length u /\ count_chars (is_char "@") u = 0 /\
  all_chars (fun c => negb (is_space c)) u = true.
Proof.
  intros [N A]. split; [destruct u; [contradiction | cbn; lia]|].
  clear N. induction u as [|c u IH]; [split; reflexivity|].
  cbn in A. apply andb_true_iff in A as [P A].
  unfold not_space_at in P. apply andb_true_iff in P as [Sp At].
  destruct (IH A) as [I1 I2]. cbn [count_chars all_chars].
  rewrite I1, I2, Sp.
  apply negb_true_iff in At. rewrite At. split; reflexivity.
Qed.

Lemma valid_email_facts (s : string) :
  isValidEmail s = true ->
  count_chars (is_char "@") s = 1 /\
  all_chars (fun c => negb (is_space c)) s = true /\
  5 <= String.length s /\ js_trim s = s.
Proof.
  intros H. apply isValidEmail_shape in H as [u [v [w [-> [Hu [Hv Hw]]]]]].
  apply word_facts in Hu as [Lu [Cu Su]].
  apply word_facts in Hv as [Lv [Cv Sv]].
  apply word_facts in Hw as [Lw [Cw Sw]].
  assert (A : all_chars (fun c => negb (is_space c))
                (u ++ "@" ++ v ++ "." ++ w) = true).
  { rewrite !all_chars_app, Su, Sv, Sw. reflexivity. }
  split.
  { rewrite !count_chars_app, Cu, Cv, Cw. reflexivity. }
  split; [exact A|]. split.
  { rewrite !length_append. cbn [String.length]. lia. }
  apply js_trim_no_space. exact A.
Qed.

(** X14.  [isValidEmail] accepts exactly the strings of the form
    [u@v.w] where [u], [v] and [w] are non-empty and hold neither white
    space nor ['@'].  An accepted string therefore holds exactly one ['@'],
    no white space, at least five characters, and [trim] leaves it as it
    is. *)
Theorem valid_email_shape (s : string) :
  (isValidEmail s = true
   <-> exists u v w,
         s = (u ++ "@" ++ v ++ "." ++ w)%string /\ word u /\ word v /\ word w) /\
  (isValidEmail s = true ->
     count_chars (is_char "@") s = 1 /\
     all_chars (fun c => negb (is_space c)) s = true /\
     5 <= String.length s /\ js_trim s = s).
Proof. split; [apply isValidEmail_shape | apply valid_email_facts]. Qed.

Example isValidEmail_run :
  isValidEmail "asha.rao@example.org" = true /\
  isValidEmail "asha@example" = false /\
  isValidEmail "asha rao@example.org" = false /\
  isValidEmail "asha@@example.org" = false /\
  isValidEmail "asha@example." = false /\
  isValidEmail " asha@example.org" = false.
Proof. repeat split; reflexivity. Qed.

(** ** Extraction of addresses *)

Lemma row_emails_in (index : nat) (r : Row) (e : EmailData) :
  In e (row_emails index r)
  <-> In (column e) (Object_keys r) /\
      get r (column e) = Some (CellString (email e)) /\
      isValidEmail (email e) = true /\ row e = index + 1.
Proof.
  unfold row_emails. rewrite in_flat_map. split.
  - intros [key [K H]].
    destruct (get r key) as [[value|t text]|] eqn:G; try contradiction.
    destruct (isValidEmail value) eqn:V; [|contradiction].
    destruct H as [<-|[]]. cbn.
    rewrite (proj2 (proj2 (proj2 (valid_email_facts value V)))).
    auto.
  - intros [K [G [V R]]]. exists (column e). split; [exact K|].
    rewrite G, V. left.
    rewrite (proj2 (proj2 (proj2 (valid_email_facts (email e) V)))).
    destruct e as [em rw cl]. cbn in *. subst rw. reflexivity.
Qed.

Lemma rows_emails_in (data : list Row) :
  forall (start : nat) (e : EmailData),
    In e (rows_emails start data)
    <-> exists i r,
          nth_error data i = Some r /\
          In (column e) (Object_keys r) /\
          get r (column e) = Some (CellString (email e)) /\
          isValidEmail (email e) = true /\
          row e = start + i + 1.
Proof.
  induction data as [|r data IH]; intros start e; cbn [rows_emails].
  - split; [intros [] | intros [i [r [N _]]]; destruct i; discriminate N].
  - rewrite in_app_iff, row_emails_in, IH. split.
    + intros [[K [G [V R]]]|[i [r' [N [K [G [V R]]]]]]].
      * exists 0, r. cbn. repeat split; try assumption. lia.
      * exists (S i), r'. cbn. repeat split; try assumption. lia.
    + intros [[|i] [r' [N [K [G [V R]]]]]].
      * cbn in N. injection N as <-. left. repeat split; try assumption. lia.
      * cbn in N. right. exists i, r'. repeat split; try assumption. lia.
Qed.

(** X15.  [extractEmailsFromExcel] returns exactly the string cells that
    [isValidEmail] accepts: each record carries the cell's own text (the
    [trim] changes nothing), the key of the cell as column and the index
    of the row plus one, and every such cell gives a record.  So every
    extracted address is accepted again by [isValidEmail], holds one ['@']
    and no white space, and its row number lies between 1 and the number
    of rows. *)
Theorem extracted_emails_are_valid_cells (data : list Row) :
  exists out,
    extractEmailsFromExcel (inl data) = inl out /\
    (forall e,
        In e out
        <-> exists i r,
              nth_error data i = Some r /\
              In (column e) (Object_keys r) /\
              get r (column e) = Some (CellString (email e)) /\
              isValidEmail (email e) = true /\ row e = i + 1) /\
    (forall e,
        In e out ->
        isValidEmail (email e) = true /\
        count_chars (is_char "@") (email e) = 1 /\
        all_chars (fun c => negb (is_space c)) (email e) = true /\
        1 <= row e <= List.length data).
Proof.
  exists (rows_emails 0 data). split; [reflexivity|]. split.
  - intros e. apply rows_emails_in.
  - intros e H. apply rows_emails_in in H as [i [r [N [_ [_ [V R]]]]]].
    destruct (valid_email_facts (email e) V) as [C [A _]].
    split; [exact V|]. split; [exact C|]. split; [exact A|].
    assert (L : i < List.length data)
      by (apply nth_error_Some; rewrite N; discriminate).
    cbn in R. lia.
Qed.

Example extractEmailsFromExcel_run :
  extractEmailsFromExcel
    (inl [ [("Name", CellString "Asha"); ("Email", CellString "asha@example.org")];
           [("Name", CellString "Ravi"); ("Email", CellString "ravi at example")];
           [("Name", CellString "Meera"); ("Phone", CellOther true "9812345678");
            ("Mail 1", CellString "meera@example.org");
            ("Mail 2", CellString "m.k@example.co.in")] ])
  = inl [ mkEmailData "asha@example.org" 1 "Email";
          mkEmailData "meera@example.org" 3 "Mail 1";
          mkEmailData "m.k@example.co.in" 3 "Mail 2" ].
Proof. reflexivity. Qed.

(** ** Phone numbers of the extraction *)

Lemma remove_spaces_app (s1 s2 : string) :
  remove_spaces (s1 ++ s2) = (remove_spaces s1 ++ remove_spaces s2)%string.
Proof.
  induction s1 as [|c s1 IH]; cbn [append remove_spaces]; [reflexivity|].
  rewrite IH. destruct (is_space c); reflexivity.
Qed.

Lemma remove_spaces_blank (s : string) :
  all_chars is_space s = true -> remove_spaces s = "".
Proof.
  induction s as [|c s IH]; cbn [all_chars remove_spaces]; [reflexivity|].
  intros H. apply andb_true_iff in H as [Sp H]. rewrite Sp. auto.
Qed.

Lemma digit_not_space (c : ascii) : is_digit c = true -> is_space c = false.
Proof.
  unfold is_digit, is_space. intros H.
  apply andb_true_iff in H as [L U].
  apply Nat.leb_le in L. apply Nat.leb_le in U.
  destruct (Nat.leb (nat_of_ascii c) 13) eqn:A;
    [apply Nat.leb_le in A; lia|].
  rewrite andb_false_r. cbn [orb].
  destruct (Nat.eqb (nat_of_ascii c) 32) eqn:B;
    [apply Nat.eqb_eq in B; lia|].
  destruct (Nat.eqb (nat_of_ascii c) 160) eqn:D;
    [apply Nat.eqb_eq in D; lia|].
  reflexivity.
Qed.

Lemma remove_spaces_digits (s : string) :
  all_digits s = true -> remove_spaces s = s.
Proof.
  induction s as [|c s IH]; cbn [all_digits remove_spaces]; [reflexivity|].
  intros H. apply andb_true_iff in H as [D H].
  rewrite (digit_not_space c D), (IH H). reflexivity.
Qed.

Lemma isValidPhoneNumber_shape (number : string) :
  isValidPhoneNumber number = true
  <-> exists sign d,
        remove_spaces number = (sign ++ d)%string /\
        (sign = "" \/ sign = "+") /\
        7 <= String.length d <= 15 /\ all_digits d = true.
Proof. unfold isValidPhoneNumber. apply phoneRegex_shape. Qed.

(** X16.  [isValidPhoneNumber] accepts exactly the strings that, once
    all white space is taken out, are an optional ['+'] followed by 7 to 15
    digits.  White space anywhere in the string, also between digits,
    does not change the verdict. *)
Theorem valid_phone_number_shape (number : string) :
  (isValidPhoneNumber number = true
   <-> exists sign d,
         remove_spaces number = (sign ++ d)%string /\
         (sign = "" \/ sign = "+") /\
         7 <= String.length d <= 15 /\ all_digits d = true) /\
  (forall s1 blank s2,
      all_chars is_space blank = true ->
      isValidPhoneNumber (s1 ++ blank ++ s2)
      = isValidPhoneNumber (s1 ++ s2)).
Proof.
  split; [apply isValidPhoneNumber_shape|].
  intros s1 blank s2 B. unfold isValidPhoneNumber.
  rewrite !remove_spaces_app, (remove_spaces_blank blank B). reflexivity.
Qed.

Example isValidPhoneNumber_run :
  isValidPhoneNumber "+91 98765 43210" = true /\
  isValidPhoneNumber "9876543" = true /\
  isValidPhoneNumber "987654" = false /\
  isValidPhoneNumber "98765-43210" = false /\
  isValidPhoneNumber "9876543210123456" = false /\
  isValidPhoneNumber "91+9876543210" = false.
Proof. repeat split; reflexivity. Qed.

(** ** Extraction of candidates *)

Lemma trimmed_field_trimmed (r : Row) (key x : string) :
  trimmed_field r key = Some x -> trimmed x.
Proof.
  unfold trimmed_field, trimmed.
  destruct (get r key) as [v|]; [|discriminate].
  destruct (truthy_cell (Some v)); [|discriminate].
  intros H. injection H as <-. apply js_trim_idem.
Qed.

Lemma row_candidate_in (index : nat) (r : Row) (c : Candidate) :
  In c (row_candidate index r)
  <-> trimmed_field r "Candidate Name" = Some (cand_name c) /\
      trimmed_field r "Telephone Number" = Some (cand_phone c) /\
      cand_name c <> "" /\ cand_phone c <> "" /\
      isValidPhoneNumber (cand_phone c) = true /\
      cand_row c = index + 2.
Proof.
  unfold row_candidate. split.
  - destruct (trimmed_field r "Candidate Name") as [nm|]; [|intros []].
    destruct (trimmed_field r "Telephone Number") as [ph|]; [|intros []].
    destruct (truthy_string (Some nm)) eqn:Tn; [|intros []].
    destruct (truthy_string (Some ph)) eqn:Tp; [|intros []].
    destruct (isValidPhoneNumber ph) eqn:V; [|intros []].
    intros [<-|[]]. cbn.
    repeat split; try assumption.
    + intros ->. discriminate Tn.
    + intros ->. discriminate Tp.
  - intros [N [P [Nn [Np [V R]]]]]. rewrite N, P, V.
    destruct (cand_name c) eqn:En; [contradiction|].
    destruct (cand_phone c) eqn:Ep; [contradiction|].
    cbn. left. destruct c as [nm ph rw]. cbn in *. subst. reflexivity.
Qed.

Lemma row_candidate_length (index : nat) (r : Row) :
  List.length (row_candidate index r) <= 1.
Proof.
  unfold row_candidate.
  destruct (trimmed_field r "Candidate Name"); [|cbn; lia].
  destruct (trimmed_field r "Telephone Number"); [|cbn; lia].
  destruct (_ && _ && _); cbn; lia.
Qed.

Lemma rows_candidates_in (rows : list Row) :
  forall (start : nat) (c : Candidate),
    In c (rows_candidates start rows)
    <-> exists i r,
          nth_error rows i = Some r /\
          trimmed_field r "Candidate Name" = Some (cand_name c) /\
          trimmed_field r "Telephone Number" = Some (cand_phone c) /\
          cand_name c <> "" /\ cand_phone c <> "" /\
          isValidPhoneNumber (cand_phone c) = true /\
          cand_row c = start + i + 2.
Proof.
  induction rows as [|r rows IH]; intros start c; cbn [rows_candidates].
  - split; [intros [] | intros [i [r [N _]]]; destruct i; discriminate N].
  - rewrite in_app_iff, row_candidate_in, IH. split.
    + intros [[N [P [Nn [Np [V R]]]]]|[i [r' [E [N [P [Nn [Np [V R]]]]]]]]].
      * exists 0, r. cbn. repeat split; try assumption. lia.
      * exists (S i), r'. cbn. repeat split; try assumption. lia.
    + intros [[|i] [r' [E [N [P [Nn [Np [V R]]]]]]]].
      * cbn in E. injection E as <-. left. repeat split; try assumption. lia.
      * cbn in E. right. exists i, r'. repeat split; try assumption. lia.
Qed.

Lemma rows_candidates_length (rows : list Row) (start : nat) :
  List.length (rows_candidates start rows) <= List.length rows.
Proof.
  revert start. induction rows as [|r rows IH]; intros start; [cbn; lia|].
  cbn [rows_candidates List.length]. rewrite length_app.
  pose proof (row_candidate_length start r). specialize (IH (S start)). lia.
Qed.

Lemma trimmed_field_cell (r : Row) (key t : string) :
  trimmed_field r key = Some t
  <-> exists v, get r key = Some v /\ truthy_cell (Some v) = true /\
                t = js_trim (String_of v).
Proof.
  unfold trimmed_field. destruct (get r key) as [v|].
  - destruct (truthy_cell (Some v)) eqn:T; split.
    + intros E. injection E as <-. exists v. auto.
    + intros [v' [E [_ ->]]]. injection E as <-. reflexivity.
    + discriminate.
    + intros [v' [E [T' _]]]. injection E as <-. rewrite T in T'.
      discriminate T'.
  - split; [discriminate | intros [v [E _]]; discriminate E].
Qed.

(** X17.  [extractCandidatesFromExcel] returns, for each row, at most one
    candidate: the row gives one exactly when its cells 'Candidate Name'
    and 'Telephone Number' are both truthy, their trimmed texts are not
    empty and the trimmed phone passes [isValidPhoneNumber].  The record
    carries the two trimmed texts and the index of the row plus two.  The
    text of a cell is what [String] gives for it, trimmed: the string
    itself for a string, the text the runtime prints for any other
    value. *)
Theorem extracted_candidates (rows : list Row) :
  (forall r key t,
      trimmed_field r key = Some t
      <-> exists v, get r key = Some v /\ truthy_cell (Some v) = true /\
                    t = js_trim (String_of v)) /\
  (forall s, String_of (CellString s) = s) /\
  (forall truthy text, String_of (CellOther truthy text) = text) /\
  exists out,
    extractCandidatesFromExcel (inl rows) = inl out /\
    (forall c,
        In c out
        <-> exists i r,
              nth_error rows i = Some r /\
              trimmed_field r "Candidate Name" = Some (cand_name c) /\
              trimmed_field r "Telephone Number" = Some (cand_phone c) /\
              cand_name c <> "" /\ cand_phone c <> "" /\
              isValidPhoneNumber (cand_phone c) = true /\
              cand_row c = i + 2) /\
    List.length out <= List.length rows /\
    (forall c,
        In c out ->
        trimmed (cand_name c) /\ trimmed (cand_phone c) /\
        2 <= cand_row c <= List.length rows + 1).
Proof.
  split; [exact trimmed_field_cell|].
  split; [reflexivity|]. split; [reflexivity|].
  exists (rows_candidates 0 rows). split; [reflexivity|].
  split; [intros c; apply rows_candidates_in|].
  split; [apply rows_candidates_length|].
  intros c H. apply rows_candidates_in in H as [i [r [E [N [P [_ [_ [_ R]]]]]]]].
  split; [exact (trimmed_field_trimmed r _ _ N)|].
  split; [exact (trimmed_field_trimmed r _ _ P)|].
  assert (L : i < List.length rows)
    by (apply nth_error_Some; rewrite E; discriminate).
  cbn in R. lia.
Qed.

(** Cells that are not strings: a number beyond 2^53 and a fraction are
    read as the runtime prints them, and the number zero is falsy. *)
Example extractCandidatesFromExcel_numbers_run :
  extractCandidatesFromExcel
    (inl [ [("Candidate Name", CellOther true "12345678901234567000");
            ("Telephone Number", CellOther true "9876543210")];
           [("Candidate Name", CellOther true "0.5");
            ("Telephone Number", CellOther true "98765432.5")];
           [("Candidate Name", CellString "Ravi");
            ("Telephone Number", CellOther false "0")] ])
  = inl [ mkCandidate "12345678901234567000" "9876543210" 2 ].
Proof. reflexivity. Qed.

Example extractCandidatesFromExcel_run :
  extractCandidatesFromExcel
    (inl [ [("Candidate Name", CellString " Asha Rao ");
            ("Telephone Number", CellOther true "9876543210")];
           [("Candidate Name", CellString "Ravi");
            ("Telephone Number", CellString "98765-43210")];
           [("Candidate Name", CellString "Meera");
            ("Telephone Number", CellString "+91 98123 45678")];
           [("Candidate Name", CellString "   ");
            ("Telephone Number", CellString "9812345678")];
           [("Telephone Number", CellString "9812345678")] ])
  = inl [ mkCandidate "Asha Rao" "9876543210" 2;
          mkCandidate "Meera" "+91 98123 45678" 4 ].
Proof. reflexivity. Qed.

(** ** From the extraction to the send loop *)

Lemma phone_regex_valid_number (p : string) :
  phone_regex p = true -> isValidPhoneNumber p = true /\ js_trim p = p.
Proof.
  intros H. apply phone_regex_spec in H as [[L U] D].
  apply all_digits_spec in D. split.
  - apply isValidPhoneNumber_shape. exists "", p.
    rewrite (remove_spaces_digits p D). cbn. split; [reflexivity|].
    split; [auto|]. split; [lia | exact D].
  - apply js_trim_no_space. rewrite all_digits_all_chars in D.
    clear L U. induction p as [|c p IH]; [reflexivity|].
    cbn in D. apply andb_true_iff in D as [Dc D].
    cbn. rewrite (digit_not_space c Dc), (IH D). reflexivity.
Qed.

Lemma valid_number_digits_bound (p : string) :
  isValidPhoneNumber p = true -> all_digits p = true ->
  7 <= String.length p <= 15.
Proof.
  intros V D. apply isValidPhoneNumber_shape in V as [sign [d [E [S [L _]]]]].
  rewrite (remove_spaces_digits p D) in E. subst p.
  destruct S as [->| ->]; [exact L|].
  cbn in D. discriminate D.
Qed.

Lemma candidate_phone_accepted (p : string) :
  isValidPhoneNumber p = true ->
  (phone_regex p = true
   <-> 10 <= String.length p /\ all_digits p = true).
Proof.
  intros V. unfold phone_regex. rewrite !andb_true_iff, !Nat.leb_le. split.
  - tauto.
  - intros [L D]. pose proof (valid_number_digits_bound p V D). tauto.
Qed.

(** X18.  A candidate the extraction returns is accepted by the send loop
    of [POST /api/whatsapp/send] exactly when its phone is made of at
    least 10 digits and nothing else: a phone with a ['+'], with white
    space between digits or with 7 to 9 digits is extracted and then
    recorded as 'Invalid phone number format' without a send.  The other
    way round, every phone the send loop accepts passes
    [isValidPhoneNumber]. *)
Theorem extracted_phone_versus_send
    (rows : list Row) (c : Candidate) :
  In c (rows_candidates 0 rows) ->
  (invalid_phone (contact_of c) = false
   <-> 10 <= String.length (cand_phone c) /\ all_digits (cand_phone c) = true) /\
  (invalid_phone (contact_of c) = true ->
   forall (World : Type)
          (sendMessage : World -> string -> string -> option string * World)
          (w : World) (message : string),
     send_contacts World sendMessage w [contact_of c] message
     = ([mkContactResult (contact_of c) false
           (Some "Invalid phone number format")], [], w)) /\
  (forall p, phone_regex p = true -> isValidPhoneNumber p = true).
Proof.
  intros H. apply rows_candidates_in in H as [i [r [_ [_ [_ [_ [Np [V _]]]]]]]].
  split; [|split].
  - rewrite (invalid_phone_string (contact_of c) (cand_phone c) eq_refl),
      <- phone_regex_spec.
    apply candidate_phone_accepted. exact V.
  - intros I World sendMessage w message. cbn [send_contacts]. rewrite I.
    reflexivity.
  - intros p P. apply phone_regex_valid_number. exact P.
Qed.

Lemma extracted_phone_versus_send_witness :
  let rows := [ [("Candidate Name", CellString "Meera");
                 ("Telephone Number", CellString "+91 98123 45678")] ] in
  let c := mkCandidate "Meera" "+91 98123 45678" 2 in
  In c (rows_candidates 0 rows) /\
  send_contacts unit (fun w _ _ => (None, w)) tt [contact_of c] "Hello"
  = ([mkContactResult (contact_of c) false
        (Some "Invalid phone number format")], [], tt).
Proof.
  intros rows c.
  assert (H : In c (rows_candidates 0 rows)) by (left; reflexivity).
  split; [exact H|].
  destruct (extracted_phone_versus_send rows c H) as [_ [B _]].
  apply B. reflexivity.
Defined.

(** ** The upload endpoint *)

(** X19.  [POST /api/upload] removes the uploaded file on every path:
    with a file (of non-empty path) the first thing done to the file
    system is one [unlinkSync] of that file, followed by at most one more,
    and nothing else is touched; without a file nothing is.  A 200 answer
    is given only when the extraction found something and the file was
    removed without error: it carries the non-empty list the extractor
    returned, with its length as count. *)
Theorem upload_always_unlinks
    (file : option string) (extractType : option string)
    (sheet : list Row + string) (unlink_error : option string) :
  let r := post_upload file extractType sheet unlink_error in
  (file = None -> r = (NoFileUploaded, [])) /\
  (forall path, file = Some path -> path <> "" ->
     (snd r = [Unlink path] \/ snd r = [Unlink path; Unlink path])) /\
  (forall count contacts, fst r = FoundContacts count contacts ->
     extractType = Some "contacts" /\ unlink_error = None /\
     contacts <> [] /\ count = List.length contacts /\
     extractCandidatesFromExcel sheet = inl contacts) /\
  (forall count emails, fst r = FoundEmails count emails ->
     extractType <> Some "contacts" /\ unlink_error = None /\
     emails <> [] /\ count = List.length emails /\
     extractEmailsFromExcel sheet = inl emails).
Proof.
  cbv zeta. unfold post_upload.
  destruct file as [path|];
    [|repeat split; intros; try discriminate; reflexivity].
  set (kind := match extractType with
               | Some t => if truthy_string (Some t) then t else "emails"
               | None => "emails"
               end).
  assert (K : (kind =? "contacts")%string = true
              <-> extractType = Some "contacts").
  { subst kind. rewrite String.eqb_eq. split.
    - destruct extractType as [[|c t]|]; cbn; intros H;
        try discriminate H. rewrite H. reflexivity.
    - intros ->. reflexivity. }
  destruct ((kind =? "contacts")%string) eqn:Ek.
  - assert (ET : extractType = Some "contacts") by (apply K; reflexivity).
    split; [discriminate|]. split.
    + intros p E N. injection E as ->.
      assert (T : truthy_string (Some p) = true)
        by (destruct p; [contradiction | reflexivity]).
      rewrite T.
      destruct (extractCandidatesFromExcel sheet) as [[|c cs]|m];
        destruct unlink_error; cbn; auto.
    + split.
      * intros count contacts.
        destruct (extractCandidatesFromExcel sheet) as [[|c cs]|m];
          destruct unlink_error; cbn; intros H; try discriminate H.
        injection H as <- <-. repeat split; try reflexivity; try assumption.
        discriminate.
      * intros count emails.
        destruct (extractCandidatesFromExcel sheet) as [[|c cs]|m];
          destruct unlink_error; cbn; discriminate.
  - assert (ET : extractType <> Some "contacts").
    { intros E. apply K in E. discriminate E. }
    split; [discriminate|]. split.
    + intros p E N. injection E as ->.
      assert (T : truthy_string (Some p) = true)
        by (destruct p; [contradiction | reflexivity]).
      rewrite T.
      destruct (extractEmailsFromExcel sheet) as [[|c cs]|m];
        destruct unlink_error; cbn; auto.
    + split.
      * intros count contacts.
        destruct (extractEmailsFromExcel sheet) as [[|c cs]|m];
          destruct unlink_error; cbn; discriminate.
      * intros count emails.
        destruct (extractEmailsFromExcel sheet) as [[|c cs]|m];
          destruct unlink_error; cbn; intros H; try discriminate H.
        injection H as <- <-. repeat split; try reflexivity; try assumption.
        discriminate.
Qed.

Example post_upload_run :
  post_upload (Some "uploads/1700000000000-list.xlsx") (Some "contacts")
    (inl [ [("Candidate Name", CellString "Asha");
            ("Telephone Number", CellOther true "9876543210")] ])
    None
  = (FoundContacts 1 [mkCandidate "Asha" "9876543210" 2],
     [Unlink "uploads/1700000000000-list.xlsx"]) /\
  post_upload (Some "uploads/1700000000000-list.xlsx") None
    (inr "File is password-protected") None
  = (UploadFailed "Error reading Excel file: File is password-protected",
     [Unlink "uploads/1700000000000-list.xlsx"]).
Proof. split; reflexivity. Qed.

(** ** A ready session sends *)

(** X20.  In every reachable session in state [Ready] that has a client
    object, a request to [POST /api/whatsapp/send] with at least one
    contact and a message that is not blank passes the guards: it is
    answered with the result list of the contact loop, run on the contacts
    and the message as given. *)
Theorem ready_session_sends
    (World : Type) (sendMessage : World -> string -> string -> option string * World)
    (trim : string -> string) (s : Session) (w : World)
    (contacts : list Contact) (message : string) :
  reachable s -> clientState s = Ready -> client s <> None ->
  contacts <> [] -> message <> "" -> trim message <> "" ->
  post_whatsapp_send World sendMessage trim s w (Some contacts) (Some message)
  = (SendComplete (fst (fst (send_contacts World sendMessage w contacts message))),
     snd (fst (send_contacts World sendMessage w contacts message)),
     snd (send_contacts World sendMessage w contacts message)).
Proof.
  intros R St C NC NM NT.
  destruct (reachable_ready_complete s R St) as [[i [I _]] _].
  unfold post_whatsapp_send. rewrite I.
  destruct (client s) as [c|]; [|contradiction].
  cbn [truthy_object negb orb].
  destruct contacts as [|c0 cs]; [contradiction|].
  destruct message as [|a m]; [contradiction|].
  cbn [truthy_string negb orb].
  apply String.eqb_neq in NT. rewrite NT.
  destruct (send_contacts World sendMessage w (c0 :: cs) (String a m))
    as [[r l] w1].
  reflexivity.
Qed.

Lemma ready_session_sends_witness :
  post_whatsapp_send unit (fun w _ _ => (None, w)) (fun m => m)
    (on_ready (Some (mkInfo "919876543210")) (boot true)) tt
    (Some [mkContact (Some "Asha") (JsString "9876543210")]) (Some "Hello")
  = (SendComplete
       [mkContactResult (mkContact (Some "Asha") (JsString "9876543210")) true None],
     [EMessage "919876543210@c.us" "Hello"; EDelay 10000], tt).
Proof.
  assert (R : reachable (on_ready (Some (mkInfo "919876543210")) (boot true)))
    by (exists true, [EvReady (Some (mkInfo "919876543210"))]; reflexivity).
  rewrite (ready_session_sends unit (fun w _ _ => (None, w)) (fun m => m)
             (on_ready (Some (mkInfo "919876543210")) (boot true)) tt
             [mkContact (Some "Asha") (JsString "9876543210")] "Hello" R eq_refl);
    try discriminate.
  reflexivity.
Defined.

(** ** A batch size of zero *)

(** X21.  With a batch size of 0 and at least one recipient
    [sendEmailsInBatches] never returns: the index does not advance, every
    iteration sends an empty batch, and no amount of fuel lets the loop
    end. *)
Theorem zero_batch_size_never_returns
    (World : Type)
    (sendMail : World -> string -> string -> string -> (string + string) * World)
    (w : World) (emails : list EmailData) (subject body : string)
    (delayMs : Z) :
  emails <> [] ->
  (forall fuel allResults log,
      batches_loop World sendMail fuel emails subject body 0 delayMs
        0 allResults log w = None) /\
  sendEmailsInBatches World sendMail w emails subject body 0 delayMs = None /\
  slice 0 (0 + 0) emails = [].
Proof.
  intros N. split; [|split].
  - intros fuel allResults log. apply batches_loop_zero_size. exact N.
  - unfold sendEmailsInBatches. apply batches_loop_zero_size. exact N.
  - reflexivity.
Qed.

Lemma zero_batch_size_never_returns_witness :
  sendEmailsInBatches nat (refuse "b@example.org") 0
    [mkEmailData "a@example.org" 1 "Email"] "Subject" "Body" 0 30000
  = None.
Proof.
  apply (zero_batch_size_never_returns nat (refuse "b@example.org") 0
           [mkEmailData "a@example.org" 1 "Email"] "Subject" "Body" 30000).
  discriminate.
Defined.
